(** * Electronics inventory backend: lot consumption, catalog store and
      faceted search compiler.

    A shallow embedding of [controllers/partsController.ts] (both revisions
    that the repository holds) and of the schema of [database.ts].

    - JavaScript strings are sequences of UTF-16 code units.
    - The REAL columns and the JSON numbers of a request are exact rationals
      ([Q]); the binary64 rounding of the runtime is not modelled.
    - An [async] handler is a tree of awaited store statements ([task]); the
      same tree is run to completion for one request, and interleaved at its
      [await] points for two requests that share the connection. *)

From Stdlib Require Import List NArith ZArith QArith Bool String Ascii Lia Lqa.
From Stdlib Require DecimalFacts DecimalPos DecimalN DecimalZ.
From ExtLib Require Import Structures.Monad Structures.MonadExc.
Import ListNotations.
Import MonadNotation.
Local Open Scope monad_scope.
Local Open Scope Z_scope.

Set Implicit Arguments.
Local Set Warnings "-register-all".

(* ===================================================================== *)
(** ** JavaScript strings *)
(* ===================================================================== *)

Abbreviation code_unit := N (only parsing).
Definition jsstring := list code_unit.

(** An ASCII literal of the source text, as a JavaScript string. *)
Definition lit (s : string) : jsstring :=
  map N_of_ascii (list_ascii_of_string s).

Fixpoint jsstring_eqb (a b : jsstring) : bool :=
  match a, b with
  | [], [] => true
  | x :: a', y :: b' => N.eqb x y && jsstring_eqb a' b'
  | _, _ => false
  end.

(* ===================================================================== *)
(** ** Numbers *)
(* ===================================================================== *)

(** [a < b] on numbers, as a test. *)
Definition Qltb (a b : Q) : bool := negb (Qle_bool b a).

(** A JSON number of a request body, or nothing when the field is absent. *)
Definition truthy_id (v : option Z) : bool :=
  match v with Some n => negb (n =? 0) | None => false end.

Definition truthy_num (v : option Q) : bool :=
  match v with Some q => negb (Qeq_bool q 0) | None => false end.

(** Arithmetic on a nullable REAL column converts [null] to [0]. *)
Definition ToNumber (v : option Q) : Q :=
  match v with Some q => q | None => 0%Q end.

(* ===================================================================== *)
(** ** The schema of [database.ts] *)
(* ===================================================================== *)

Inductive condition_t := NEW | SCRAP.

(** A row of [parts_catalog]. *)
Record part := mkPart {
  sku : jsstring;
  category : jsstring;
  name : jsstring;
  mpn : option jsstring;
  package_code : option jsstring;
  spec_definition : option jsstring;
  image_url : option jsstring;
  default_spec : option Q;
  unit_ : option jsstring
}.

(** A row of [part_suppliers]. *)
Record supplier := mkSupplier {
  supplier_id : Z;
  supplier_part_sku : jsstring;
  supplier_code : option jsstring;
  supplier_name : option jsstring;
  product_url : option jsstring
}.

(** A row of [inventory]; [condition] is a nullable TEXT with a CHECK. *)
Record lot := mkLot {
  id : Z;
  part_sku : jsstring;
  location_code : jsstring;
  quantity : Q;
  spec_value : Q;
  condition : option condition_t;
  last_updated : Z
}.

(** The row that [SELECT i.*, p.default_spec ... JOIN ...] returns. *)
Record item := mkItem {
  item_row : lot;
  item_default_spec : option Q
}.

Record db := mkDb {
  parts_catalog : list part;
  part_suppliers : list supplier;
  inventory : list lot;
  inventory_seq : Z;
  part_suppliers_seq : Z
}.

(* ===================================================================== *)
(** ** The store connection *)
(* ===================================================================== *)

Inductive exn :=
| StoreFailure          (* the statement was not carried out *)
| ConstraintFailed      (* PRIMARY KEY violated *)
| TransactionMisuse     (* BEGIN inside a transaction, COMMIT or ROLLBACK outside *)
| SyntaxError.          (* thrown by JSON.parse *)

(** The process-wide connection: the tables, the snapshot that an open
    transaction would roll back to, the outcome of the coming statements
    ([true]: the statement fails; none left: all succeed) and the reading of
    CURRENT_TIMESTAMP. *)
Record conn := mkConn {
  data : db;
  txn : option db;
  faults : list bool;
  clock : Z
}.

Definition with_data (c : conn) (d : db) : conn :=
  mkConn d (txn c) (faults c) (clock c).

(** The statements that the parts controller sends, with their bound values. *)
Inductive stmt : Type -> Type :=
| SelectInventoryItem (inventoryId : Z) : stmt (option item)
| BeginTransaction : stmt unit
| Commit : stmt unit
| Rollback : stmt unit
| DecrementQuantity (inventoryId : Z) : stmt unit
| InsertScrap (p_sku loc : jsstring) (remainingSpec : Q) : stmt unit
| SelectPart (p_sku : jsstring) : stmt (option part)
| SelectSku (p_sku : jsstring) : stmt (option jsstring)
| SelectSuppliers (p_sku : jsstring) : stmt (list supplier)
| InsertPart (p : part) : stmt unit
| InsertSupplier (p_sku : jsstring) (s_name s_code s_url : option jsstring) : stmt unit
| DeleteSuppliers (p_sku : jsstring) : stmt unit
| DeletePart (p_sku : jsstring) : stmt unit.

Definition find_lot (i : Z) (d : db) : option lot :=
  find (fun l => id l =? i) (inventory d).

Definition find_part (s : jsstring) (d : db) : option part :=
  find (fun p => jsstring_eqb (sku p) s) (parts_catalog d).

(** SELECT i.*, p.default_spec FROM inventory i
    JOIN parts_catalog p ON i.part_sku = p.sku WHERE i.id = ? *)
Definition select_inventory_item (i : Z) (d : db) : option item :=
  match find_lot i d with
  | Some l =>
      match find_part (part_sku l) d with
      | Some p => Some (mkItem l (default_spec p))
      | None => None
      end
  | None => None
  end.

(** UPDATE inventory SET quantity = quantity - 1,
    last_updated = CURRENT_TIMESTAMP WHERE id = ? *)
Definition decrement_row (i now : Z) (l : lot) : lot :=
  if id l =? i
  then mkLot (id l) (part_sku l) (location_code l) (quantity l - 1)%Q
             (spec_value l) (condition l) now
  else l.

Definition decrement_quantity (i now : Z) (d : db) : db :=
  mkDb (parts_catalog d) (part_suppliers d)
       (map (decrement_row i now) (inventory d))
       (inventory_seq d) (part_suppliers_seq d).

(** INSERT INTO inventory (part_sku, location_code, quantity, spec_value,
    condition) VALUES (?, ?, 1, ?, 'SCRAP'); the id is the next of the
    AUTOINCREMENT sequence. *)
Definition scrap_row (d : db) (s loc : jsstring) (r : Q) (now : Z) : lot :=
  mkLot (inventory_seq d + 1) s loc 1%Q r (Some SCRAP) now.

Definition insert_scrap (s loc : jsstring) (r : Q) (now : Z) (d : db) : db :=
  mkDb (parts_catalog d) (part_suppliers d)
       (inventory d ++ [scrap_row d s loc r now])
       (inventory_seq d + 1) (part_suppliers_seq d).

Definition insert_part (p : part) (d : db) : db :=
  mkDb (parts_catalog d ++ [p]) (part_suppliers d) (inventory d)
       (inventory_seq d) (part_suppliers_seq d).

Definition insert_supplier (s : jsstring) (n c u : option jsstring) (d : db) : db :=
  mkDb (parts_catalog d)
       (part_suppliers d ++ [mkSupplier (part_suppliers_seq d + 1) s c n u])
       (inventory d) (inventory_seq d) (part_suppliers_seq d + 1).

Definition delete_suppliers (s : jsstring) (d : db) : db :=
  mkDb (parts_catalog d)
       (filter (fun r => negb (jsstring_eqb (supplier_part_sku r) s)) (part_suppliers d))
       (inventory d) (inventory_seq d) (part_suppliers_seq d).

(** DELETE FROM parts_catalog WHERE sku = ?.  [database.ts] opens the file
    with SQLite's defaults and never switches foreign-key enforcement on, so
    the rows of [inventory] that reference the SKU neither block the delete
    nor are removed by it. *)
Definition delete_part (s : jsstring) (d : db) : db :=
  mkDb (filter (fun p => negb (jsstring_eqb (sku p) s)) (parts_catalog d))
       (part_suppliers d) (inventory d) (inventory_seq d) (part_suppliers_seq d).

(** Modelled from the spec: the [dbAsync] wrapper ([get], [all], [run]) that
    the controllers import from [database.ts] is not part of the sources; the
    store is "a durable relational store reachable via parameterized
    statements with transaction boundaries (BEGIN/COMMIT/ROLLBACK)".  A
    statement that succeeds acts on the tables as its SQL text says; BEGIN
    keeps the snapshot that ROLLBACK restores. *)
Definition perform {X} (s : stmt X) (c : conn) : (X + exn) * conn :=
  match s in stmt T return (T + exn) * conn with
  | SelectInventoryItem i => (inl (select_inventory_item i (data c)), c)
  | BeginTransaction =>
      match txn c with
      | None => (inl tt, mkConn (data c) (Some (data c)) (faults c) (clock c))
      | Some _ => (inr TransactionMisuse, c)
      end
  | Commit =>
      match txn c with
      | Some _ => (inl tt, mkConn (data c) None (faults c) (clock c))
      | None => (inr TransactionMisuse, c)
      end
  | Rollback =>
      match txn c with
      | Some snap => (inl tt, mkConn snap None (faults c) (clock c))
      | None => (inr TransactionMisuse, c)
      end
  | DecrementQuantity i =>
      (inl tt, with_data c (decrement_quantity i (clock c) (data c)))
  | InsertScrap s loc r =>
      (inl tt, with_data c (insert_scrap s loc r (clock c) (data c)))
  | SelectPart s => (inl (find_part s (data c)), c)
  | SelectSku s => (inl (option_map sku (find_part s (data c))), c)
  | SelectSuppliers s =>
      (inl (filter (fun r => jsstring_eqb (supplier_part_sku r) s)
                   (part_suppliers (data c))), c)
  | InsertPart p =>
      match find_part (sku p) (data c) with
      | Some _ => (inr ConstraintFailed, c)
      | None => (inl tt, with_data c (insert_part p (data c)))
      end
  | InsertSupplier s n cd u =>
      (inl tt, with_data c (insert_supplier s n cd u (data c)))
  | DeleteSuppliers s => (inl tt, with_data c (delete_suppliers s (data c)))
  | DeletePart s => (inl tt, with_data c (delete_part s (data c)))
  end.

(** One statement on the connection: the next planned outcome decides
    whether it is carried out at all. *)
Definition exec {X} (s : stmt X) (c : conn) : (X + exn) * conn :=
  match faults c with
  | true :: fs => (inr StoreFailure, mkConn (data c) (txn c) fs (clock c))
  | false :: fs => perform s (mkConn (data c) (txn c) fs (clock c))
  | [] => perform s c
  end.

(* ===================================================================== *)
(** ** Asynchronous handlers *)
(* ===================================================================== *)

(** An [async] function body: it returns, throws, or awaits one statement and
    goes on with its outcome. *)
Inductive task (A : Type) : Type :=
| Ret (a : A)
| Throw (e : exn)
| Await {X : Type} (s : stmt X) (k : X + exn -> task A).

Arguments Ret {A} a.
Arguments Throw {A} e.
Arguments Await {A X} s k.

Fixpoint task_bind {A B} (t : task A) (f : A -> task B) : task B :=
  match t with
  | Ret a => f a
  | Throw e => Throw e
  | Await s k => Await s (fun r => task_bind (k r) f)
  end.

(** try { t } catch (err) { h err } *)
Fixpoint try_catch {A} (t : task A) (h : exn -> task A) : task A :=
  match t with
  | Ret a => Ret a
  | Throw e => h e
  | Await s k => Await s (fun r => try_catch (k r) h)
  end.

#[global] Instance Monad_task : Monad task :=
  {| ret := @Ret; bind := @task_bind |}.

#[global] Instance MonadExc_task : MonadExc exn task :=
  {| raise := @Throw; catch := @try_catch |}.

(** [await dbAsync.get/all/run(...)]: a rejected promise throws here. *)
Definition await {X} (s : stmt X) : task X :=
  Await s (fun r => match r with inl x => Ret x | inr e => Throw e end).

(** One request served alone. *)
Fixpoint run {A} (t : task A) (c : conn) : (A + exn) * conn :=
  match t with
  | Ret a => (inl a, c)
  | Throw e => (inr e, c)
  | Await s k => let (r, c') := exec s c in run (k r) c'
  end.

(* ===================================================================== *)
(** ** JSON documents: [JSON.stringify] and [JSON.parse] *)
(* ===================================================================== *)

(** A JSON value as the runtime holds it.  An object is the list of its own
    properties in enumeration order; numbers are kept to the integers. *)
Inductive json :=
| JNull
| JBool (b : bool)
| JNumber (n : Z)
| JString (s : jsstring)
| JArray (l : list json)
| JObject (l : list (jsstring * json)).

(** ToBoolean on a JSON value. *)
Definition truthy_json (v : json) : bool :=
  match v with
  | JNull => false
  | JBool b => b
  | JNumber n => negb (n =? 0)
  | JString s => match s with [] => false | _ => true end
  | JArray _ => true
  | JObject _ => true
  end.

Local Open Scope N_scope.

Definition hex_digit (n : N) : code_unit :=
  if n <? 10 then 48 + n else 87 + n.

(** The six units of a [\uXXXX] escape, in lower-case hexadecimal. *)
Definition unicode_escape (c : code_unit) : jsstring :=
  [92; 117; hex_digit (c / 4096); hex_digit ((c / 256) mod 16);
   hex_digit ((c / 16) mod 16); hex_digit (c mod 16)].

Definition is_high_surrogate (c : code_unit) : bool :=
  (55296 <=? c) && (c <=? 56319).

Definition is_low_surrogate (c : code_unit) : bool :=
  (56320 <=? c) && (c <=? 57343).

Definition escape_unit (c : code_unit) : jsstring :=
  if c =? 8 then [92; 98]
  else if c =? 9 then [92; 116]
  else if c =? 10 then [92; 110]
  else if c =? 12 then [92; 102]
  else if c =? 13 then [92; 114]
  else if c =? 34 then [92; 34]
  else if c =? 92 then [92; 92]
  else if c <? 32 then unicode_escape c
  else [c].

(** The characters of a quoted string, between its quotes: control
    characters, the quote and the backslash are escaped, a surrogate that has
    no partner is written as a [\u] escape. *)
Fixpoint quote_units (s : jsstring) : jsstring :=
  match s with
  | [] => []
  | c :: s' =>
      if is_high_surrogate c then
        match s' with
        | d :: s'' =>
            if is_low_surrogate d then c :: d :: quote_units s''
            else unicode_escape c ++ quote_units s'
        | [] => unicode_escape c
        end
      else if is_low_surrogate c then unicode_escape c ++ quote_units s'
      else escape_unit c ++ quote_units s'
  end.

Definition quote (s : jsstring) : jsstring := 34 :: quote_units s ++ [34].

Fixpoint uint_units (d : Decimal.uint) : jsstring :=
  match d with
  | Decimal.Nil => []
  | Decimal.D0 d => 48 :: uint_units d
  | Decimal.D1 d => 49 :: uint_units d
  | Decimal.D2 d => 50 :: uint_units d
  | Decimal.D3 d => 51 :: uint_units d
  | Decimal.D4 d => 52 :: uint_units d
  | Decimal.D5 d => 53 :: uint_units d
  | Decimal.D6 d => 54 :: uint_units d
  | Decimal.D7 d => 55 :: uint_units d
  | Decimal.D8 d => 56 :: uint_units d
  | Decimal.D9 d => 57 :: uint_units d
  end.

Definition number_units (n : Z) : jsstring :=
  match Z.to_int n with
  | Decimal.Pos d => uint_units d
  | Decimal.Neg d => 45 :: uint_units d
  end.

Fixpoint join (sep : jsstring) (l : list jsstring) : jsstring :=
  match l with
  | [] => []
  | [x] => x
  | x :: l' => x ++ sep ++ join sep l'
  end.

(** [JSON.stringify(v)] without indentation. *)
Fixpoint JSON_stringify (v : json) : jsstring :=
  match v with
  | JNull => lit "null"
  | JBool true => lit "true"
  | JBool false => lit "false"
  | JNumber n => number_units n
  | JString s => quote s
  | JArray l => 91 :: join [44] (map JSON_stringify l) ++ [93]
  | JObject l =>
      123 :: join [44] (map (fun kv => quote (fst kv) ++ 58 :: JSON_stringify (snd kv)) l)
          ++ [125]
  end.

(** JSON white space: space, tab, line feed, carriage return. *)
Definition is_json_ws (c : code_unit) : bool :=
  (c =? 32) || (c =? 9) || (c =? 10) || (c =? 13).

Fixpoint skip_ws (s : jsstring) : jsstring :=
  match s with
  | c :: s' => if is_json_ws c then skip_ws s' else s
  | [] => []
  end.

Definition hex_value (h : code_unit) : option N :=
  if (48 <=? h) && (h <=? 57) then Some (h - 48)
  else if (97 <=? h) && (h <=? 102) then Some (h - 87)
  else if (65 <=? h) && (h <=? 70) then Some (h - 55)
  else None.

Definition hex4 (a b c d : code_unit) : option code_unit :=
  match hex_value a, hex_value b, hex_value c, hex_value d with
  | Some x, Some y, Some z, Some w => Some (4096 * x + 256 * y + 16 * z + w)
  | _, _, _, _ => None
  end.

Definition simple_escape (e : code_unit) : option code_unit :=
  if e =? 34 then Some 34
  else if e =? 92 then Some 92
  else if e =? 47 then Some 47
  else if e =? 98 then Some 8
  else if e =? 102 then Some 12
  else if e =? 110 then Some 10
  else if e =? 114 then Some 13
  else if e =? 116 then Some 9
  else None.

Definition prepend (c : code_unit) (r : option (jsstring * jsstring))
  : option (jsstring * jsstring) :=
  match r with
  | Some (s, rest) => Some (c :: s, rest)
  | None => None
  end.

(** The characters after an opening quote, up to the closing one. *)
Fixpoint parse_string_body (s : jsstring) : option (jsstring * jsstring) :=
  match s with
  | [] => None
  | c :: s' =>
      if c =? 34 then Some ([], s')
      else if c =? 92 then
        match s' with
        | e :: s'' =>
            if e =? 117 then
              match s'' with
              | h1 :: h2 :: h3 :: h4 :: s3 =>
                  match hex4 h1 h2 h3 h4 with
                  | Some u => prepend u (parse_string_body s3)
                  | None => None
                  end
              | _ => None
              end
            else
              match simple_escape e with
              | Some u => prepend u (parse_string_body s'')
              | None => None
              end
        | [] => None
        end
      else if c <? 32 then None
      else prepend c (parse_string_body s')
  end.

Definition digit_of (c : code_unit) : option (Decimal.uint -> Decimal.uint) :=
  if c =? 48 then Some Decimal.D0
  else if c =? 49 then Some Decimal.D1
  else if c =? 50 then Some Decimal.D2
  else if c =? 51 then Some Decimal.D3
  else if c =? 52 then Some Decimal.D4
  else if c =? 53 then Some Decimal.D5
  else if c =? 54 then Some Decimal.D6
  else if c =? 55 then Some Decimal.D7
  else if c =? 56 then Some Decimal.D8
  else if c =? 57 then Some Decimal.D9
  else None.

(** The longest run of decimal digits at the head of the text. *)
Fixpoint parse_digits (s : jsstring) : Decimal.uint * jsstring :=
  match s with
  | c :: s' =>
      match digit_of c with
      | Some D => let (d, rest) := parse_digits s' in (D d, rest)
      | None => (Decimal.Nil, s)
      end
  | [] => (Decimal.Nil, [])
  end.

(** An integer literal: no empty digit run, no leading zero, and no
    fraction or exponent (those are outside the numbers kept here). *)
Definition parse_uint (s : jsstring) : option (Decimal.uint * jsstring) :=
  let (d, rest) := parse_digits s in
  let continues :=
    match rest with
    | c :: _ => (c =? 46) || (c =? 101) || (c =? 69)
    | [] => false
    end in
  if continues then None
  else
    match d with
    | Decimal.Nil => None
    | Decimal.D0 Decimal.Nil => Some (d, rest)
    | Decimal.D0 _ => None
    | _ => Some (d, rest)
    end.

Definition parse_number (s : jsstring) : option (Z * jsstring) :=
  match s with
  | c :: s' =>
      if c =? 45 then
        match parse_uint s' with
        | Some (d, rest) => Some (Z.of_int (Decimal.Neg d), rest)
        | None => None
        end
      else
        match parse_uint s with
        | Some (d, rest) => Some (Z.of_int (Decimal.Pos d), rest)
        | None => None
        end
  | [] => None
  end.

Fixpoint strip_prefix (p s : jsstring) : option jsstring :=
  match p, s with
  | [], _ => Some s
  | x :: p', y :: s' => if x =? y then strip_prefix p' s' else None
  | _ :: _, [] => None
  end.

(** Defining a property that the object already has keeps its place and
    replaces its value. *)
Fixpoint object_put (k : jsstring) (v : json) (l : list (jsstring * json))
  : list (jsstring * json) :=
  match l with
  | [] => [(k, v)]
  | (k', v') :: l' =>
      if jsstring_eqb k' k then (k', v) :: l' else (k', v') :: object_put k v l'
  end.

Definition object_of (members : list (jsstring * json)) : list (jsstring * json) :=
  fold_left (fun acc kv => object_put (fst kv) (snd kv) acc) members [].

(** Recursive descent over the text; [fuel] bounds the nesting and the
    number of elements, and the length of the text is always enough. *)
Fixpoint parse_value (fuel : nat) (s : jsstring) {struct fuel}
  : option (json * jsstring) :=
  match fuel with
  | O => None
  | S f =>
      match skip_ws s with
      | [] => None
      | c :: s' =>
          if c =? 34 then
            match parse_string_body s' with
            | Some (str, rest) => Some (JString str, rest)
            | None => None
            end
          else if c =? 91 then
            match skip_ws s' with
            | d :: s'' =>
                if d =? 93 then Some (JArray [], s'')
                else
                  match parse_elements f (d :: s'') with
                  | Some (vs, rest) => Some (JArray vs, rest)
                  | None => None
                  end
            | [] => None
            end
          else if c =? 123 then
            match skip_ws s' with
            | d :: s'' =>
                if d =? 125 then Some (JObject [], s'')
                else
                  match parse_members f (d :: s'') with
                  | Some (ms, rest) => Some (JObject (object_of ms), rest)
                  | None => None
                  end
            | [] => None
            end
          else if c =? 110 then
            match strip_prefix (lit "null") (c :: s') with
            | Some rest => Some (JNull, rest)
            | None => None
            end
          else if c =? 116 then
            match strip_prefix (lit "true") (c :: s') with
            | Some rest => Some (JBool true, rest)
            | None => None
            end
          else if c =? 102 then
            match strip_prefix (lit "false") (c :: s') with
            | Some rest => Some (JBool false, rest)
            | None => None
            end
          else
            match parse_number (c :: s') with
            | Some (n, rest) => Some (JNumber n, rest)
            | None => None
            end
      end
  end

with parse_elements (fuel : nat) (s : jsstring) {struct fuel}
  : option (list json * jsstring) :=
  match fuel with
  | O => None
  | S f =>
      match parse_value f s with
      | Some (v, rest) =>
          match skip_ws rest with
          | c :: rest' =>
              if c =? 44 then
                match parse_elements f rest' with
                | Some (vs, rest'') => Some (v :: vs, rest'')
                | None => None
                end
              else if c =? 93 then Some ([v], rest')
              else None
          | [] => None
          end
      | None => None
      end
  end

with parse_members (fuel : nat) (s : jsstring) {struct fuel}
  : option (list (jsstring * json) * jsstring) :=
  match fuel with
  | O => None
  | S f =>
      match skip_ws s with
      | q :: s1 =>
          if q =? 34 then
            match parse_string_body s1 with
            | Some (k, s2) =>
                match skip_ws s2 with
                | colon :: s3 =>
                    if colon =? 58 then
                      match parse_value f s3 with
                      | Some (v, rest) =>
                          match skip_ws rest with
                          | c :: rest' =>
                              if c =? 44 then
                                match parse_members f rest' with
                                | Some (ms, rest'') => Some ((k, v) :: ms, rest'')
                                | None => None
                                end
                              else if c =? 125 then Some ([(k, v)], rest')
                              else None
                          | [] => None
                          end
                      | None => None
                      end
                    else None
                | [] => None
                end
            | None => None
            end
          else None
      | [] => None
      end
  end.

(** [JSON.parse(text)]; [None] is the SyntaxError. *)
Definition JSON_parse (text : jsstring) : option json :=
  match parse_value (S (List.length text)) text with
  | Some (v, rest) =>
      match skip_ws rest with
      | [] => Some v
      | _ :: _ => None
      end
  | None => None
  end.

Local Close Scope N_scope.

(** A JSON value that the runtime can hold: the properties of an object have
    distinct names. *)
Fixpoint json_wf (v : json) : Prop :=
  match v with
  | JArray l => fold_right (fun x acc => json_wf x /\ acc) True l
  | JObject l =>
      NoDup (map fst l)
      /\ fold_right (fun kv acc => json_wf (snd kv) /\ acc) True l
  | _ => True
  end.

(** The nodes of a value, with one more for each element and member. *)
Fixpoint json_size (v : json) : nat :=
  match v with
  | JArray l => S (fold_right (fun x acc => S (json_size x + acc)) O l)
  | JObject l => S (fold_right (fun kv acc => S (json_size (snd kv) + acc)) O l)
  | _ => 1
  end.

(** What may follow a value in a text: nothing that would continue a number. *)
Definition ends_number (rest : jsstring) : bool :=
  match rest with
  | [] => true
  | c :: _ =>
      match digit_of c with
      | Some _ => false
      | None => negb ((c =? 46) || (c =? 101) || (c =? 69))%N
      end
  end.

Local Open Scope N_scope.

Definition starts_with_digit (s : jsstring) : bool :=
  match s with
  | c :: _ => match digit_of c with Some _ => true | None => false end
  | [] => false
  end.

(** The text of a number starts with a digit or with the minus sign. *)
Definition starts_number (s : jsstring) : bool :=
  match s with
  | c :: _ => (c =? 45) || ((48 <=? c) && (c <=? 57))
  | [] => false
  end.

Definition value_start (c : code_unit) : bool :=
  (c =? 34) || (c =? 91) || (c =? 123) || (c =? 110) || (c =? 116) || (c =? 102)
  || (c =? 45) || ((48 <=? c) && (c <=? 57)).

Definition reads_back (v : json) : Prop :=
  json_wf v ->
  forall (fuel : nat) (rest : jsstring),
    (json_size v <= fuel)%nat ->
    ends_number rest = true ->
    parse_value fuel (JSON_stringify v ++ rest) = Some (v, rest).

Definition elements_size (l : list json) : nat :=
  fold_right (fun x acc => S (json_size x + acc)) O l.

Definition members_size (l : list (jsstring * json)) : nat :=
  fold_right (fun kv acc => S (json_size (snd kv) + acc)) O l.

Definition member_text (kv : jsstring * json) : jsstring :=
  quote (fst kv) ++ 58%N :: JSON_stringify (snd kv).

Local Close Scope N_scope.

(* ===================================================================== *)
(** ** Requests and responses *)
(* ===================================================================== *)

Inductive json_body :=
| ErrorBody (error : string)
| MessageBody (message : string)
| CutBody (success : bool) (message : string) (original_id : Z) (remaining_spec : Q)
| PartBody (row : part) (spec_definition_doc : json) (suppliers : list supplier)
| NoBody.

(** What [res.status(n).json(b)] sends. *)
Record response := mkResponse {
  status : Z;
  body : json_body
}.

(** The body of POST /parts/cut. *)
Record cut_request := mkCutRequest {
  inventoryId : option Z;
  useAmount : option Q
}.

Record supplier_input := mkSupplierInput {
  in_supplier_name : option jsstring;
  in_supplier_code : option jsstring;
  in_product_url : option jsstring
}.

(** The body of POST /parts. *)
Record create_request := mkCreateRequest {
  req_sku : option jsstring;
  req_category : option jsstring;
  req_name : option jsstring;
  req_mpn : option jsstring;
  req_package_code : option jsstring;
  req_spec_definition : option json;
  req_image_url : option jsstring;
  req_default_spec : option Q;
  req_unit : option jsstring;
  req_suppliers : option (list supplier_input)
}.

Definition truthy_str (v : option jsstring) : bool :=
  match v with Some (_ :: _) => true | _ => false end.

(** [v || null] on an optional string. *)
Definition or_null (v : option jsstring) : option jsstring :=
  if truthy_str v then v else None.

Definition internal_error : response :=
  mkResponse 500 (ErrorBody "Internal Server Error").

(** [item.condition === "NEW" ? item.default_spec : item.spec_value] *)
Definition currentSpec (it : item) : option Q :=
  match condition (item_row it) with
  | Some NEW => item_default_spec it
  | _ => Some (spec_value (item_row it))
  end.

Definition remainingSpec (it : item) (u : Q) : Q :=
  (ToNumber (currentSpec it) - u)%Q.

Definition cut_success (i : Z) (r : Q) : response :=
  mkResponse 200 (CutBody true "Cut operation successful" i r).

(* ===================================================================== *)
(** ** The parts controller, [src/unnamed/part_003] *)
(* ===================================================================== *)

(** [cutInventory], lines 77-139: the decrement and the insert are bracketed
    by BEGIN TRANSACTION and COMMIT, with ROLLBACK in the inner handler. *)
Definition cutInventory (req : cut_request) : task response :=
  catch
    (match inventoryId req, useAmount req with
     | Some i, Some u =>
         if negb (truthy_id (Some i)) || negb (truthy_num (Some u)) then
           ret (mkResponse 400 (ErrorBody "Inventory ID and use amount are required"))
         else
           found <- await (SelectInventoryItem i) ;;
           match found with
           | None => ret (mkResponse 404 (ErrorBody "Inventory item not found"))
           | Some it =>
               if Qltb (quantity (item_row it)) 1 then
                 ret (mkResponse 400 (ErrorBody "Insufficient quantity"))
               else if Qltb (remainingSpec it u) 0 then
                 ret (mkResponse 400 (ErrorBody "Use amount exceeds current spec"))
               else
                 await BeginTransaction ;;
                 catch
                   (await (DecrementQuantity i) ;;
                    (if Qltb 0 (remainingSpec it u)
                     then await (InsertScrap (part_sku (item_row it))
                                             (location_code (item_row it))
                                             (remainingSpec it u))
                     else ret tt) ;;
                    await Commit ;;
                    ret (cut_success i (remainingSpec it u)))
                   (fun err => await Rollback ;; raise err)
           end
     | _, _ =>
         ret (mkResponse 400 (ErrorBody "Inventory ID and use amount are required"))
     end)
    (fun _ => ret internal_error).

(** [for (const supplier of suppliers) await dbAsync.run(INSERT ...)] *)
Fixpoint insert_suppliers (s : jsstring) (l : list supplier_input) : task unit :=
  match l with
  | [] => ret tt
  | x :: l' =>
      await (InsertSupplier s (in_supplier_name x) (in_supplier_code x)
                            (in_product_url x)) ;;
      insert_suppliers s l'
  end.

(** The row that [createPart] binds to its INSERT. *)
Definition new_part (s c n : jsstring) (req : create_request) : part :=
  mkPart s c n
    (or_null (req_mpn req))
    (or_null (req_package_code req))
    (Some (JSON_stringify
             (match req_spec_definition req with
              | Some v => if truthy_json v then v else JObject []
              | None => JObject []
              end)))
    (or_null (req_image_url req))
    (Some (if truthy_num (req_default_spec req)
           then ToNumber (req_default_spec req) else 0%Q))
    (Some (if truthy_str (req_unit req)
           then match req_unit req with Some u => u | None => lit "pcs" end
           else lit "pcs")).

(** [createPart], lines 163-215. *)
Definition createPart (req : create_request) : task response :=
  catch
    (match req_sku req, req_category req, req_name req with
     | Some s, Some c, Some n =>
         if negb (truthy_str (Some s)) || negb (truthy_str (Some c))
            || negb (truthy_str (Some n)) then
           ret (mkResponse 400 (ErrorBody "SKU, category, and name are required"))
         else
           existing <- await (SelectSku s) ;;
           match existing with
           | Some _ =>
               ret (mkResponse 409 (ErrorBody "Part with this SKU already exists"))
           | None =>
               await BeginTransaction ;;
               catch
                 (await (InsertPart (new_part s c n req)) ;;
                  match req_suppliers req with
                  | Some (x :: l) => insert_suppliers s (x :: l)
                  | _ => ret tt
                  end ;;
                  await Commit ;;
                  ret (mkResponse 201 (MessageBody "Part created successfully")))
                 (fun err => await Rollback ;; raise err)
           end
     | _, _, _ =>
         ret (mkResponse 400 (ErrorBody "SKU, category, and name are required"))
     end)
    (fun _ => ret internal_error).

(** [getPartBySku], lines 141-161. *)
Definition getPartBySku (s : jsstring) : task response :=
  catch
    (found <- await (SelectPart s) ;;
     match found with
     | None => ret (mkResponse 404 (ErrorBody "Part not found"))
     | Some p =>
         suppliers <- await (SelectSuppliers s) ;;
         doc <- (if truthy_str (spec_definition p)
                 then match spec_definition p with
                      | Some text =>
                          match JSON_parse text with
                          | Some v => ret v
                          | None => raise SyntaxError
                          end
                      | None => ret (JObject [])
                      end
                 else ret (JObject [])) ;;
         ret (mkResponse 200 (PartBody p doc suppliers))
     end)
    (fun _ => ret internal_error).

(** [deletePart], lines 280-304. *)
Definition deletePart (s : jsstring) : task response :=
  catch
    (existing <- await (SelectSku s) ;;
     match existing with
     | None => ret (mkResponse 404 (ErrorBody "Part not found"))
     | Some _ =>
         await BeginTransaction ;;
         catch
           (await (DeleteSuppliers s) ;;
            await (DeletePart s) ;;
            await Commit ;;
            ret (mkResponse 204 NoBody))
           (fun err => await Rollback ;; raise err)
     end)
    (fun _ => ret internal_error).

(* ===================================================================== *)
(** ** The parts controller, [src/src/controllers/partsController.ts] *)
(* ===================================================================== *)

(** This revision differs from the one above in [getParts] and in
    [cutInventory]; its [createPart], [getPartBySku], [updatePart] and
    [deletePart] are the same text. *)
Module PartsControllerTs.

(** [cutInventory], lines 45-100: the same checks, then the UPDATE and the
    INSERT sent one after the other with no transaction around them. *)
Definition cutInventory (req : cut_request) : task response :=
  catch
    (match inventoryId req, useAmount req with
     | Some i, Some u =>
         if negb (truthy_id (Some i)) || negb (truthy_num (Some u)) then
           ret (mkResponse 400 (ErrorBody "Inventory ID and use amount are required"))
         else
           found <- await (SelectInventoryItem i) ;;
           match found with
           | None => ret (mkResponse 404 (ErrorBody "Inventory item not found"))
           | Some it =>
               if Qltb (quantity (item_row it)) 1 then
                 ret (mkResponse 400 (ErrorBody "Insufficient quantity"))
               else if Qltb (remainingSpec it u) 0 then
                 ret (mkResponse 400 (ErrorBody "Use amount exceeds current spec"))
               else
                 await (DecrementQuantity i) ;;
                 (if Qltb 0 (remainingSpec it u)
                  then await (InsertScrap (part_sku (item_row it))
                                          (location_code (item_row it))
                                          (remainingSpec it u))
                  else ret tt) ;;
                 ret (cut_success i (remainingSpec it u))
           end
     | _, _ =>
         ret (mkResponse 400 (ErrorBody "Inventory ID and use amount are required"))
     end)
    (fun _ => ret internal_error).

End PartsControllerTs.

(* ===================================================================== *)
(** ** Two requests on the shared connection *)
(* ===================================================================== *)

Inductive turn := first | second.

(** The event loop resumes one of the two handlers at a time; the handler
    runs up to its next [await], whose statement the connection carries
    out.  A handler that has answered ignores its turns. *)
Fixpoint interleave {A} (sched : list turn) (t1 t2 : task A) (c : conn)
  : task A * task A * conn :=
  match sched with
  | [] => (t1, t2, c)
  | first :: sched' =>
      match t1 with
      | Await s k => let (r, c') := exec s c in interleave sched' (k r) t2 c'
      | _ => interleave sched' t1 t2 c
      end
  | second :: sched' =>
      match t2 with
      | Await s k => let (r, c') := exec s c in interleave sched' t1 (k r) c'
      | _ => interleave sched' t1 t2 c
      end
  end.

(* ===================================================================== *)
(** ** Failure classes of a response *)
(* ===================================================================== *)

(** The controllers answer with a status and a message; the classes are the
    ones of the error taxonomy: every 400 is a validation failure, and the
    failure of a cut on an exhausted lot is the 400 with its own message. *)
Definition ValidationError (r : response) : Prop := status r = 400.

Definition insufficient_quantity : response :=
  mkResponse 400 (ErrorBody "Insufficient quantity").

Definition InsufficientQuantity (r : response) : Prop :=
  r = insufficient_quantity.

Definition missing_fields : response :=
  mkResponse 400 (ErrorBody "Inventory ID and use amount are required").

Definition exceeds_spec : response :=
  mkResponse 400 (ErrorBody "Use amount exceeds current spec").

(** The answers that a handler can still give, whatever the store does. *)
Fixpoint answers {A} (t : task A) (a : A) : Prop :=
  match t with
  | Ret b => b = a
  | Throw _ => False
  | Await s k => exists r, answers (k r) a
  end.

(* ===================================================================== *)
(** ** The search query of [getParts], [src/unnamed/part_003] lines 4-75 *)
(* ===================================================================== *)

(** A value of [req.query]: one string, or the strings of a repeated key
    (the nested objects that the query parser can also build are left out). *)
Inductive qvalue :=
| QString (s : jsstring)
| QArray (l : list jsstring).

Record query := mkQuery {
  q_name : option qvalue;
  q_sku : option qvalue;
  q_supplier_code : option qvalue;
  q_package_code : option qvalue;
  q_category : option qvalue;
  q_description : option qvalue;
  q_q : option qvalue
}.

(** [if (v)]: an absent key and the empty string are skipped; an array is
    always taken. *)
Definition truthy_q (v : option qvalue) : bool :=
  match v with
  | Some (QString (_ :: _)) => true
  | Some (QArray _) => true
  | _ => false
  end.

(** [String(v)] and the value of [v] inside a template literal. *)
Definition String_ (v : qvalue) : jsstring :=
  match v with
  | QString s => s
  | QArray l => join (lit ",") l
  end.

Local Open Scope N_scope.

(** White space of the language: what [\s] matches and [trim] removes. *)
Definition is_js_space (c : code_unit) : bool :=
  (c =? 9) || (c =? 10) || (c =? 11) || (c =? 12) || (c =? 13) || (c =? 32)
  || (c =? 160) || (c =? 5760) || ((8192 <=? c) && (c <=? 8202))
  || (c =? 8232) || (c =? 8233) || (c =? 8239) || (c =? 8287)
  || (c =? 12288) || (c =? 65279).

(** The class of the regular expression of line 56, as the file has it:
    [\s] followed by the characters U+00E3, U+20AC and U+20AC. *)
Definition is_word_separator (c : code_unit) : bool :=
  is_js_space c || (c =? 227) || (c =? 8364).

(** [s.split(",")] *)
Fixpoint split_comma (s : jsstring) : list jsstring :=
  match s with
  | [] => [[]]
  | c :: s' =>
      if c =? 44 then [] :: split_comma s'
      else
        match split_comma s' with
        | h :: t => (c :: h) :: t
        | [] => [[c]]
        end
  end.

(** [s.split(/[...]+/)]: a run of separators ends the piece being read. *)
Fixpoint split_runs (sep : code_unit -> bool) (in_run : bool) (s : jsstring)
  : list jsstring :=
  match s with
  | [] => [[]]
  | c :: s' =>
      if sep c then
        if in_run then split_runs sep true s'
        else [] :: split_runs sep true s'
      else
        match split_runs sep false s' with
        | h :: t => (c :: h) :: t
        | [] => [[c]]
        end
  end.

Fixpoint trim_start (s : jsstring) : jsstring :=
  match s with
  | c :: s' => if is_js_space c then trim_start s' else s
  | [] => []
  end.

Definition trim (s : jsstring) : jsstring :=
  rev (trim_start (rev (trim_start s))).

Definition nonempty (s : jsstring) : bool :=
  match s with [] => false | _ :: _ => true end.

Local Close Scope N_scope.

(** [toArray], lines 32-35. *)
Definition toArray (v : qvalue) : list jsstring :=
  match v with
  | QArray l => l
  | QString _ => filter nonempty (map trim (split_comma (String_ v)))
  end.

Definition nl : jsstring := [10%N].

(** The template literal of lines 8-14. *)
Definition base_sql : jsstring :=
  nl ++ lit "            SELECT DISTINCT p.*, i.id as inventory_id, i.location_code, i.quantity, i.condition, i.spec_value"
  ++ nl ++ lit "            FROM parts_catalog p"
  ++ nl ++ lit "                     LEFT JOIN inventory i ON p.sku = i.part_sku"
  ++ nl ++ lit "                     LEFT JOIN part_suppliers s ON p.sku = s.part_sku"
  ++ nl ++ lit "            WHERE true"
  ++ nl ++ lit "        ".

(** The query text and the bound values, as the handler grows them. *)
Definition builder : Type := jsstring * list qvalue.

Definition like_pattern (v : qvalue) : qvalue :=
  QString (lit "%" ++ String_ v ++ lit "%").

Definition add_name (v : option qvalue) (b : builder) : builder :=
  match v with
  | Some x =>
      if truthy_q v
      then (fst b ++ lit " AND p.name LIKE ?", snd b ++ [like_pattern x])
      else b
  | None => b
  end.

Definition add_sku (v : option qvalue) (b : builder) : builder :=
  match v with
  | Some x =>
      if truthy_q v
      then (fst b ++ lit " AND p.sku LIKE ?", snd b ++ [like_pattern x])
      else b
  | None => b
  end.

Definition add_supplier_code (v : option qvalue) (b : builder) : builder :=
  match v with
  | Some x =>
      if truthy_q v
      then (fst b ++ lit " AND s.supplier_code = ?", snd b ++ [x])
      else b
  | None => b
  end.

Definition add_package_code (v : option qvalue) (b : builder) : builder :=
  match v with
  | Some x =>
      if truthy_q v then
        let packages := toArray x in
        if (0 <? Z.of_nat (List.length packages))%Z then
          let placeholder :=
            join (lit " OR p.package_code = ") (map (fun _ => lit "?") packages) in
          (fst b ++ lit " AND (p.package_code = " ++ placeholder ++ lit ")",
           snd b ++ map QString packages)
        else b
      else b
  | None => b
  end.

Definition add_category (v : option qvalue) (b : builder) : builder :=
  match v with
  | Some x =>
      if truthy_q v then
        let categories := toArray x in
        if (0 <? Z.of_nat (List.length categories))%Z then
          let placeholders :=
            join (lit " OR p.category = ") (map (fun _ => lit "?") categories) in
          (fst b ++ lit " AND (p.category = " ++ placeholders ++ lit ")",
           snd b ++ map QString categories)
        else b
      else b
  | None => b
  end.

Definition add_word (b : builder) (word : jsstring) : builder :=
  (fst b ++ lit " AND p.description LIKE ?",
   snd b ++ [QString (lit "%" ++ word ++ lit "%")]).

Definition add_description (v : option qvalue) (b : builder) : builder :=
  match v with
  | Some x =>
      if truthy_q v then
        let words :=
          filter nonempty (split_runs is_word_separator false (String_ x)) in
        fold_left add_word words b
      else b
  | None => b
  end.

Definition add_q (v : option qvalue) (b : builder) : builder :=
  match v with
  | Some x =>
      if truthy_q v then
        let keyword := like_pattern x in
        (fst b ++ lit " AND (p.sku LIKE ? OR p.name LIKE ?)",
         snd b ++ [keyword; keyword])
      else b
  | None => b
  end.

(** Lines 6-67 of [getParts]: the pair handed to [dbAsync.all]. *)
Definition getParts_query (q : query) : builder :=
  add_q (q_q q)
    (add_description (q_description q)
      (add_category (q_category q)
        (add_package_code (q_package_code q)
          (add_supplier_code (q_supplier_code q)
            (add_sku (q_sku q)
              (add_name (q_name q) (base_sql, []))))))).

(** The number of [?] in a query text. *)
Definition placeholders (sql : jsstring) : nat :=
  List.length (filter (N.eqb 63) sql).

(** The groups that the handler can append; only the number of values of a
    multi-valued facet reaches the text. *)
Inductive clause :=
| NameLike | SkuLike | SupplierCodeIs
| PackageCodeIn (k : nat) | CategoryIn (k : nat)
| DescriptionLike | KeywordLike.

Definition clause_text (cl : clause) : jsstring :=
  match cl with
  | NameLike => lit " AND p.name LIKE ?"
  | SkuLike => lit " AND p.sku LIKE ?"
  | SupplierCodeIs => lit " AND s.supplier_code = ?"
  | PackageCodeIn k =>
      lit " AND (p.package_code = "
      ++ join (lit " OR p.package_code = ") (repeat (lit "?") k) ++ lit ")"
  | CategoryIn k =>
      lit " AND (p.category = "
      ++ join (lit " OR p.category = ") (repeat (lit "?") k) ++ lit ")"
  | DescriptionLike => lit " AND p.description LIKE ?"
  | KeywordLike => lit " AND (p.sku LIKE ? OR p.name LIKE ?)"
  end.

(** A builder is parameterized when its text is the base query followed by
    groups of the fixed shapes, and its values are, group after group and in
    the same order, as many as the group has placeholders. *)
Definition parameterized (b : builder) : Prop :=
  exists (cls : list clause) (bound : list (list qvalue)),
    fst b = base_sql ++ List.concat (map clause_text cls)
    /\ snd b = List.concat bound
    /\ Forall2 (fun cl vs => placeholders (clause_text cl) = List.length vs) cls bound.

(* ===================================================================== *)
(** ** Concrete stores and requests *)
(* ===================================================================== *)

(** One catalog entry of default spec 10 and one NEW lot of quantity 1. *)
Definition R100 : part :=
  mkPart (lit "R-100") (lit "Wire") (lit "Hookup wire") None None
         (Some (lit "{}")) None (Some 10%Q) (Some (lit "m")).

Definition lot1 : lot := mkLot 1 (lit "R-100") (lit "A1") 1%Q 0%Q (Some NEW) 0.

Definition store1 : conn :=
  mkConn (mkDb [R100] [] [lot1] 1 0) None [] 100.

Definition cut_req (i : Z) (u : Q) : cut_request := mkCutRequest (Some i) (Some u).

(** A store whose only lot is exhausted. *)
Definition lot_empty : lot := mkLot 1 (lit "R-100") (lit "A1") 0%Q 0%Q (Some NEW) 0.

Definition store_empty_lot : conn :=
  mkConn (mkDb [R100] [] [lot_empty] 1 0) None [] 100.

(** Orders in which the event loop resumes two handlers. *)
Definition both_read_first : list turn :=
  [first; second; first; second; first; first; first].

Definition second_after_commit : list turn :=
  [first; second; first; first; first; first; second; second; second; second].

Definition alternating : list turn :=
  [first; second; first; second; first; second].

Definition one_after_the_other : list turn :=
  [first; first; first; first; first; second].

Definition spec_total (rows : list lot) : Q :=
  fold_right (fun r acc => (spec_value r + acc)%Q) 0%Q rows.


(** A specification document, its text [{"v_ceo":"50V"}] and a request that
    carries it. *)
Definition v_ceo_text : jsstring :=
  lit "{" ++ [34%N] ++ lit "v_ceo" ++ [34%N] ++ lit ":" ++ [34%N] ++ lit "50V"
  ++ [34%N] ++ lit "}".

Definition v_ceo_doc : json := JObject [(lit "v_ceo", JString (lit "50V"))].

Definition create_BC547 : create_request :=
  mkCreateRequest (Some (lit "BC547")) (Some (lit "Transistor")) (Some (lit "NPN"))
                  None None (Some v_ceo_doc) None None None None.

Definition empty_store : conn := mkConn (mkDb [] [] [] 0 0) None [] 100.


(* ===================================================================== *)
(** ** What a handler may do to the tables *)
(* ===================================================================== *)

(** A row of the inventory after a request, against the row it was: the
    same piece, with its count kept or lowered by one. *)
Definition same_piece (old new : lot) : Prop :=
  id new = id old
  /\ part_sku new = part_sku old
  /\ location_code new = location_code old
  /\ spec_value new = spec_value old
  /\ condition new = condition old
  /\ (quantity new = quantity old \/ quantity new = (quantity old - 1)%Q).

(** The ids of the inventory are the ones that the AUTOINCREMENT sequence
    has handed out: distinct, and none above the sequence. *)
Definition inventory_ids_ok (d : db) : Prop :=
  NoDup (map id (inventory d))
  /\ Forall (fun r => id r <= inventory_seq d) (inventory d).

(** PRIMARY KEY of [parts_catalog]. *)
Definition catalog_keys_ok (d : db) : Prop :=
  NoDup (map sku (parts_catalog d)).

Definition created_response : response :=
  mkResponse 201 (MessageBody "Part created successfully").

Definition part_not_found : response :=
  mkResponse 404 (ErrorBody "Part not found").

Definition item_not_found : response :=
  mkResponse 404 (ErrorBody "Inventory item not found").

(** The tables after a cut that went through: the decrement, and the SCRAP
    row when something is left of the piece. *)
Definition after_cut (l : lot) (rem : Q) (now : Z) (d : db) : db :=
  if Qltb 0 rem
  then insert_scrap (part_sku l) (location_code l) rem now
                    (decrement_quantity (id l) now d)
  else decrement_quantity (id l) now d.

(** The connection once the plan has decided the coming statement. *)
Definition pop_fault (c : conn) : conn :=
  mkConn (data c) (txn c) (tl (faults c)) (clock c).

(** The rows that the loop of [createPart] and [updatePart] inserts, with
    the ids that follow [seq]. *)
Fixpoint supplier_rows (seq : Z) (s : jsstring) (l : list supplier_input)
  : list supplier :=
  match l with
  | [] => []
  | x :: l' =>
      mkSupplier (seq + 1) s (in_supplier_code x) (in_supplier_name x)
                 (in_product_url x)
      :: supplier_rows (seq + 1) s l'
  end.

Definition suppliers_of (s : jsstring) (d : db) : list supplier :=
  filter (fun r => jsstring_eqb (supplier_part_sku r) s) (part_suppliers d).

Definition missing_part_fields : response :=
  mkResponse 400 (ErrorBody "SKU, category, and name are required").

Definition sku_exists : response :=
  mkResponse 409 (ErrorBody "Part with this SKU already exists").

Definition required_present (req : create_request) : bool :=
  truthy_str (req_sku req) && truthy_str (req_category req)
  && truthy_str (req_name req).

Definition deleted_response : response := mkResponse 204 NoBody.

(** The tables once [deletePart] has gone through. *)
Definition after_delete (s : jsstring) (d : db) : db :=
  delete_part s (delete_suppliers s d).

(** [spec_definition || {}] *)
Definition effective_document (req : create_request) : json :=
  match req_spec_definition req with
  | Some v => if truthy_json v then v else JObject []
  | None => JObject []
  end.

(** [Array.isArray(suppliers) && suppliers.length > 0 ? suppliers : []] *)
Definition requested_suppliers (req : create_request) : list supplier_input :=
  match req_suppliers req with
  | Some l => l
  | None => []
  end.

(** A catalog row whose specification text is not JSON. *)
Definition part_bad_text : part :=
  mkPart (lit "X") (lit "IC") (lit "x") None None (Some (lit "{oops")) None None None.

Definition store_bad_text : conn :=
  mkConn (mkDb [part_bad_text] [] [] 0 0) None [] 0.

(** The tables once [createPart] has gone through. *)
Definition after_create (row : part) (l : list supplier_input) (d : db) : db :=
  mkDb (parts_catalog d ++ [row])
       (part_suppliers d ++ supplier_rows (part_suppliers_seq d) (sku row) l)
       (inventory d) (inventory_seq d)
       (part_suppliers_seq d + Z.of_nat (List.length l)).

(* ===================================================================== *)
(** ** [updatePart], [src/unnamed/part_003] lines 217-278 *)
(* ===================================================================== *)

(** The statement that only [updatePart] sends is added to the ones above;
    handlers over the larger set are trees of the same kind. *)
Inductive prog (E : Type -> Type) (A : Type) : Type :=
| Done (a : A)
| Raise (e : exn)
| Call {X : Type} (s : E X) (k : X + exn -> prog E A).

Arguments Done {E A} a.
Arguments Raise {E A} e.
Arguments Call {E A X} s k.

Fixpoint prog_bind {E A B} (t : prog E A) (f : A -> prog E B) : prog E B :=
  match t with
  | Done a => f a
  | Raise e => Raise e
  | Call s k => Call s (fun r => prog_bind (k r) f)
  end.

Fixpoint prog_catch {E A} (t : prog E A) (h : exn -> prog E A) : prog E A :=
  match t with
  | Done a => Done a
  | Raise e => h e
  | Call s k => Call s (fun r => prog_catch (k r) h)
  end.

#[global] Instance Monad_prog (E : Type -> Type) : Monad (prog E) :=
  {| ret := @Done E; bind := @prog_bind E |}.

#[global] Instance MonadExc_prog (E : Type -> Type) : MonadExc exn (prog E) :=
  {| raise := @Raise E; catch := @prog_catch E |}.

Definition call {E X} (s : E X) : prog E X :=
  Call s (fun r => match r with inl x => Done x | inr e => Raise e end).

Fixpoint prog_run {E S A} (h : forall X, E X -> S -> (X + exn) * S)
         (t : prog E A) (st : S) : (A + exn) * S :=
  match t with
  | Done a => (inl a, st)
  | Raise e => (inr e, st)
  | Call s k => let (r, st') := h _ s st in prog_run h (k r) st'
  end.

(** The values bound to the UPDATE: [None] is the NULL that leaves the
    column as it is. *)
Record part_patch := mkPatch {
  new_name : option jsstring;
  new_category : option jsstring;
  new_mpn : option jsstring;
  new_package_code : option jsstring;
  new_spec_definition : option jsstring;
  new_image_url : option jsstring;
  new_default_spec : option Q;
  new_unit : option jsstring
}.

Inductive catalog_stmt : Type -> Type :=
| Shared {X : Type} (s : stmt X) : catalog_stmt X
| UpdatePartRow (p_sku : jsstring) (patch : part_patch) : catalog_stmt unit.

(** [coalesce(?, column)] *)
Definition coalesce {A} (v : option A) (old : A) : A :=
  match v with Some x => x | None => old end.

Definition coalesce_null {A} (v old : option A) : option A :=
  match v with Some x => Some x | None => old end.

Definition patch_row (patch : part_patch) (p : part) : part :=
  mkPart (sku p)
         (coalesce (new_category patch) (category p))
         (coalesce (new_name patch) (name p))
         (coalesce_null (new_mpn patch) (mpn p))
         (coalesce_null (new_package_code patch) (package_code p))
         (coalesce_null (new_spec_definition patch) (spec_definition p))
         (coalesce_null (new_image_url patch) (image_url p))
         (coalesce_null (new_default_spec patch) (default_spec p))
         (coalesce_null (new_unit patch) (unit_ p)).

(** UPDATE parts_catalog SET name = coalesce(?, name), ... WHERE sku = ? *)
Definition update_part (s : jsstring) (patch : part_patch) (d : db) : db :=
  mkDb (map (fun p => if jsstring_eqb (sku p) s then patch_row patch p else p)
            (parts_catalog d))
       (part_suppliers d) (inventory d) (inventory_seq d) (part_suppliers_seq d).

Definition perform_catalog {X} (s : catalog_stmt X) (c : conn) : (X + exn) * conn :=
  match s in catalog_stmt T return (T + exn) * conn with
  | Shared s0 => perform s0 c
  | UpdatePartRow s0 patch => (inl tt, with_data c (update_part s0 patch (data c)))
  end.

Definition exec_catalog (X : Type) (s : catalog_stmt X) (c : conn)
  : (X + exn) * conn :=
  match faults c with
  | true :: fs => (inr StoreFailure, mkConn (data c) (txn c) fs (clock c))
  | false :: fs => perform_catalog s (mkConn (data c) (txn c) fs (clock c))
  | [] => perform_catalog s c
  end.

(** A handler of the smaller set, among the handlers of the larger one. *)
Fixpoint of_task {A} (t : task A) : prog catalog_stmt A :=
  match t with
  | Ret a => Done a
  | Throw e => Raise e
  | Await s k => Call (Shared s) (fun r => of_task (k r))
  end.

Definition serve {A} (t : prog catalog_stmt A) (c : conn) : (A + exn) * conn :=
  prog_run exec_catalog t c.

(** The body of PATCH /parts/:sku. *)
Record update_request := mkUpdateRequest {
  up_name : option jsstring;
  up_category : option jsstring;
  up_mpn : option jsstring;
  up_package_code : option jsstring;
  up_spec_definition : option json;
  up_image_url : option jsstring;
  up_default_spec : option Q;
  up_unit : option jsstring;
  up_suppliers : option (list supplier_input)
}.

(** The values of the UPDATE, of which the document is
    [spec_definition ? JSON.stringify(spec_definition) : null]. *)
Definition patch_of (req : update_request) : part_patch :=
  mkPatch (up_name req) (up_category req) (up_mpn req) (up_package_code req)
          (match up_spec_definition req with
           | Some v => if truthy_json v then Some (JSON_stringify v) else None
           | None => None
           end)
          (up_image_url req) (up_default_spec req) (up_unit req).

Definition updated_response : response :=
  mkResponse 200 (MessageBody "Part updated successfully").

Definition updatePart (s : jsstring) (req : update_request)
  : prog catalog_stmt response :=
  catch
    (existing <- call (Shared (SelectSku s)) ;;
     match existing with
     | None => ret (mkResponse 404 (ErrorBody "Part not found"))
     | Some _ =>
         call (Shared BeginTransaction) ;;
         catch
           (call (UpdatePartRow s (patch_of req)) ;;
            match up_suppliers req with
            | Some l =>
                call (Shared (DeleteSuppliers s)) ;;
                of_task (insert_suppliers s l)
            | None => ret tt
            end ;;
            call (Shared Commit) ;;
            ret updated_response)
           (fun err => call (Shared Rollback) ;; raise err)
     end)
    (fun _ => ret internal_error).

(** The tables once [updatePart] has gone through. *)
Definition after_update (s : jsstring) (req : update_request) (d : db) : db :=
  match up_suppliers req with
  | Some l =>
      let d1 := delete_suppliers s (update_part s (patch_of req) d) in
      mkDb (parts_catalog d1)
           (part_suppliers d1 ++ supplier_rows (part_suppliers_seq d1) s l)
           (inventory d1) (inventory_seq d1)
           (part_suppliers_seq d1 + Z.of_nat (List.length l))
  | None => update_part s (patch_of req) d
  end.

Definition no_change : update_request :=
  mkUpdateRequest None None None None None None None None None.

(* ===================================================================== *)
(** ** The listing of [controllers/partsController.ts], lines 4-43 *)
(* ===================================================================== *)

Module PartsControllerTsListing.

Record query := mkQuery {
  q_category : option qvalue;
  q_package_code : option qvalue;
  q_supplier_code : option qvalue
}.

(** The template literal of lines 9-15. *)
Definition supplier_sql : jsstring :=
  nl ++ lit "                SELECT p.name, p.sku, i.location_code, i.quantity, i.condition"
  ++ nl ++ lit "                FROM parts_catalog p"
  ++ nl ++ lit "                         JOIN part_suppliers s ON p.sku = s.part_sku"
  ++ nl ++ lit "                         LEFT JOIN inventory i ON p.sku = i.part_sku"
  ++ nl ++ lit "                WHERE s.supplier_code = ?"
  ++ nl ++ lit "            ".

(** The template literal of lines 20-25. *)
Definition stock_sql : jsstring :=
  nl ++ lit "            SELECT i.*, p.name, p.category, p.package_code, p.default_spec, p.unit"
  ++ nl ++ lit "            FROM inventory i"
  ++ nl ++ lit "                     JOIN parts_catalog p ON i.part_sku = p.sku"
  ++ nl ++ lit "            WHERE i.quantity > 0"
  ++ nl ++ lit "        ".

Definition add_category (v : option qvalue) (b : builder) : builder :=
  match v with
  | Some x =>
      if truthy_q v
      then (fst b ++ lit " AND p.category = ?", snd b ++ [x])
      else b
  | None => b
  end.

Definition add_package_code (v : option qvalue) (b : builder) : builder :=
  match v with
  | Some x =>
      if truthy_q v
      then (fst b ++ lit " AND p.package_code = ?", snd b ++ [x])
      else b
  | None => b
  end.

(** Lines 6-37 of [getParts]: the pair handed to [dbAsync.all]. *)
Definition getParts_query (q : query) : builder :=
  match q_supplier_code q with
  | Some x =>
      if truthy_q (q_supplier_code q) then (supplier_sql, [x])
      else add_package_code (q_package_code q)
             (add_category (q_category q) (stock_sql, []))
  | None =>
      add_package_code (q_package_code q)
        (add_category (q_category q) (stock_sql, []))
  end.

End PartsControllerTsListing.

(** A facet value that holds nothing but commas and white space, and a
    description that holds nothing but separators. *)
Definition blank_facet (v : option qvalue) : Prop :=
  match v with
  | None => True
  | Some (QString s) =>
      Forall (fun c => c = 44%N \/ is_js_space c = true) s
  | Some (QArray l) => l = []
  end.

Definition blank_description (v : option qvalue) : Prop :=
  match v with
  | None => True
  | Some (QString s) => Forall (fun c => is_word_separator c = true) s
  | Some (QArray l) =>
      Forall (fun c => is_word_separator c = true) (join (lit ",") l)
  end.

(* ===================================================================== *)
(** ** [middleware/authMiddleware.ts] and [routes/partsRoutes.ts] *)
(* ===================================================================== *)

(** The payload that [login] signs into a token; the role is the nullable
    column of the [users] table. *)
Record user_payload := mkUserPayload {
  user_id : Z;
  user_username : jsstring;
  user_role : option jsstring
}.

(** What the middleware reads and writes of a request: the [authorization]
    header and [req.user]. *)
Record auth_request := mkAuthRequest {
  authorization : option jsstring;
  user : option user_payload
}.

(** [s.split(sep)] for a separator of one code unit. *)
Fixpoint split_on (sep : code_unit) (s : jsstring) : list jsstring :=
  match s with
  | [] => [[]]
  | c :: s' =>
      if N.eqb c sep then [] :: split_on sep s'
      else
        match split_on sep s' with
        | h :: t => (c :: h) :: t
        | [] => [[c]]
        end
  end.

(** [authHeader && authHeader.split(" ")[1]] *)
Definition token_of (authHeader : option jsstring) : option jsstring :=
  match authHeader with
  | None => None
  | Some s => if nonempty s then nth_error (split_on 32%N s) 1 else Some s
  end.

(** A middleware answers, or hands the request on with [next()]. *)
Inductive passed :=
| Sent (r : response)
| Next (req : auth_request).

Definition token_required : response :=
  mkResponse 401 (ErrorBody "Access token required").

Definition invalid_token : response :=
  mkResponse 403 (ErrorBody "Invalid access token").

Definition admin_required : response :=
  mkResponse 403 (ErrorBody "Admin privileges required").

(** [req.user?.role !== "admin"] *)
Definition is_admin (u : option user_payload) : bool :=
  match u with
  | Some p =>
      match user_role p with
      | Some r => jsstring_eqb r (lit "admin")
      | None => false
      end
  | None => false
  end.

Definition requireAdmin (req : auth_request) : passed :=
  if negb (is_admin (user req)) then Sent admin_required else Next req.

(** The requests that the router of the parts serves, each with the values
    its handler reads; the listing, whose SELECT is not modelled, is left
    out. *)
Inductive route :=
| GET_sku (s : jsstring)
| POST_root (b : create_request)
| PATCH_sku (s : jsstring) (b : update_request)
| DELETE_sku (s : jsstring)
| POST_cut (b : cut_request).

Definition handler_of (r : route) (c : conn) : (response + exn) * conn :=
  match r with
  | GET_sku s => run (getPartBySku s) c
  | POST_root b => run (createPart b) c
  | PATCH_sku s b => serve (updatePart s b) c
  | DELETE_sku s => run (deletePart s) c
  | POST_cut b => run (cutInventory b) c
  end.

Fixpoint through (chain : list (auth_request -> passed)) (req : auth_request)
  : passed :=
  match chain with
  | [] => Next req
  | m :: rest =>
      match m req with
      | Sent r => Sent r
      | Next req' => through rest req'
      end
  end.

Section AuthMiddleware.

(** [jwt.verify(token, config.jwtSecret, ...)]: the payload of a token that
    the library accepts. *)
Variable verify : jsstring -> option user_payload.

Definition authenticateToken (req : auth_request) : passed :=
  let token := token_of (authorization req) in
  if negb (truthy_str token) then Sent token_required
  else
    match token with
    | Some t =>
        match verify t with
        | None => Sent invalid_token
        | Some u => Next (mkAuthRequest (authorization req) (Some u))
        end
    | None => Sent token_required
    end.

(** [router.use(authenticateToken)], then the middleware of the route. *)
Definition middleware_of (r : route) : list (auth_request -> passed) :=
  authenticateToken ::
  match r with
  | POST_root _ | PATCH_sku _ _ | DELETE_sku _ => [requireAdmin]
  | GET_sku _ | POST_cut _ => []
  end.

Definition partsRoutes (r : route) (req : auth_request) (c : conn)
  : (response + exn) * conn :=
  match through (middleware_of r) req with
  | Sent resp => (inl resp, c)
  | Next _ => handler_of r c
  end.

End AuthMiddleware.

(** The caller of a request is no administrator: whatever token its header
    carries, the library does not accept it as one of a user of role
    admin. *)
Definition no_admin_token (verify : jsstring -> option user_payload)
           (req : auth_request) : Prop :=
  forall (tok : jsstring) (u : user_payload),
    token_of (authorization req) = Some tok ->
    verify tok = Some u ->
    user_role u <> Some (lit "admin").

(** A token checker for the examples: one token, of a user of role user. *)
Definition verify_alice (t : jsstring) : option user_payload :=
  if jsstring_eqb t (lit "tok-alice")
  then Some (mkUserPayload 2 (lit "alice") (Some (lit "user")))
  else None.

(* ===================================================================== *)
(** ** [config.ts], [src/unnamed/part_000] *)
(* ===================================================================== *)

(** [process.env]: the value of a variable, if it is set. *)
Definition environment : Type := jsstring -> option jsstring.

Inductive config_error :=
| ConfigurationError (message : jsstring).

Definition throwEnvError (key : jsstring) : config_error :=
  ConfigurationError
    (lit "Configuration error: Environment variable " ++ key ++ lit " is not set.").

Definition getEnvOrThrow (env : environment) (key : jsstring)
  : jsstring + config_error :=
  match env key with
  | None => inr (throwEnvError key)
  | Some value => if nonempty value then inl value else inr (throwEnvError key)
  end.

Definition getEnv (env : environment) (key defaultValue : jsstring) : jsstring :=
  match env key with
  | None => defaultValue
  | Some value => if nonempty value then value else defaultValue
  end.

(** A variable that is set to the empty string is dropped. *)
Definition drop_empty (env : environment) : environment :=
  fun key =>
    match env key with
    | Some value => if nonempty value then Some value else None
    | None => None
    end.

Definition is_set (env : environment) (key : jsstring) : Prop :=
  exists value : jsstring, env key = Some value /\ value <> [].

Section Config.

(** The number type of the runtime with its [parseInt(_, 10)], and the
    value of [path.resolve(__dirname, "../inventory.db")]. *)
Variable number : Type.
Variable parseInt10 : jsstring -> number.
Variable resolved_db_path : jsstring.

Record config_t := mkConfig {
  port : number;
  corsOrigin : jsstring;
  isDev : bool;
  dbPath : jsstring;
  jwtSecret : jsstring;
  adminInitUser : jsstring;
  adminInitPass : jsstring
}.

(** The object literal of lines 20-31, its properties evaluated in order. *)
Definition config (env : environment) : config_t + config_error :=
  let port := parseInt10 (getEnv env (lit "PORT") (lit "3000")) in
  let corsOrigin := getEnv env (lit "CORS_ORIGIN") (lit "*") in
  let isDev :=
    jsstring_eqb (getEnv env (lit "NODE_ENV") (lit "development"))
                 (lit "development") in
  let dbPath := getEnv env (lit "DB_PATH") resolved_db_path in
  match getEnvOrThrow env (lit "JWT_SECRET") with
  | inr e => inr e
  | inl jwtSecret =>
      match getEnvOrThrow env (lit "ADMIN_USER") with
      | inr e => inr e
      | inl adminInitUser =>
          match getEnvOrThrow env (lit "ADMIN_PASS") with
          | inr e => inr e
          | inl adminInitPass =>
              inl (mkConfig port corsOrigin isDev dbPath jwtSecret
                            adminInitUser adminInitPass)
          end
      end
  end.

End Config.

(** An environment for the examples: the three secrets and an empty PORT. *)
Definition env_secrets : environment :=
  fun key =>
    if jsstring_eqb key (lit "JWT_SECRET") then Some (lit "s3cret")
    else if jsstring_eqb key (lit "ADMIN_USER") then Some (lit "root")
    else if jsstring_eqb key (lit "ADMIN_PASS") then Some (lit "pw")
    else if jsstring_eqb key (lit "PORT") then Some []
    else None.

(* ===================================================================== *)
(** ** The users: [createDefaultAdmin] of [database.ts], lines 83-114,
       and [login] of the auth controller, [src/unnamed/part_004] *)
(* ===================================================================== *)

(** A row of [users]. *)
Record user_row := mkUserRow {
  u_id : Z;
  u_username : jsstring;
  u_password_hash : jsstring;
  u_role : option jsstring;
  u_created_at : Z
}.

(** The table of the users on the connection, with the AUTOINCREMENT
    sequence, the plan of failures and the reading of CURRENT_TIMESTAMP. *)
Record accounts := mkAccounts {
  users : list user_row;
  users_seq : Z;
  account_faults : list bool;
  account_clock : Z
}.

Inductive account_stmt : Type -> Type :=
| SelectUser (username : jsstring) : account_stmt (option user_row)
| SelectUserId (username : jsstring) : account_stmt (option Z)
| InsertUser (username password_hash role : jsstring) : account_stmt unit.

Definition find_user (username : jsstring) (a : accounts) : option user_row :=
  find (fun r => jsstring_eqb (u_username r) username) (users a).

(** A statement that succeeds; [username] is UNIQUE. *)
Definition perform_account {X} (s : account_stmt X) (a : accounts)
  : (X + exn) * accounts :=
  match s in account_stmt T return (T + exn) * accounts with
  | SelectUser n => (inl (find_user n a), a)
  | SelectUserId n => (inl (option_map u_id (find_user n a)), a)
  | InsertUser n h r =>
      match find_user n a with
      | Some _ => (inr ConstraintFailed, a)
      | None =>
          (inl tt,
           mkAccounts
             (users a ++ [mkUserRow (users_seq a + 1) n h (Some r) (account_clock a)])
             (users_seq a + 1) (account_faults a) (account_clock a))
      end
  end.

Definition exec_account (X : Type) (s : account_stmt X) (a : accounts)
  : (X + exn) * accounts :=
  match account_faults a with
  | true :: fs =>
      (inr StoreFailure, mkAccounts (users a) (users_seq a) fs (account_clock a))
  | false :: fs =>
      perform_account s (mkAccounts (users a) (users_seq a) fs (account_clock a))
  | [] => perform_account s a
  end.

(** The body of POST /api/auth/login. *)
Record login_request := mkLoginRequest {
  username : option jsstring;
  password : option jsstring
}.

Inductive login_body :=
| LoginError (error : string)
| LoginSuccess (success : bool) (token : jsstring) (payload : user_payload).

Record login_response := mkLoginResponse {
  login_status : Z;
  login_body_of : login_body
}.

Definition credentials_required : login_response :=
  mkLoginResponse 400 (LoginError "Username and password are required").

Definition invalid_credentials : login_response :=
  mkLoginResponse 401 (LoginError "Invalid username or password").

Definition login_failed : login_response :=
  mkLoginResponse 500 (LoginError "Internal Server Error").

Definition payload_of (r : user_row) : user_payload :=
  mkUserPayload (u_id r) (u_username r) (u_role r).

Section Users.

(** The two libraries: [bcrypt.hash(password, rounds)] with the hash or
    nothing for an error, [bcrypt.compare(password, hash)], and
    [jwt.sign(payload, config.jwtSecret, {expiresIn: "12h"})]. *)
Variable bcrypt_hash : jsstring -> Z -> option jsstring.
Variable bcrypt_compare : jsstring -> jsstring -> bool.
Variable jwt_sign : user_payload -> jsstring.

Definition createDefaultAdmin (a : accounts) : accounts :=
  let defaultUser := lit "admin" in
  let defaultPass := lit "admin123" in
  match exec_account (SelectUserId defaultUser) a with
  | (inr _, a1) => a1
  | (inl (Some _), a1) => a1
  | (inl None, a1) =>
      let saltRounds := 10 in
      match bcrypt_hash defaultPass saltRounds with
      | None => a1
      | Some hash =>
          if nonempty hash
          then snd (exec_account (InsertUser defaultUser hash (lit "admin")) a1)
          else a1
      end
  end.

Definition login (req : login_request) : prog account_stmt login_response :=
  catch
    (if negb (truthy_str (username req)) || negb (truthy_str (password req))
     then ret credentials_required
     else
       match username req, password req with
       | Some n, Some p =>
           row <- call (SelectUser n) ;;
           match row with
           | None => ret invalid_credentials
           | Some r =>
               if negb (bcrypt_compare p (u_password_hash r))
               then ret invalid_credentials
               else
                 let payload := payload_of r in
                 ret (mkLoginResponse 200
                        (LoginSuccess true (jwt_sign payload) payload))
           end
       | _, _ => ret credentials_required
       end)
    (fun _ => ret login_failed).

Definition sign_in (req : login_request) (a : accounts)
  : (login_response + exn) * accounts :=
  prog_run exec_account (login req) a.

End Users.

(** Libraries for the examples: the hash of a password is the password
    behind a prefix, and the token of a payload is its user name behind
    one. *)
Definition toy_hash (p : jsstring) (rounds : Z) : option jsstring :=
  Some (lit "$2b$" ++ p).

Definition toy_compare (p h : jsstring) : bool :=
  jsstring_eqb (lit "$2b$" ++ p) h.

Definition toy_sign (p : user_payload) : jsstring :=
  lit "jwt." ++ user_username p.

Definition toy_verify (t : jsstring) : option user_payload :=
  if jsstring_eqb t (lit "jwt.admin")
  then Some (mkUserPayload 1 (lit "admin") (Some (lit "admin")))
  else None.

Definition no_accounts : accounts := mkAccounts [] 0 [] 100.
(* ===================================================================== *)
(** * Properties *)
(* ===================================================================== *)

(** ** Strings and numbers *)

Lemma jsstring_eqb_refl (a : jsstring) : jsstring_eqb a a = true.
Proof.
  induction a as [|x a IH]; simpl; [reflexivity|].
  now rewrite N.eqb_refl, IH.
Qed.

Lemma jsstring_eqb_eq (a b : jsstring) : jsstring_eqb a b = true <-> a = b.
Proof.
  split; [|intros ->; apply jsstring_eqb_refl].
  revert b; induction a as [|x a IH]; intros [|y b]; simpl; try discriminate; auto.
  intros H. apply andb_true_iff in H as [Hx Hab].
  apply N.eqb_eq in Hx. apply IH in Hab. congruence.
Qed.

Lemma Qltb_lt (a b : Q) : Qltb a b = true <-> (a < b)%Q.
Proof.
  unfold Qltb. rewrite negb_true_iff. split.
  - intros H. apply Qnot_le_lt. intros Hle. apply Qle_bool_iff in Hle. congruence.
  - intros H. destruct (Qle_bool b a) eqn:E; [|reflexivity].
    apply Qle_bool_iff in E. exfalso. apply (Qlt_not_le _ _ H E).
Qed.

Lemma Qltb_ge (a b : Q) : Qltb a b = false <-> (b <= a)%Q.
Proof.
  unfold Qltb. rewrite negb_false_iff. apply Qle_bool_iff.
Qed.



(** ** JSON texts *)

Example JSON_stringify_v_ceo : JSON_stringify v_ceo_doc = v_ceo_text.
Proof. vm_compute. reflexivity. Qed.

Example JSON_parse_v_ceo : JSON_parse v_ceo_text = Some v_ceo_doc.
Proof. vm_compute. reflexivity. Qed.

(** White space between tokens is skipped; a key that comes twice keeps its
    place and takes the later value. *)
Example JSON_parse_spaced :
  JSON_parse (lit " { " ++ quote (lit "a") ++ lit " : [1, -20, true, null], "
              ++ quote (lit "a") ++ lit ": {} } ")
  = Some (JObject [(lit "a", JObject [])]).
Proof. vm_compute. reflexivity. Qed.

Example JSON_parse_nested :
  JSON_parse (lit "{" ++ quote (lit "a") ++ lit ":[1,-20,true,null,"
              ++ [34%N] ++ lit "x\nA\\" ++ [34%N] ++ lit "],"
              ++ quote (lit "b") ++ lit ":{}}")
  = Some (JObject [(lit "a", JArray [JNumber 1; JNumber (-20); JBool true; JNull;
                                     JString [120%N; 10%N; 65%N; 92%N]]);
                   (lit "b", JObject [])]).
Proof. vm_compute. reflexivity. Qed.

Example JSON_parse_leading_zero : JSON_parse (lit "01") = None.
Proof. vm_compute. reflexivity. Qed.

(** ** Reading back a quoted string *)

Local Open Scope N_scope.

Lemma hex_value_digit (n : N) : n < 16 -> hex_value (hex_digit n) = Some n.
Proof.
  intros H. unfold hex_digit, hex_value.
  destruct (N.ltb_spec n 10) as [Hlt|Hge].
  - replace ((48 <=? 48 + n) && (48 + n <=? 57)) with true.
    + f_equal. lia.
    + symmetry. apply andb_true_iff. split; apply N.leb_le; lia.
  - replace ((48 <=? 87 + n) && (87 + n <=? 57)) with false.
    + replace ((97 <=? 87 + n) && (87 + n <=? 102)) with true.
      * f_equal. lia.
      * symmetry. apply andb_true_iff. split; apply N.leb_le; lia.
    + symmetry. apply andb_false_iff. right. apply N.leb_gt. lia.
Qed.

Lemma hex_digits_sum (c : N) :
  4096 * (c / 4096) + 256 * ((c / 256) mod 16) + 16 * ((c / 16) mod 16) + c mod 16 = c.
Proof.
  pose proof (N.div_mod c 16 ltac:(discriminate)) as H0.
  pose proof (N.div_mod (c / 16) 16 ltac:(discriminate)) as H1.
  pose proof (N.div_mod (c / 256) 16 ltac:(discriminate)) as H2.
  rewrite N.Div0.div_div in H1, H2.
  change (16 * 16) with 256 in H1. change (256 * 16) with 4096 in H2.
  lia.
Qed.

(** The four digits of an escape give the unit back. *)
Lemma hex4_unicode_escape (c : code_unit) :
  c < 65536 ->
  exists a b x y, unicode_escape c = [92; 117; a; b; x; y] /\ hex4 a b x y = Some c.
Proof.
  intros H. unfold unicode_escape. do 4 eexists. split; [reflexivity|].
  unfold hex4. rewrite !hex_value_digit.
  - now rewrite hex_digits_sum.
  - apply N.mod_lt. discriminate.
  - apply N.mod_lt. discriminate.
  - apply N.mod_lt. discriminate.
  - apply N.Div0.div_lt_upper_bound. exact H.
Qed.

Lemma parse_unicode_escape (c : code_unit) (more : jsstring) :
  c < 65536 ->
  parse_string_body (unicode_escape c ++ more) = prepend c (parse_string_body more).
Proof.
  intros H. destruct (hex4_unicode_escape H) as (a & b & x & y & E & Hhex).
  rewrite E. cbn [app parse_string_body].
  change (92 =? 34) with false. change (92 =? 92) with true.
  change (117 =? 117) with true. cbv iota. now rewrite Hhex.
Qed.

(** A unit that is written as itself is read as itself. *)
Lemma parse_raw_unit (c : code_unit) (more : jsstring) :
  c <> 34 -> c <> 92 -> 32 <= c ->
  parse_string_body (c :: more) = prepend c (parse_string_body more).
Proof.
  intros H34 H92 H32. cbn [parse_string_body].
  apply N.eqb_neq in H34, H92. rewrite H34, H92.
  replace (c <? 32) with false by (symmetry; apply N.ltb_ge; exact H32).
  reflexivity.
Qed.

Lemma parse_escape_unit (c : code_unit) (more : jsstring) :
  parse_string_body (escape_unit c ++ more) = prepend c (parse_string_body more).
Proof.
  unfold escape_unit.
  destruct (N.eqb_spec c 8) as [->|H8]; [reflexivity|].
  destruct (N.eqb_spec c 9) as [->|H9]; [reflexivity|].
  destruct (N.eqb_spec c 10) as [->|H10]; [reflexivity|].
  destruct (N.eqb_spec c 12) as [->|H12]; [reflexivity|].
  destruct (N.eqb_spec c 13) as [->|H13]; [reflexivity|].
  destruct (N.eqb_spec c 34) as [->|H34]; [reflexivity|].
  destruct (N.eqb_spec c 92) as [->|H92]; [reflexivity|].
  destruct (N.ltb_spec c 32) as [Hlt|Hge].
  - apply parse_unicode_escape. lia.
  - now apply parse_raw_unit.
Qed.

Lemma surrogate_is_raw (c : code_unit) :
  is_high_surrogate c = true \/ is_low_surrogate c = true ->
  c <> 34 /\ c <> 92 /\ 32 <= c /\ c < 65536.
Proof.
  unfold is_high_surrogate, is_low_surrogate.
  intros [H|H]; apply andb_true_iff in H as [H1 H2];
    apply N.leb_le in H1, H2; lia.
Qed.

Lemma parse_quote_units_bounded (n : nat) :
  forall (s rest : jsstring),
    (List.length s <= n)%nat ->
    parse_string_body (quote_units s ++ 34 :: rest) = Some (s, rest).
Proof.
  induction n as [|n IH]; intros s rest Hlen.
  - destruct s; [reflexivity|simpl in Hlen; lia].
  - destruct s as [|c s]; [reflexivity|]. simpl in Hlen.
    cbn [quote_units].
    destruct (is_high_surrogate c) eqn:Hhigh.
    + destruct (@surrogate_is_raw c (or_introl Hhigh)) as (H34 & H92 & H32 & H16).
      destruct s as [|d s].
      * rewrite parse_unicode_escape by exact H16. reflexivity.
      * destruct (is_low_surrogate d) eqn:Hlow.
        -- destruct (@surrogate_is_raw d (or_intror Hlow)) as (D34 & D92 & D32 & _).
           cbn [app]. rewrite parse_raw_unit, parse_raw_unit by assumption.
           rewrite IH by (simpl in Hlen; lia). reflexivity.
        -- rewrite <- app_assoc, parse_unicode_escape by exact H16.
           rewrite IH by lia. reflexivity.
    + destruct (is_low_surrogate c) eqn:Hlow.
      * destruct (@surrogate_is_raw c (or_intror Hlow)) as (_ & _ & _ & H16).
        rewrite <- app_assoc, parse_unicode_escape by exact H16.
        rewrite IH by lia. reflexivity.
      * rewrite <- app_assoc, parse_escape_unit.
        rewrite IH by lia. reflexivity.
Qed.

(** [JSON.parse] reads a quoted string back, whatever its units. *)
Lemma parse_quote (s rest : jsstring) :
  parse_string_body (quote_units s ++ 34 :: rest) = Some (s, rest).
Proof. now apply (@parse_quote_units_bounded (List.length s)). Qed.

Local Close Scope N_scope.

(** ** Reading back a number *)

Local Open Scope N_scope.

Lemma parse_digits_units (d : Decimal.uint) (rest : jsstring) :
  starts_with_digit rest = false ->
  parse_digits (uint_units d ++ rest) = (d, rest).
Proof.
  intros Hrest. induction d; cbn [uint_units app parse_digits];
    try (cbn [digit_of N.eqb Pos.eqb]; rewrite IHd; reflexivity).
  destruct rest as [|c rest]; [reflexivity|].
  cbn [parse_digits]. simpl in Hrest.
  destruct (digit_of c); [discriminate|reflexivity].
Qed.

Lemma ends_number_no_digit (rest : jsstring) :
  ends_number rest = true -> starts_with_digit rest = false.
Proof.
  destruct rest as [|c rest]; [reflexivity|]. simpl.
  destruct (digit_of c); [discriminate|reflexivity].
Qed.

(** The decimal digits of a positive number do not start with a zero. *)
Lemma to_uint_head (p : positive) :
  match Pos.to_uint p with
  | Decimal.Nil => False
  | Decimal.D0 _ => False
  | _ => True
  end.
Proof.
  pose proof (DecimalPos.Unsigned.to_uint_nonnil p) as Hnil.
  pose proof (DecimalPos.Unsigned.to_of (Pos.to_uint p)) as Hnorm.
  rewrite DecimalPos.Unsigned.of_to in Hnorm.
  change (N.to_uint (Npos p)) with (Pos.to_uint p) in Hnorm.
  destruct (Pos.to_uint p) as [|d| | | | | | | | |] eqn:E; try exact I.
  - congruence.
  - pose proof (DecimalPos.Unsigned.to_uint_nonzero p) as Hzero.
    rewrite E in Hzero.
    destruct (Decimal.uint_eq_dec d Decimal.Nil) as [->|Hd].
    + now apply Hzero.
    + pose proof (DecimalFacts.nb_digits_unorm d Hd) as Hlen.
      assert (Hu : Decimal.unorm (Decimal.D0 d) = Decimal.unorm d) by reflexivity.
      rewrite Hu in Hnorm. rewrite <- Hnorm in Hlen. simpl in Hlen. lia.
Qed.

Lemma parse_uint_units (p : positive) (rest : jsstring) :
  ends_number rest = true ->
  parse_uint (uint_units (Pos.to_uint p) ++ rest) = Some (Pos.to_uint p, rest).
Proof.
  intros Hrest. unfold parse_uint.
  rewrite parse_digits_units by now apply ends_number_no_digit.
  assert (Hcont : match rest with
                  | c :: _ => (c =? 46) || (c =? 101) || (c =? 69)
                  | [] => false
                  end = false).
  { destruct rest as [|c rest]; [reflexivity|]. simpl in Hrest.
    destruct (digit_of c); [discriminate|]. now apply negb_true_iff in Hrest. }
  rewrite Hcont.
  pose proof (to_uint_head p) as Hhead.
  destruct (Pos.to_uint p); try reflexivity; contradiction.
Qed.

Lemma parse_uint_zero (rest : jsstring) :
  ends_number rest = true ->
  parse_uint (48 :: rest) = Some (Decimal.D0 Decimal.Nil, rest).
Proof.
  intros Hrest. unfold parse_uint.
  change (48 :: rest) with (uint_units (Decimal.D0 Decimal.Nil) ++ rest).
  rewrite parse_digits_units by now apply ends_number_no_digit.
  destruct rest as [|c rest]; [reflexivity|]. simpl in Hrest.
  destruct (digit_of c); [discriminate|].
  apply negb_true_iff in Hrest. now rewrite Hrest.
Qed.

Lemma uint_units_start (d : Decimal.uint) (more : jsstring) :
  d <> Decimal.Nil ->
  exists c s, uint_units d ++ more = c :: s /\ (48 <=? c) && (c <=? 57) = true.
Proof.
  intros Hd. destruct d; try congruence; simpl; do 2 eexists; split; reflexivity.
Qed.

Lemma number_units_start (n : Z) (more : jsstring) :
  starts_number (number_units n ++ more) = true.
Proof.
  unfold number_units. destruct n as [|p|p]; try reflexivity.
  simpl Z.to_int.
  destruct (@uint_units_start (Pos.to_uint p) more
              (DecimalPos.Unsigned.to_uint_nonnil p)) as (c & s & E & Hc).
  rewrite E. simpl. rewrite Hc. apply orb_true_r.
Qed.

Lemma parse_number_units (n : Z) (rest : jsstring) :
  ends_number rest = true ->
  parse_number (number_units n ++ rest) = Some (n, rest).
Proof.
  intros Hrest. unfold number_units. destruct n as [|p|p].
  - simpl Z.to_int. cbn [uint_units app]. unfold parse_number.
    change (48 =? 45) with false. cbv iota.
    now rewrite parse_uint_zero.
  - simpl Z.to_int.
    destruct (@uint_units_start (Pos.to_uint p) rest
                (DecimalPos.Unsigned.to_uint_nonnil p)) as (c & s & E & Hc).
    unfold parse_number. rewrite E.
    replace (c =? 45) with false.
    2:{ symmetry. apply N.eqb_neq. apply andb_true_iff in Hc as [H1 H2].
        apply N.leb_le in H1. lia. }
    rewrite <- E, parse_uint_units by exact Hrest.
    f_equal. f_equal. apply (DecimalZ.of_to (Zpos p)).
  - simpl Z.to_int. cbn [app]. unfold parse_number.
    change (45 =? 45) with true. cbv iota.
    rewrite parse_uint_units by exact Hrest.
    f_equal. f_equal. apply (DecimalZ.of_to (Zneg p)).
Qed.

Local Close Scope N_scope.

Lemma uint_units_nonempty (d : Decimal.uint) :
  d <> Decimal.Nil -> uint_units d <> [].
Proof. destruct d; simpl; congruence. Qed.

(** No JSON text is the empty string. *)
Lemma JSON_stringify_nonempty (v : json) : nonempty (JSON_stringify v) = true.
Proof.
  destruct v as [|[]|n|s|l|l]; try reflexivity.
  simpl. unfold number_units. destruct n as [|p|p]; try reflexivity.
  simpl. pose proof (DecimalPos.Unsigned.to_uint_nonnil p) as H.
  destruct (Pos.to_uint p); [congruence|reflexivity..].
Qed.

(** ** Reading back a document *)

Lemma json_nested_ind (P : json -> Prop) :
  P JNull ->
  (forall b, P (JBool b)) ->
  (forall n, P (JNumber n)) ->
  (forall s, P (JString s)) ->
  (forall l, Forall P l -> P (JArray l)) ->
  (forall l, Forall (fun kv => P (snd kv)) l -> P (JObject l)) ->
  forall v, P v.
Proof.
  intros HNull HBool HNum HStr HArr HObj.
  fix IH 1. intros [|b|n|s|l|l].
  - exact HNull.
  - apply HBool.
  - apply HNum.
  - apply HStr.
  - apply HArr. induction l as [|x l IHl]; constructor; [apply IH|exact IHl].
  - apply HObj. induction l as [|x l IHl]; constructor; [apply IH|exact IHl].
Qed.

Local Open Scope N_scope.

Lemma JSON_stringify_start (v : json) (more : jsstring) :
  exists c s, JSON_stringify v ++ more = c :: s /\ value_start c = true.
Proof.
  destruct v as [|[]|n|s|l|l]; try (do 2 eexists; split; reflexivity).
  pose proof (number_units_start n more) as H. cbn [JSON_stringify].
  destruct (number_units n ++ more) as [|c s]; [discriminate|].
  exists c, s. split; [reflexivity|]. unfold starts_number in H. unfold value_start.
  apply orb_true_iff in H as [H|H]; rewrite H; now rewrite ?orb_true_r.
Qed.

Lemma value_start_not_ws (c : code_unit) :
  value_start c = true ->
  is_json_ws c = false /\ (c =? 93) = false /\ (c =? 125) = false.
Proof.
  unfold value_start, is_json_ws. intros H.
  repeat (apply orb_true_iff in H as [H|H]);
    try (apply N.eqb_eq in H; subst c; repeat split; reflexivity).
  apply andb_true_iff in H as [H1 H2]. apply N.leb_le in H1, H2.
  repeat split; repeat (apply orb_false_iff; split); apply N.eqb_neq; lia.
Qed.

Lemma skip_ws_value (v : json) (more : jsstring) :
  skip_ws (JSON_stringify v ++ more) = JSON_stringify v ++ more.
Proof.
  destruct (JSON_stringify_start v more) as (c & s & E & Hc). rewrite E.
  apply value_start_not_ws in Hc as (Hws & _). simpl. now rewrite Hws.
Qed.

Local Close Scope N_scope.

(** A property that is new to the object is added after the others. *)
Lemma object_put_new (k : jsstring) (v : json) (l : list (jsstring * json)) :
  ~ In k (map fst l) -> object_put k v l = l ++ [(k, v)].
Proof.
  induction l as [|[k' v'] l IH]; intros Hnew; [reflexivity|].
  simpl in *. destruct (jsstring_eqb k' k) eqn:E.
  - apply jsstring_eqb_eq in E. tauto.
  - rewrite IH by tauto. reflexivity.
Qed.

Lemma object_of_acc (l acc : list (jsstring * json)) :
  NoDup (map fst (acc ++ l)) ->
  fold_left (fun a kv => object_put (fst kv) (snd kv) a) l acc = acc ++ l.
Proof.
  revert acc. induction l as [|[k v] l IH]; intros acc Hnd; simpl.
  - now rewrite app_nil_r.
  - rewrite object_put_new.
    + rewrite IH; rewrite <- app_assoc; [reflexivity|exact Hnd].
    + rewrite map_app in Hnd. simpl in Hnd.
      apply NoDup_remove_2 in Hnd. intros Hin. apply Hnd.
      apply in_or_app. now left.
Qed.

(** Members with distinct names are kept as they come. *)
Lemma object_of_distinct (l : list (jsstring * json)) :
  NoDup (map fst l) -> object_of l = l.
Proof. intros H. unfold object_of. now rewrite object_of_acc. Qed.

Lemma parse_elements_join (l : list json) :
  Forall reads_back l ->
  fold_right (fun x acc => json_wf x /\ acc) True l ->
  l <> [] ->
  forall (fuel : nat) (rest : jsstring),
    (elements_size l <= fuel)%nat ->
    parse_elements fuel (join [44%N] (map JSON_stringify l) ++ 93%N :: rest)
    = Some (l, rest).
Proof.
  induction l as [|v l IH]; intros Hall Hwf Hne fuel rest Hfuel; [congruence|].
  inversion Hall as [|? ? Hv Hl]; subst. destruct Hwf as [Hwfv Hwfl].
  destruct fuel as [|f]; [simpl in Hfuel; lia|].
  simpl in Hfuel. fold (elements_size l) in Hfuel.
  destruct l as [|v2 l].
  - cbn [map join parse_elements].
    rewrite (Hv Hwfv f (93%N :: rest)) by (try reflexivity; lia).
    reflexivity.
  - change (join [44%N] (map JSON_stringify (v :: v2 :: l)))
      with (JSON_stringify v ++ [44%N] ++ join [44%N] (map JSON_stringify (v2 :: l))).
    rewrite <- !app_assoc. cbn [parse_elements].
    rewrite (Hv Hwfv f) by (try reflexivity; lia).
    cbn [app skip_ws is_json_ws N.eqb Pos.eqb orb].
    rewrite (IH Hl Hwfl) by (try discriminate; lia).
    reflexivity.
Qed.

Lemma parse_members_join (l : list (jsstring * json)) :
  Forall (fun kv => reads_back (snd kv)) l ->
  fold_right (fun kv acc => json_wf (snd kv) /\ acc) True l ->
  l <> [] ->
  forall (fuel : nat) (rest : jsstring),
    (members_size l <= fuel)%nat ->
    parse_members fuel (join [44%N] (map member_text l) ++ 125%N :: rest)
    = Some (l, rest).
Proof.
  induction l as [|[k v] l IH]; intros Hall Hwf Hne fuel rest Hfuel; [congruence|].
  inversion Hall as [|? ? Hv Hl]; subst. destruct Hwf as [Hwfv Hwfl].
  simpl in Hv, Hwfv.
  destruct fuel as [|f]; [simpl in Hfuel; lia|].
  simpl in Hfuel. fold (members_size l) in Hfuel.
  destruct l as [|m2 l].
  - cbn [map join parse_members]. unfold member_text, quote. cbn [fst snd].
    cbn [app skip_ws is_json_ws N.eqb Pos.eqb orb].
    rewrite <- !app_assoc. cbn [app]. rewrite parse_quote.
    cbn [skip_ws is_json_ws N.eqb Pos.eqb orb].
    rewrite (Hv Hwfv f (125%N :: rest)) by (try reflexivity; lia).
    reflexivity.
  - change (join [44%N] (map member_text ((k, v) :: m2 :: l)))
      with (member_text (k, v) ++ [44%N] ++ join [44%N] (map member_text (m2 :: l))).
    unfold member_text at 1, quote. cbn [fst snd].
    rewrite <- !app_assoc. cbn [app parse_members].
    cbn [skip_ws is_json_ws N.eqb Pos.eqb orb].
    rewrite <- !app_assoc. cbn [app]. rewrite parse_quote.
    cbn [skip_ws is_json_ws N.eqb Pos.eqb orb].
    rewrite (Hv Hwfv f) by (try reflexivity; lia).
    cbn [skip_ws is_json_ws N.eqb Pos.eqb orb].
    rewrite (IH Hl Hwfl) by (try discriminate; lia).
    reflexivity.
Qed.

Lemma join_head (sep x : jsstring) (xs : list jsstring) :
  exists more, join sep (x :: xs) = x ++ more.
Proof.
  destruct xs as [|y ys].
  - exists []. simpl. now rewrite app_nil_r.
  - eexists. reflexivity.
Qed.

Lemma value_start_branches (c : code_unit) :
  starts_number (c :: []) = true ->
  (c =? 34)%N = false /\ (c =? 91)%N = false /\ (c =? 123)%N = false
  /\ (c =? 110)%N = false /\ (c =? 116)%N = false /\ (c =? 102)%N = false
  /\ is_json_ws c = false.
Proof.
  unfold starts_number, is_json_ws. intros H.
  apply orb_true_iff in H as [H|H].
  - apply N.eqb_eq in H. subst c. repeat split; reflexivity.
  - apply andb_true_iff in H as [H1 H2]. apply N.leb_le in H1, H2.
    repeat split; repeat (apply orb_false_iff; split); apply N.eqb_neq; lia.
Qed.

(** [parse_value] reads the text of a value back and stops after it. *)
Lemma parse_value_stringify : forall v : json, reads_back v.
Proof.
  apply json_nested_ind; unfold reads_back.
  - intros _ [|f] rest Hfuel Hrest; [simpl in Hfuel; lia|reflexivity].
  - intros [] _ [|f] rest Hfuel Hrest; try (simpl in Hfuel; lia); reflexivity.
  - intros n _ [|f] rest Hfuel Hrest; [simpl in Hfuel; lia|].
    cbn [JSON_stringify].
    pose proof (number_units_start n rest) as Hstart.
    pose proof (parse_number_units n rest Hrest) as Hparse.
    destruct (number_units n ++ rest) as [|c s]; [discriminate|].
    assert (Hc : starts_number [c] = true) by exact Hstart.
    apply value_start_branches in Hc as (H1 & H2 & H3 & H4 & H5 & H6 & Hws).
    cbn [parse_value skip_ws]. rewrite Hws, H1, H2, H3, H4, H5, H6, Hparse.
    reflexivity.
  - intros s _ [|f] rest Hfuel Hrest; [simpl in Hfuel; lia|].
    cbn [JSON_stringify]. unfold quote. cbn [app]. rewrite <- app_assoc.
    cbn [app parse_value skip_ws is_json_ws N.eqb Pos.eqb orb].
    now rewrite parse_quote.
  - intros l Hall Hwf [|f] rest Hfuel Hrest; [simpl in Hfuel; lia|].
    simpl in Hwf. simpl in Hfuel. fold (elements_size l) in Hfuel.
    cbn [JSON_stringify]. cbn [app]. rewrite <- app_assoc.
    cbn [app parse_value skip_ws is_json_ws N.eqb Pos.eqb orb].
    destruct l as [|v l]; [reflexivity|].
    destruct (join_head [44%N] (JSON_stringify v) (map JSON_stringify l))
      as (more & Hjoin).
    pose proof (@parse_elements_join (v :: l) Hall Hwf ltac:(discriminate) f rest
                  ltac:(lia)) as Hparse.
    cbn [map] in Hparse |- *. rewrite Hjoin in Hparse |- *.
    rewrite <- app_assoc in Hparse |- *. rewrite skip_ws_value.
    destruct (JSON_stringify_start v (more ++ 93%N :: rest)) as (c & s & E & Hc).
    rewrite E in Hparse |- *.
    apply value_start_not_ws in Hc as (_ & H93 & _).
    rewrite H93, Hparse. reflexivity.
  - intros l Hall [Hnd Hwf] [|f] rest Hfuel Hrest; [simpl in Hfuel; lia|].
    simpl in Hfuel. fold (members_size l) in Hfuel.
    change (JSON_stringify (JObject l))
      with (123%N :: join [44%N] (map member_text l) ++ [125%N]).
    cbn [app]. rewrite <- app_assoc.
    cbn [app parse_value skip_ws is_json_ws N.eqb Pos.eqb orb].
    destruct l as [|[k v] l]; [reflexivity|].
    pose proof (@parse_members_join ((k, v) :: l) Hall Hwf ltac:(discriminate) f rest
                  ltac:(lia)) as Hparse.
    destruct (join_head [44%N] (member_text (k, v)) (map member_text l))
      as (more & Hjoin).
    cbn [map] in Hparse |- *. rewrite Hjoin in Hparse |- *.
    unfold member_text at 1 in Hparse. unfold member_text at 1.
    unfold quote in Hparse |- *. cbn [fst snd] in Hparse |- *.
    rewrite <- !app_assoc in Hparse |- *. cbn [app] in Hparse |- *.
    cbn [skip_ws is_json_ws N.eqb Pos.eqb orb].
    rewrite Hparse, object_of_distinct by exact Hnd. reflexivity.
Qed.

Lemma join_length_ge (items : list jsstring) (sizes : list nat) :
  Forall2 (fun x n => (n <= List.length x)%nat) items sizes ->
  (fold_right (fun n acc => S (n + acc)) O sizes
   <= S (List.length (join [44%N] items)))%nat.
Proof.
  induction 1 as [|x n items sizes Hx Hall IH]; [simpl; lia|].
  destruct items as [|y items].
  - inversion Hall; subst. simpl. lia.
  - change (join [44%N] (x :: y :: items)) with (x ++ [44%N] ++ join [44%N] (y :: items)).
    rewrite !length_app. simpl fold_right. simpl List.length. simpl in IH. lia.
Qed.

(** The length of the text is fuel enough. *)
Lemma json_size_le_length (v : json) :
  (json_size v <= List.length (JSON_stringify v))%nat.
Proof.
  induction v as [|b|n|s|l IH|l IH] using json_nested_ind.
  - simpl. lia.
  - destruct b; simpl; lia.
  - pose proof (JSON_stringify_nonempty (JNumber n)) as H.
    destruct (JSON_stringify (JNumber n)); [discriminate|simpl; lia].
  - simpl. lia.
  - cbn [JSON_stringify json_size]. simpl List.length. rewrite length_app.
    assert (H : Forall2 (fun x n => (n <= List.length x)%nat)
                        (map JSON_stringify l) (map json_size l)).
    { induction IH; simpl; constructor; auto. }
    apply join_length_ge in H.
    replace (fold_right (fun x acc => S (json_size x + acc)) O l)
      with (fold_right (fun n acc => S (n + acc)) O (map json_size l))
      by (clear; induction l; simpl; congruence).
    simpl. lia.
  - change (JSON_stringify (JObject l))
      with (123%N :: join [44%N] (map member_text l) ++ [125%N]).
    cbn [json_size]. simpl List.length. rewrite length_app.
    assert (H : Forall2 (fun x n => (n <= List.length x)%nat)
                        (map member_text l) (map (fun kv => json_size (snd kv)) l)).
    { induction IH as [|kv l Hkv Hl IHl]; simpl; constructor; auto.
      unfold member_text. rewrite length_app. simpl. lia. }
    apply join_length_ge in H.
    replace (fold_right (fun kv acc => S (json_size (snd kv) + acc)) O l)
      with (fold_right (fun n acc => S (n + acc)) O
                       (map (fun kv => json_size (snd kv)) l))
      by (clear; induction l; simpl; congruence).
    simpl. lia.
Qed.

(** [JSON.parse(JSON.stringify(v))] is [v], for every value with distinct
    property names. *)
Lemma JSON_parse_stringify (v : json) :
  json_wf v -> JSON_parse (JSON_stringify v) = Some v.
Proof.
  intros Hwf. unfold JSON_parse.
  pose proof (@parse_value_stringify v Hwf (S (List.length (JSON_stringify v))) []) as H.
  rewrite app_nil_r in H. rewrite H; [reflexivity| |reflexivity].
  pose proof (json_size_le_length v). lia.
Qed.

(** ** Consumption of one lot *)

Lemma truthy_num_pos (u : Q) : ~ (u == 0)%Q -> truthy_num (Some u) = true.
Proof.
  intros H. unfold truthy_num. destruct (Qeq_bool u 0) eqn:E; [|reflexivity].
  apply Qeq_bool_iff in E. contradiction.
Qed.

Lemma truthy_num_zero (u : Q) : (u == 0)%Q -> truthy_num (Some u) = false.
Proof.
  intros H. unfold truthy_num. apply Qeq_bool_iff in H. now rewrite H.
Qed.

Lemma truthy_id_nonzero (i : Z) : i <> 0 -> truthy_id (Some i) = true.
Proof.
  intros H. unfold truthy_id. apply Z.eqb_neq in H. now rewrite H.
Qed.

Lemma select_inventory_item_found (i : Z) (d : db) (l : lot) (p : part) :
  find_lot i d = Some l -> find_part (part_sku l) d = Some p ->
  select_inventory_item i d = Some (mkItem l (default_spec p)).
Proof.
  intros Hl Hp. unfold select_inventory_item. now rewrite Hl, Hp.
Qed.

(** The UPDATE reaches the row that the SELECT returned. *)
Lemma find_decremented (i now : Z) (rows : list lot) (l : lot) :
  find (fun r => id r =? i) rows = Some l ->
  find (fun r => id r =? i) (map (decrement_row i now) rows)
  = Some (decrement_row i now l).
Proof.
  induction rows as [|r rows IH]; simpl; [discriminate|].
  unfold decrement_row at 1. destruct (id r =? i) eqn:E; simpl.
  - rewrite E. intros [= ->]. unfold decrement_row. now rewrite E.
  - rewrite E. exact IH.
Qed.

Lemma find_app_found {A} (f : A -> bool) (xs ys : list A) (x : A) :
  find f xs = Some x -> find f (xs ++ ys) = Some x.
Proof.
  induction xs as [|a xs IH]; simpl; [discriminate|].
  destruct (f a); [trivial|exact IH].
Qed.

(** Rows with another id are left as they were. *)
Lemma decrement_row_other (i now : Z) (r : lot) :
  id r <> i -> decrement_row i now r = r.
Proof.
  intros H. unfold decrement_row. apply Z.eqb_neq in H. now rewrite H.
Qed.

Ltac cut_checks Hi Hu Hl Hp :=
  cbn -[Qltb remainingSpec select_inventory_item truthy_id truthy_num];
  rewrite (truthy_id_nonzero Hi), (truthy_num_pos Hu);
  cbn -[Qltb remainingSpec select_inventory_item truthy_id truthy_num];
  rewrite (select_inventory_item_found _ _ Hl Hp);
  cbn -[Qltb remainingSpec].





(** The revision of [partsController.ts] sends the same UPDATE and INSERT
    with no transaction: there the failed INSERT leaves the decrement. *)
Lemma cut_without_transaction_keeps_decrement :
  run (PartsControllerTs.cutInventory (mkCutRequest (Some 1) (Some 3%Q)))
      (mkConn (data store1) None [false; false; true] 100)
  = (inl internal_error,
     mkConn (decrement_quantity 1 100 (data store1)) None [] 100).
Proof. reflexivity. Qed.

(** All or nothing, for every plan of failures: unless the ROLLBACK itself
    fails (a transaction is then left open), [cutInventory] of [part_003]
    ends either on the tables it found or with the success response and both
    writes applied. *)
Lemma cut_all_or_nothing (c : conn) (l : lot) (p : part) (u : Q) :
  txn c = None ->
  id l <> 0 ->
  find_lot (id l) (data c) = Some l ->
  find_part (part_sku l) (data c) = Some p ->
  (1 <= quantity l)%Q ->
  ~ (u == 0)%Q ->
  (0 < remainingSpec (mkItem l (default_spec p)) u)%Q ->
  let out := run (cutInventory (mkCutRequest (Some (id l)) (Some u))) c in
  txn (snd out) = None ->
  data (snd out) = data c
  \/ (fst out = inl (cut_success (id l) (remainingSpec (mkItem l (default_spec p)) u))
      /\ data (snd out)
         = insert_scrap (part_sku l) (location_code l)
             (remainingSpec (mkItem l (default_spec p)) u) (clock c)
             (decrement_quantity (id l) (clock c) (data c))).
Proof.
  intros Ht Hi Hl Hp Hq Hu Hrem.
  destruct c as [d t f now]. simpl in Ht, Hl, Hp. subst t.
  assert (Hq1 : Qltb (quantity l) 1 = false) by (now apply Qltb_ge).
  assert (Hr0 : Qltb (remainingSpec (mkItem l (default_spec p)) u) 0 = false)
    by (apply Qltb_ge; lra).
  apply Qltb_lt in Hrem.
  pose proof (select_inventory_item_found _ _ Hl Hp) as Hsel.
  unfold cutInventory.
  cbn -[Qltb remainingSpec select_inventory_item truthy_id truthy_num].
  rewrite (truthy_id_nonzero Hi), (truthy_num_pos Hu).
  repeat (unfold exec; cbn -[Qltb remainingSpec select_inventory_item];
          rewrite ?Hsel, ?Hq1, ?Hr0, ?Hrem;
          try match goal with
              | |- context [match ?g with [] => _ | _ :: _ => _ end] =>
                  is_var g; destruct g as [|[] g]
              end);
    first [ intros _; left; reflexivity
          | intros _; right; split; reflexivity
          | intros H; discriminate H ].
Qed.

(** C6. A cut of more than the current spec of an existing lot (the default
    spec of the catalog entry for a NEW lot, the stored spec value
    otherwise), once the SELECT is carried out: the answer is one of the
    three 400 responses of the handler, the tables and the transaction state
    are untouched, and for a lot that still holds a piece the response is the
    one of the over-consumption check.  Both revisions of [cutInventory]. *)
Theorem cut_over_spec_rejected :
  forall (cut : cut_request -> task response) (c : conn) (l : lot) (p : part) (u : Q),
    In cut [cutInventory; PartsControllerTs.cutInventory] ->
    hd false (faults c) = false ->
    find_lot (id l) (data c) = Some l ->
    find_part (part_sku l) (data c) = Some p ->
    (ToNumber (currentSpec (mkItem l (default_spec p))) < u)%Q ->
    exists (r : response) (c' : conn),
      run (cut (mkCutRequest (Some (id l)) (Some u))) c = (inl r, c')
      /\ ValidationError r
      /\ In r [missing_fields; insufficient_quantity; exceeds_spec]
      /\ data c' = data c
      /\ txn c' = txn c
      /\ (id l <> 0 -> ~ (u == 0)%Q -> (1 <= quantity l)%Q -> r = exceeds_spec).
Proof.
  intros cut [d t f now] l p u Hcut Hf Hl Hp Hover.
  simpl in Hf, Hl, Hp.
  pose proof (select_inventory_item_found _ _ Hl Hp) as Hsel.
  assert (Hr0 : Qltb (remainingSpec (mkItem l (default_spec p)) u) 0 = true).
  { apply Qltb_lt. unfold remainingSpec. lra. }
  destruct (Z.eq_dec (id l) 0) as [Hi|Hi].
  { destruct Hcut as [<- | [<- | []]];
      cbn -[Qltb remainingSpec select_inventory_item truthy_num];
      rewrite Hi; cbn -[Qltb remainingSpec select_inventory_item truthy_num];
      do 2 eexists; (split; [reflexivity|]); repeat split; simpl; auto;
      intros; lia. }
  destruct (Qeq_dec u 0) as [Hu|Hu].
  { destruct Hcut as [<- | [<- | []]];
      cbn -[Qltb remainingSpec select_inventory_item truthy_id truthy_num];
      rewrite (truthy_num_zero Hu), orb_true_r;
      do 2 eexists; (split; [reflexivity|]); repeat split; simpl; auto;
      intros; contradiction. }
  destruct (Qltb (quantity l) 1) eqn:Hq1.
  - apply Qltb_lt in Hq1 as Hq.
    destruct f as [|[] f]; try discriminate Hf;
      destruct Hcut as [<- | [<- | []]];
      cbn -[Qltb remainingSpec select_inventory_item truthy_id truthy_num];
      rewrite (truthy_id_nonzero Hi), (truthy_num_pos Hu);
      unfold exec; cbn -[Qltb remainingSpec select_inventory_item];
      rewrite Hsel; cbn -[Qltb remainingSpec]; rewrite Hq1;
      do 2 eexists; (split; [reflexivity|]); repeat split; simpl; auto;
      intros; lra.
  - destruct f as [|[] f]; try discriminate Hf;
      destruct Hcut as [<- | [<- | []]];
      cbn -[Qltb remainingSpec select_inventory_item truthy_id truthy_num];
      rewrite (truthy_id_nonzero Hi), (truthy_num_pos Hu);
      unfold exec; cbn -[Qltb remainingSpec select_inventory_item];
      rewrite Hsel; cbn -[Qltb remainingSpec]; rewrite Hq1, Hr0;
      do 2 eexists; (split; [reflexivity|]); repeat split; simpl; auto.
Qed.

Lemma cut_over_spec_rejected_witness :
  exists (r : response) (c' : conn),
    run (cutInventory (mkCutRequest (Some 1) (Some 11%Q))) store1 = (inl r, c')
    /\ ValidationError r
    /\ data c' = data store1.
Proof.
  destruct (@cut_over_spec_rejected cutInventory store1 lot1 R100 11%Q)
    as (r & c' & Hrun & Hv & _ & Hd & _).
  - simpl. auto.
  - reflexivity.
  - reflexivity.
  - reflexivity.
  - reflexivity.
  - exists r, c'. auto.
Defined.

(** ** An exhausted lot *)

(** C7, as stated, fails: on a lot of quantity 0 a use amount of 0 is
    answered by the required-fields check, not by the quantity check. *)
Lemma cut_empty_lot_zero_amount :
  run (cutInventory (mkCutRequest (Some 1) (Some 0%Q))) store_empty_lot
  = (inl missing_fields, store_empty_lot)
  /\ run (PartsControllerTs.cutInventory (mkCutRequest (Some 1) (Some 0%Q)))
         store_empty_lot
     = (inl missing_fields, store_empty_lot)
  /\ ~ InsufficientQuantity missing_fields.
Proof.
  repeat split. intros H. discriminate H.
Qed.

(** C7, amended. A lot whose quantity is 0, cut by any use amount other than
    0, once the SELECT is carried out: the answer is the InsufficientQuantity
    response and the tables are untouched.  Both revisions. *)
Theorem cut_empty_lot_insufficient :
  forall (cut : cut_request -> task response) (c : conn) (l : lot) (p : part) (u : Q),
    In cut [cutInventory; PartsControllerTs.cutInventory] ->
    hd false (faults c) = false ->
    id l <> 0 ->
    find_lot (id l) (data c) = Some l ->
    find_part (part_sku l) (data c) = Some p ->
    (quantity l == 0)%Q ->
    ~ (u == 0)%Q ->
    exists (r : response) (c' : conn),
      run (cut (mkCutRequest (Some (id l)) (Some u))) c = (inl r, c')
      /\ InsufficientQuantity r
      /\ data c' = data c.
Proof.
  intros cut [d t f now] l p u Hcut Hf Hi Hl Hp Hq Hu.
  simpl in Hf, Hl, Hp.
  pose proof (select_inventory_item_found _ _ Hl Hp) as Hsel.
  assert (Hq1 : Qltb (quantity l) 1 = true) by (apply Qltb_lt; lra).
  destruct f as [|[] f]; try discriminate Hf;
    destruct Hcut as [<- | [<- | []]];
    cbn -[Qltb remainingSpec select_inventory_item truthy_id truthy_num];
    rewrite (truthy_id_nonzero Hi), (truthy_num_pos Hu);
    unfold exec; cbn -[Qltb remainingSpec select_inventory_item];
    rewrite Hsel; cbn -[Qltb remainingSpec]; rewrite Hq1;
    do 2 eexists; (split; [reflexivity|]); split; reflexivity.
Qed.

Lemma cut_empty_lot_insufficient_witness :
  exists (r : response) (c' : conn),
    run (cutInventory (mkCutRequest (Some 1) (Some 3%Q))) store_empty_lot = (inl r, c')
    /\ InsufficientQuantity r
    /\ data c' = data store_empty_lot.
Proof.
  apply (@cut_empty_lot_insufficient cutInventory store_empty_lot lot_empty R100 3%Q).
  - simpl. auto.
  - reflexivity.
  - simpl. lia.
  - reflexivity.
  - reflexivity.
  - reflexivity.
  - intros H. discriminate H.
Defined.



(** ** Deleting a catalog entry *)

Lemma find_filter_out (s : jsstring) (rows : list part) :
  find (fun p => jsstring_eqb (sku p) s)
       (filter (fun p => negb (jsstring_eqb (sku p) s)) rows) = None.
Proof.
  induction rows as [|r rows IH]; simpl; [reflexivity|].
  destruct (jsstring_eqb (sku r) s) eqn:E; simpl; [exact IH|].
  now rewrite E.
Qed.

(** C8 fails on the code.  [deletePart] on a SKU that still has a lot with a
    positive quantity, on a store that carries out every statement: the
    answer is 204, the catalog entry is gone, and the inventory, the live lot
    included, is exactly what it was: the delete is neither rejected nor
    cascaded. *)
Theorem deletePart_ignores_live_lots :
  forall (c : conn) (s : jsstring) (p : part) (l : lot),
    faults c = [] -> txn c = None ->
    find_part s (data c) = Some p ->
    In l (inventory (data c)) -> part_sku l = s -> (0 < quantity l)%Q ->
    exists c' : conn,
      run (deletePart s) c = (inl (mkResponse 204 NoBody), c')
      /\ find_part s (data c') = None
      /\ inventory (data c') = inventory (data c)
      /\ In l (inventory (data c')).
Proof.
  intros [d t f now] s p l Hf Ht Hp Hin Hs Hq.
  simpl in Hf, Ht, Hp, Hin. subst f t.
  unfold deletePart. cbn -[find_part]. rewrite Hp. cbn -[find_part].
  eexists. split; [reflexivity|]. simpl.
  split; [apply find_filter_out|]. split; [reflexivity|exact Hin].
Qed.

Lemma deletePart_ignores_live_lots_witness :
  exists c' : conn,
    run (deletePart (lit "R-100")) store1 = (inl (mkResponse 204 NoBody), c')
    /\ find_part (lit "R-100") (data c') = None
    /\ inventory (data c') = [lot1]
    /\ In lot1 (inventory (data c')).
Proof.
  apply (@deletePart_ignores_live_lots store1 (lit "R-100") R100 lot1).
  - reflexivity.
  - reflexivity.
  - reflexivity.
  - simpl. auto.
  - reflexivity.
  - reflexivity.
Defined.

(** The lot that is left behind no longer joins with a catalog entry: a cut
    on it is answered with 404. *)
Lemma cut_after_deletePart_not_found :
  fst (run (cutInventory (mkCutRequest (Some 1) (Some 3%Q)))
           (snd (run (deletePart (lit "R-100")) store1)))
  = inl (mkResponse 404 (ErrorBody "Inventory item not found")).
Proof. reflexivity. Qed.

(** ** Two cuts on one lot *)

Lemma interleave_answers {A} (sched : list turn) :
  forall (t1 t2 : task A) (c : conn) (r1 r2 : A) (c' : conn),
    interleave sched t1 t2 c = (Ret r1, Ret r2, c') ->
    answers t1 r1 /\ answers t2 r2.
Proof.
  induction sched as [|[] sched IH]; intros t1 t2 c r1 r2 c' H; simpl in H.
  - inversion H; subst. simpl. auto.
  - destruct t1 as [a|e|X s k]; try (apply IH in H; exact H).
    destruct (exec s c) as [r c1]. apply IH in H as [H1 H2].
    split; [simpl; eauto|exact H2].
  - destruct t2 as [a|e|X s k]; try (apply IH in H; exact H).
    destruct (exec s c) as [r c1]. apply IH in H as [H1 H2].
    split; [exact H1|simpl; eauto].
Qed.

(** Two requests served one after the other on a lot of quantity 1: the
    second one meets the decremented row. *)
Lemma serial_cuts_one_success :
  let '(t1, t2, c') :=
    interleave one_after_the_other (cutInventory (cut_req 1 3))
               (cutInventory (cut_req 1 3)) store1 in
  t1 = Ret (cut_success 1 7%Q)
  /\ t2 = Ret (mkResponse 400 (ErrorBody "Insufficient quantity")).
Proof. vm_compute. split; reflexivity. Qed.

(** C3 fails on the code.  Two cuts of 3 on the one lot of [store1]
    (quantity 1, default spec 10), both SELECTs carried out before the first
    UPDATE.  With the transaction of [part_003] the second BEGIN meets the
    open transaction: one success and one 500, no InsufficientQuantity; when
    the second BEGIN comes after the first COMMIT both cuts succeed.  Without
    the transaction ([partsController.ts]) both cuts succeed.  Two successes
    leave the lot at quantity -1 and two SCRAP rows of spec 7 each, 14 in
    all for the one remainder of 7. *)
Theorem concurrent_cuts_stale_read :
  (let '(t1, t2, c') :=
     interleave both_read_first (cutInventory (cut_req 1 3))
                (cutInventory (cut_req 1 3)) store1 in
   t1 = Ret (cut_success 1 7%Q)
   /\ t2 = Ret internal_error
   /\ ~ InsufficientQuantity internal_error)
  /\
  (let '(t1, t2, c') :=
     interleave second_after_commit (cutInventory (cut_req 1 3))
                (cutInventory (cut_req 1 3)) store1 in
   t1 = Ret (cut_success 1 7%Q)
   /\ t2 = Ret (cut_success 1 7%Q)
   /\ map quantity (inventory (data c')) = [(-1)%Q; 1%Q; 1%Q]
   /\ map condition (inventory (data c')) = [Some NEW; Some SCRAP; Some SCRAP]
   /\ spec_total (skipn 1 (inventory (data c'))) = 14%Q)
  /\
  (let '(t1, t2, c') :=
     interleave alternating (PartsControllerTs.cutInventory (cut_req 1 3))
                (PartsControllerTs.cutInventory (cut_req 1 3)) store1 in
   t1 = Ret (cut_success 1 7%Q)
   /\ t2 = Ret (cut_success 1 7%Q)
   /\ map quantity (inventory (data c')) = [(-1)%Q; 1%Q; 1%Q]
   /\ map condition (inventory (data c')) = [Some NEW; Some SCRAP; Some SCRAP]
   /\ spec_total (skipn 1 (inventory (data c'))) = 14%Q).
Proof.
  split; [|split].
  - vm_compute. repeat split. intros H. discriminate H.
  - vm_compute. repeat split.
  - vm_compute. repeat split.
Qed.

(** Whatever the order of the later steps: once both requests have read the
    lot while it still holds a piece, neither can be answered with
    InsufficientQuantity.  Both revisions. *)
Lemma stale_reads_never_insufficient :
  forall (cut : cut_request -> task response) (sched : list turn)
         (c : conn) (l : lot) (p : part) (u : Q) (r1 r2 : response) (c' : conn),
    In cut [cutInventory; PartsControllerTs.cutInventory] ->
    faults c = [] ->
    id l <> 0 ->
    find_lot (id l) (data c) = Some l ->
    find_part (part_sku l) (data c) = Some p ->
    (1 <= quantity l)%Q ->
    ~ (u == 0)%Q ->
    interleave (first :: second :: sched)
               (cut (mkCutRequest (Some (id l)) (Some u)))
               (cut (mkCutRequest (Some (id l)) (Some u))) c
    = (Ret r1, Ret r2, c') ->
    ~ InsufficientQuantity r1 /\ ~ InsufficientQuantity r2.
Proof.
  intros cut sched [d t f now] l p u r1 r2 c' Hcut Hf Hi Hl Hp Hq Hu.
  simpl in Hf, Hl, Hp. subst f.
  pose proof (select_inventory_item_found _ _ Hl Hp) as Hsel.
  assert (Hq1 : Qltb (quantity l) 1 = false) by (now apply Qltb_ge).
  unfold InsufficientQuantity.
  destruct Hcut as [<- | [<- | []]];
    cbn -[Qltb remainingSpec select_inventory_item truthy_id truthy_num interleave];
    rewrite (truthy_id_nonzero Hi), (truthy_num_pos Hu);
    cbn -[Qltb remainingSpec select_inventory_item];
    rewrite Hsel; cbn -[Qltb remainingSpec interleave]; rewrite Hq1;
    intros H; apply interleave_answers in H as [H1 H2];
    destruct (Qltb (remainingSpec (mkItem l (default_spec p)) u) 0);
    destruct (Qltb 0 (remainingSpec (mkItem l (default_spec p)) u));
    cbn -[remainingSpec] in H1, H2;
    split; intros ->;
    repeat match goal with
           | H : exists _, _ |- _ => destruct H as [[[]|?] H]; cbn -[remainingSpec] in H
           | H : _ = _ |- _ => discriminate H
           | H : False |- _ => destruct H
           end.
Qed.

(** ** The search query *)

Lemma placeholders_app (a b : jsstring) :
  placeholders (a ++ b) = (placeholders a + placeholders b)%nat.
Proof. unfold placeholders. now rewrite filter_app, length_app. Qed.

Lemma map_const_repeat {A B} (x : B) (l : list A) :
  map (fun _ => x) l = repeat x (List.length l).
Proof. induction l as [|a l IH]; simpl; [reflexivity|now rewrite IH]. Qed.

Lemma placeholders_group (sep : jsstring) (k : nat) :
  placeholders sep = 0%nat ->
  placeholders (join sep (repeat (lit "?") (S k))) = S k.
Proof.
  intros Hsep. induction k as [|k IH]; [reflexivity|].
  change (repeat (lit "?") (S (S k))) with (lit "?" :: repeat (lit "?") (S k)).
  change (join sep (lit "?" :: repeat (lit "?") (S k)))
    with (lit "?" ++ sep ++ join sep (repeat (lit "?") (S k))).
  rewrite !placeholders_app, Hsep, IH. reflexivity.
Qed.

Lemma placeholders_package_group (k : nat) :
  placeholders (clause_text (PackageCodeIn (S k))) = S k.
Proof.
  unfold clause_text. rewrite !placeholders_app, placeholders_group; [|reflexivity].
  change (placeholders (lit " AND (p.package_code = ")) with 0%nat.
  change (placeholders (lit ")")) with 0%nat. lia.
Qed.

Lemma placeholders_category_group (k : nat) :
  placeholders (clause_text (CategoryIn (S k))) = S k.
Proof.
  unfold clause_text. rewrite !placeholders_app, placeholders_group; [|reflexivity].
  change (placeholders (lit " AND (p.category = ")) with 0%nat.
  change (placeholders (lit ")")) with 0%nat. lia.
Qed.

Lemma parameterized_base : parameterized (base_sql, []).
Proof.
  exists [], []. split; [|split].
  - symmetry. apply app_nil_r.
  - reflexivity.
  - constructor.
Qed.

(** Appending one group and its values keeps the correspondence. *)
Lemma parameterized_snoc (b : builder) (cl : clause) (vs : list qvalue) :
  parameterized b ->
  placeholders (clause_text cl) = List.length vs ->
  parameterized (fst b ++ clause_text cl, snd b ++ vs).
Proof.
  intros (cls & bound & Hsql & Hpar & Hall) Hcl.
  exists (cls ++ [cl]), (bound ++ [vs]). split; [|split].
  - cbn [fst]. rewrite Hsql, map_app, concat_app. cbn [map List.concat].
    now rewrite app_nil_r, app_assoc.
  - cbn [snd]. rewrite Hpar, concat_app. cbn [List.concat]. now rewrite app_nil_r.
  - apply Forall2_app; [exact Hall|]. constructor; [exact Hcl|constructor].
Qed.

Lemma parameterized_count (b : builder) :
  parameterized b -> placeholders (fst b) = List.length (snd b).
Proof.
  intros (cls & bound & Hsql & Hpar & Hall). rewrite Hsql, Hpar.
  rewrite placeholders_app. change (placeholders base_sql) with 0%nat.
  cbn [Nat.add]. clear Hsql Hpar.
  induction Hall as [|cl vs cls bound Hcl Hall IH]; [reflexivity|].
  cbn [map List.concat]. rewrite placeholders_app, length_app, Hcl, IH. reflexivity.
Qed.

Lemma add_name_parameterized v b : parameterized b -> parameterized (add_name v b).
Proof.
  intros H. unfold add_name. destruct v as [x|]; [|exact H].
  destruct (truthy_q (Some x)); [|exact H].
  apply parameterized_snoc with (cl := NameLike); [exact H|reflexivity].
Qed.

Lemma add_sku_parameterized v b : parameterized b -> parameterized (add_sku v b).
Proof.
  intros H. unfold add_sku. destruct v as [x|]; [|exact H].
  destruct (truthy_q (Some x)); [|exact H].
  apply parameterized_snoc with (cl := SkuLike); [exact H|reflexivity].
Qed.

Lemma add_supplier_code_parameterized v b :
  parameterized b -> parameterized (add_supplier_code v b).
Proof.
  intros H. unfold add_supplier_code. destruct v as [x|]; [|exact H].
  destruct (truthy_q (Some x)); [|exact H].
  apply parameterized_snoc with (cl := SupplierCodeIs); [exact H|reflexivity].
Qed.

Lemma add_package_code_parameterized v b :
  parameterized b -> parameterized (add_package_code v b).
Proof.
  intros H. unfold add_package_code. destruct v as [x|]; [|exact H].
  destruct (truthy_q (Some x)); [|exact H].
  destruct (toArray x) as [|s l] eqn:E; [exact H|].
  cbv zeta. replace (0 <? Z.of_nat (List.length (s :: l))) with true
    by (symmetry; apply Z.ltb_lt; simpl List.length; lia).
  rewrite map_const_repeat.
  apply parameterized_snoc with (cl := PackageCodeIn (List.length (s :: l)));
    [exact H|].
  simpl List.length. rewrite placeholders_package_group. now rewrite length_map.
Qed.

Lemma add_category_parameterized v b :
  parameterized b -> parameterized (add_category v b).
Proof.
  intros H. unfold add_category. destruct v as [x|]; [|exact H].
  destruct (truthy_q (Some x)); [|exact H].
  destruct (toArray x) as [|s l] eqn:E; [exact H|].
  cbv zeta. replace (0 <? Z.of_nat (List.length (s :: l))) with true
    by (symmetry; apply Z.ltb_lt; simpl List.length; lia).
  rewrite map_const_repeat.
  apply parameterized_snoc with (cl := CategoryIn (List.length (s :: l)));
    [exact H|].
  simpl List.length. rewrite placeholders_category_group. now rewrite length_map.
Qed.

Lemma add_words_parameterized (words : list jsstring) :
  forall b, parameterized b -> parameterized (fold_left add_word words b).
Proof.
  induction words as [|w words IH]; intros b H; simpl; [exact H|].
  apply IH. unfold add_word.
  apply parameterized_snoc with (cl := DescriptionLike); [exact H|reflexivity].
Qed.

Lemma add_description_parameterized v b :
  parameterized b -> parameterized (add_description v b).
Proof.
  intros H. unfold add_description. destruct v as [x|]; [|exact H].
  destruct (truthy_q (Some x)); [|exact H].
  now apply add_words_parameterized.
Qed.

Lemma add_q_parameterized v b : parameterized b -> parameterized (add_q v b).
Proof.
  intros H. unfold add_q. destruct v as [x|]; [|exact H].
  destruct (truthy_q (Some x)); [|exact H].
  apply parameterized_snoc with (cl := KeywordLike); [exact H|reflexivity].
Qed.


(** C5. The single filter category = "IC,Resistor" binds exactly "IC" and
    "Resistor", in that order, to one group that ORs two equalities on the
    category; the single filter description = "low noise" appends two LIKE
    clauses, each joined by AND, bound to "%low%" and "%noise%". *)
Theorem getParts_query_examples :
  getParts_query
    (mkQuery None None None None (Some (QString (lit "IC,Resistor"))) None None)
  = (base_sql ++ lit " AND (p.category = ? OR p.category = ?)",
     [QString (lit "IC"); QString (lit "Resistor")])
  /\
  getParts_query
    (mkQuery None None None None None (Some (QString (lit "low noise"))) None)
  = (base_sql ++ lit " AND p.description LIKE ? AND p.description LIKE ?",
     [QString (lit "%low%"); QString (lit "%noise%")]).
Proof. split; vm_compute; reflexivity. Qed.

(** The separators of the description are runs of white space, the
    full-width space included; the two further characters of the class
    separate as well. *)
Example description_full_width_space :
  snd (getParts_query
         (mkQuery None None None None None
                  (Some (QString (lit "low" ++ [12288%N; 32%N] ++ lit "noise"))) None))
  = [QString (lit "%low%"); QString (lit "%noise%")].
Proof. vm_compute. reflexivity. Qed.

Example description_further_separators :
  snd (getParts_query
         (mkQuery None None None None None
                  (Some (QString (lit "caf" ++ [227%N] ++ lit "5" ++ [8364%N]))) None))
  = [QString (lit "%caf%"); QString (lit "%5%")].
Proof. vm_compute. reflexivity. Qed.

(** A repeated key is bound as it came: no trimming, no dropping of empty
    strings. *)
Example category_repeated_key :
  snd (getParts_query
         (mkQuery None None None None
                  (Some (QArray [lit " IC"; []])) None None))
  = [QString (lit " IC"); QString []].
Proof. vm_compute. reflexivity. Qed.

(** ** Running composed handlers *)

Lemma run_bind {A B} (m : task A) (k : A -> task B) (c : conn) :
  run (task_bind m k) c
  = match run m c with
    | (inl a, c') => run (k a) c'
    | (inr e, c') => (inr e, c')
    end.
Proof.
  revert c. induction m as [a|e|X s k' IH]; intros c; simpl; try reflexivity.
  destruct (exec s c) as [r c']. apply IH.
Qed.

Lemma run_try_catch {A} (m : task A) (h : exn -> task A) (c : conn) :
  run (try_catch m h) c
  = match run m c with
    | (inl a, c') => (inl a, c')
    | (inr e, c') => run (h e) c'
    end.
Proof.
  revert c. induction m as [a|e|X s k' IH]; intros c; simpl; try reflexivity.
  destruct (exec s c) as [r c']. apply IH.
Qed.

Lemma run_await {X} (s : stmt X) (c : conn) :
  run (await s) c
  = match exec s c with
    | (inl x, c') => (inl x, c')
    | (inr e, c') => (inr e, c')
    end.
Proof.
  unfold await. simpl. destruct (exec s c) as [[x|e] c']; reflexivity.
Qed.

(** The loop over the suppliers of a request leaves the catalog alone. *)
Lemma run_insert_suppliers (s : jsstring) (l : list supplier_input) :
  forall c : conn,
    faults c = [] ->
    exists c' : conn,
      run (insert_suppliers s l) c = (inl tt, c')
      /\ faults c' = [] /\ txn c' = txn c /\ clock c' = clock c
      /\ parts_catalog (data c') = parts_catalog (data c)
      /\ inventory (data c') = inventory (data c).
Proof.
  induction l as [|x l IH]; intros c Hf.
  - exists c. simpl. repeat split; auto.
  - destruct c as [d t f now]. simpl in Hf. subst f.
    destruct (IH (mkConn (insert_supplier s (in_supplier_name x) (in_supplier_code x)
                                          (in_product_url x) d) t [] now) eq_refl)
      as (c' & Hrun & Hf' & Ht' & Hn' & Hcat & Hinv).
    exists c'. simpl in *. repeat split; auto.
Qed.

Lemma find_part_inserted (p : part) (d : db) :
  find_part (sku p) d = None ->
  find_part (sku p) (insert_part p d) = Some p.
Proof.
  unfold find_part, insert_part. simpl.
  induction (parts_catalog d) as [|r rows IH]; simpl.
  - intros _. now rewrite jsstring_eqb_refl.
  - destruct (jsstring_eqb (sku r) (sku p)); [discriminate|exact IH].
Qed.




(** A document that is falsy (here [null]) is replaced by the empty object
    before it is stored, and that is what the fetch returns. *)
Example createPart_null_document :
  let req := mkCreateRequest (Some (lit "BC547")) (Some (lit "Transistor"))
                             (Some (lit "NPN")) None None (Some JNull)
                             None None None None in
  fst (run (getPartBySku (lit "BC547")) (snd (run (createPart req) empty_store)))
  = inl (mkResponse 200
           (PartBody (new_part (lit "BC547") (lit "Transistor") (lit "NPN") req)
                     (JObject []) [])).
Proof. vm_compute. reflexivity. Qed.

(* ===================================================================== *)
(** * Further properties of the handlers *)
(* ===================================================================== *)

(** ** [cutInventory]: every request, every plan of store failures *)

(** The tables after a cut are the ones before, or the ones with the
    decrement, or the ones with the decrement and the SCRAP row; the last two
    only for a request on a lot that was found holding a piece. *)
Lemma cut_outcomes (cut : cut_request -> task response) (req : cut_request) (c : conn) :
  In cut [cutInventory; PartsControllerTs.cutInventory] ->
  data (snd (run (cut req) c)) = data c
  \/ exists (i : Z) (u : Q) (it : item),
      inventoryId req = Some i /\ useAmount req = Some u
      /\ select_inventory_item i (data c) = Some it
      /\ (data (snd (run (cut req) c)) = decrement_quantity i (clock c) (data c)
          \/ (Qltb 0 (remainingSpec it u) = true
              /\ data (snd (run (cut req) c))
                 = insert_scrap (part_sku (item_row it)) (location_code (item_row it))
                     (remainingSpec it u) (clock c)
                     (decrement_quantity i (clock c) (data c)))).
Proof.
  intros Hcut. destruct req as [[i|] [u|]], c as [d t f now];
    try (left; destruct Hcut as [<- | [<- | []]]; reflexivity).
  destruct (negb (truthy_id (Some i)) || negb (truthy_num (Some u))) eqn:Hchk.
  { left. destruct Hcut as [<- | [<- | []]];
      cbn -[truthy_id truthy_num]; rewrite Hchk; reflexivity. }
  destruct (select_inventory_item i d) as [it|] eqn:Hsel.
  2:{ left. destruct Hcut as [<- | [<- | []]];
        cbn -[truthy_id truthy_num select_inventory_item]; rewrite Hchk;
        destruct f as [|[] f]; unfold exec;
        cbn -[truthy_id truthy_num select_inventory_item]; rewrite ?Hsel;
        reflexivity. }
  destruct (Qltb (quantity (item_row it)) 1) eqn:Hq.
  { left. destruct Hcut as [<- | [<- | []]];
      cbn -[truthy_id truthy_num select_inventory_item Qltb]; rewrite Hchk;
      destruct f as [|[] f]; unfold exec;
      cbn -[truthy_id truthy_num select_inventory_item Qltb]; rewrite ?Hsel;
      cbn -[Qltb]; rewrite ?Hq; reflexivity. }
  destruct (Qltb (remainingSpec it u) 0) eqn:Hr.
  { left. destruct Hcut as [<- | [<- | []]];
      cbn -[truthy_id truthy_num select_inventory_item Qltb remainingSpec];
      rewrite Hchk;
      destruct f as [|[] f]; unfold exec;
      cbn -[truthy_id truthy_num select_inventory_item Qltb remainingSpec];
      rewrite ?Hsel; cbn -[Qltb remainingSpec]; rewrite ?Hq, ?Hr; reflexivity. }
  destruct (Qltb 0 (remainingSpec it u)) eqn:Hpos;
    destruct Hcut as [<- | [<- | []]];
    cbn -[truthy_id truthy_num select_inventory_item Qltb remainingSpec];
    rewrite Hchk;
    repeat (unfold exec;
            cbn -[truthy_id truthy_num select_inventory_item Qltb remainingSpec];
            rewrite ?Hsel, ?Hq, ?Hr, ?Hpos;
            try match goal with
                | |- context [match ?g with [] => _ | _ :: _ => _ end] =>
                    is_var g; destruct g as [|[] g]
                | |- context [match ?x with Some _ => _ | None => _ end] =>
                    is_var x; destruct x
                end);
    first [ left; reflexivity
          | right; exists i, u, it; repeat split; auto; left; reflexivity
          | right; exists i, u, it; repeat split; auto; right; split; reflexivity ].
Qed.

Lemma decrement_row_same_piece (i now : Z) (r : lot) :
  same_piece r (decrement_row i now r).
Proof.
  unfold same_piece, decrement_row. destruct (id r =? i); simpl; auto 10.
Qed.

Lemma decrement_rows_same_piece (i now : Z) (rows : list lot) :
  Forall2 same_piece rows (map (decrement_row i now) rows).
Proof.
  induction rows as [|r rows IH]; simpl; constructor;
    [apply decrement_row_same_piece|exact IH].
Qed.

Lemma same_piece_refl (rows : list lot) : Forall2 same_piece rows rows.
Proof.
  induction rows as [|r rows IH]; constructor; [|exact IH].
  unfold same_piece. auto 10.
Qed.

(** X1. Whatever the request and whatever the store does, a cut leaves the
    catalog and the supplier rows as they were, removes no inventory row and
    changes no id, SKU, location, spec value or condition of a row: every
    former row is still there, in place, with its quantity kept or lowered
    by 1, followed by at most one new row, of quantity 1 and condition
    SCRAP.  Both revisions of [cutInventory]. *)
Theorem cut_never_rewrites :
  forall (cut : cut_request -> task response) (req : cut_request) (c : conn),
    In cut [cutInventory; PartsControllerTs.cutInventory] ->
    let d' := data (snd (run (cut req) c)) in
    parts_catalog d' = parts_catalog (data c)
    /\ part_suppliers d' = part_suppliers (data c)
    /\ exists kept added : list lot,
        inventory d' = kept ++ added
        /\ Forall2 same_piece (inventory (data c)) kept
        /\ (List.length added <= 1)%nat
        /\ Forall (fun r => condition r = Some SCRAP /\ quantity r = 1%Q) added.
Proof.
  intros cut req c Hcut d'. subst d'.
  destruct (cut_outcomes req c Hcut) as [E | (i & u & it & _ & _ & _ & [E | [_ E]])];
    rewrite E; simpl; repeat split.
  - exists (inventory (data c)), []. rewrite app_nil_r.
    repeat split; auto using same_piece_refl.
  - exists (map (decrement_row i (clock c)) (inventory (data c))), [].
    rewrite app_nil_r. repeat split; auto using decrement_rows_same_piece.
  - eexists _, [_]. split; [reflexivity|].
    repeat split; auto using decrement_rows_same_piece.
Qed.

Lemma cut_never_rewrites_witness :
  parts_catalog (data (snd (run (PartsControllerTs.cutInventory (cut_req 1 1)) store1)))
  = parts_catalog (data store1).
Proof.
  exact (proj1 (@cut_never_rewrites PartsControllerTs.cutInventory (cut_req 1 1)
                  store1 (or_intror (or_introl eq_refl)))).
Defined.

Lemma decrement_rows_ids (i now : Z) (rows : list lot) :
  map id (map (decrement_row i now) rows) = map id rows.
Proof.
  rewrite map_map. apply map_ext. intros r. unfold decrement_row.
  destruct (id r =? i); reflexivity.
Qed.

Lemma NoDup_snoc {A} (l : list A) (x : A) :
  NoDup l -> ~ In x l -> NoDup (l ++ [x]).
Proof.
  induction l as [|a l IH]; intros Hnd Hx; simpl.
  - constructor; [auto|constructor].
  - inversion Hnd as [|? ? Ha Hl]; subst. constructor.
    + intros Hin. apply in_app_or in Hin as [Hin|[->|[]]]; [auto|].
      apply Hx. now left.
    + apply IH; [exact Hl|]. intros Hin. apply Hx. now right.
Qed.

Lemma decrement_keeps_ids_ok (i now : Z) (d : db) :
  inventory_ids_ok d -> inventory_ids_ok (decrement_quantity i now d).
Proof.
  intros [Hnd Hle]. split; simpl.
  - now rewrite decrement_rows_ids.
  - rewrite Forall_forall in *. intros r Hin.
    apply in_map_iff in Hin as (r0 & <- & Hin0).
    specialize (Hle r0 Hin0). unfold decrement_row.
    destruct (id r0 =? i); simpl; exact Hle.
Qed.

Lemma insert_scrap_keeps_ids_ok (s loc : jsstring) (r : Q) (now : Z) (d : db) :
  inventory_ids_ok d -> inventory_ids_ok (insert_scrap s loc r now d).
Proof.
  intros [Hnd Hle]. split; simpl.
  - rewrite map_app. simpl. apply NoDup_snoc.
    + exact Hnd.
    + intros Hin. apply in_map_iff in Hin as (r0 & E & Hin0).
      rewrite Forall_forall in Hle. specialize (Hle r0 Hin0). lia.
  - apply Forall_app. split.
    + rewrite Forall_forall in *. intros r0 Hin. specialize (Hle r0 Hin). lia.
    + constructor; [simpl; lia|constructor].
Qed.

(** X2. The ids of the inventory stay distinct and bounded by the
    AUTOINCREMENT sequence through every cut, whatever the request and the
    failures of the store: a cut never makes a second row with an id that
    exists.  Both revisions. *)
Theorem cut_keeps_ids_distinct :
  forall (cut : cut_request -> task response) (req : cut_request) (c : conn),
    In cut [cutInventory; PartsControllerTs.cutInventory] ->
    inventory_ids_ok (data c) ->
    inventory_ids_ok (data (snd (run (cut req) c))).
Proof.
  intros cut req c Hcut Hok.
  destruct (cut_outcomes req c Hcut) as [E | (i & u & it & _ & _ & _ & [E | [_ E]])];
    rewrite E.
  - exact Hok.
  - now apply decrement_keeps_ids_ok.
  - now apply insert_scrap_keeps_ids_ok, decrement_keeps_ids_ok.
Qed.

Lemma cut_keeps_ids_distinct_witness :
  inventory_ids_ok (data (snd (run (cutInventory (cut_req 1 3)) store1))).
Proof.
  apply cut_keeps_ids_distinct.
  - simpl. auto.
  - split; simpl.
    + repeat constructor. simpl. tauto.
    + repeat constructor. simpl. lia.
Defined.

(** ** [cutInventory]: requests that go through, one after the other *)

Lemma cut_run_success (cut : cut_request -> task response) (c : conn)
      (l : lot) (p : part) (u : Q) :
  In cut [cutInventory; PartsControllerTs.cutInventory] ->
  faults c = [] -> txn c = None ->
  id l <> 0 ->
  find_lot (id l) (data c) = Some l ->
  find_part (part_sku l) (data c) = Some p ->
  (1 <= quantity l)%Q ->
  ~ (u == 0)%Q ->
  (0 <= remainingSpec (mkItem l (default_spec p)) u)%Q ->
  run (cut (mkCutRequest (Some (id l)) (Some u))) c
  = (inl (cut_success (id l) (remainingSpec (mkItem l (default_spec p)) u)),
     mkConn (after_cut l (remainingSpec (mkItem l (default_spec p)) u) (clock c) (data c))
            None [] (clock c)).
Proof.
  intros Hcut Hf Ht Hi Hl Hp Hq Hu Hrem.
  destruct c as [d t f now]. simpl in Hf, Ht, Hl, Hp. subst f t.
  assert (Hq1 : Qltb (quantity l) 1 = false) by (now apply Qltb_ge).
  assert (Hr0 : Qltb (remainingSpec (mkItem l (default_spec p)) u) 0 = false)
    by (now apply Qltb_ge).
  unfold after_cut. cbn [data clock].
  destruct (Qltb 0 (remainingSpec (mkItem l (default_spec p)) u)) eqn:Hpos;
    destruct Hcut as [<- | [<- | []]];
    cut_checks Hi Hu Hl Hp; rewrite Hq1, Hr0;
    cbn -[Qltb remainingSpec]; rewrite Hpos; reflexivity.
Qed.

Lemma find_lot_after_cut (l : lot) (rem : Q) (now : Z) (d : db) :
  find_lot (id l) d = Some l ->
  find_lot (id l) (after_cut l rem now d) = Some (decrement_row (id l) now l).
Proof.
  intros Hl. unfold after_cut, find_lot in *.
  destruct (Qltb 0 rem); simpl.
  - apply find_app_found. now apply find_decremented.
  - now apply find_decremented.
Qed.

Lemma find_part_after_cut (s : jsstring) (l : lot) (rem : Q) (now : Z) (d : db) :
  find_part s (after_cut l rem now d) = find_part s d.
Proof. unfold after_cut, find_part. destruct (Qltb 0 rem); reflexivity. Qed.



(** X4. A cut on an id that no row of the inventory joined with its catalog
    entry answers to (no such lot, or a lot whose catalog entry is gone),
    once the SELECT is carried out: the answer is 404 and the tables are
    untouched.  Both revisions. *)
Theorem cut_unknown_lot_not_found :
  forall (cut : cut_request -> task response) (c : conn) (i : Z) (u : Q),
    In cut [cutInventory; PartsControllerTs.cutInventory] ->
    hd false (faults c) = false ->
    i <> 0 -> ~ (u == 0)%Q ->
    select_inventory_item i (data c) = None ->
    exists c' : conn,
      run (cut (mkCutRequest (Some i) (Some u))) c = (inl item_not_found, c')
      /\ data c' = data c /\ txn c' = txn c.
Proof.
  intros cut [d t f now] i u Hcut Hf Hi Hu Hsel. simpl in Hf, Hsel.
  destruct f as [|[] f]; try discriminate Hf;
    destruct Hcut as [<- | [<- | []]];
    cbn -[Qltb remainingSpec select_inventory_item truthy_id truthy_num];
    rewrite (truthy_id_nonzero Hi), (truthy_num_pos Hu);
    unfold exec; cbn -[Qltb remainingSpec select_inventory_item];
    rewrite Hsel; eexists; repeat split.
Qed.

Lemma cut_unknown_lot_not_found_witness :
  exists c' : conn,
    run (cutInventory (mkCutRequest (Some 999999) (Some 1%Q))) store1
    = (inl item_not_found, c')
    /\ data c' = data store1 /\ txn c' = txn store1.
Proof.
  apply cut_unknown_lot_not_found.
  - simpl. auto.
  - reflexivity.
  - lia.
  - intros H. discriminate H.
  - reflexivity.
Defined.

(** X5. Two cuts served one after the other on a lot that holds one piece:
    the first goes through, the second is answered InsufficientQuantity and
    changes nothing, whatever amount it asks for (other than 0).  Both
    revisions. *)
Theorem second_cut_insufficient :
  forall (cut : cut_request -> task response) (c : conn) (l : lot) (p : part) (u u2 : Q),
    In cut [cutInventory; PartsControllerTs.cutInventory] ->
    faults c = [] -> txn c = None ->
    id l <> 0 ->
    find_lot (id l) (data c) = Some l ->
    find_part (part_sku l) (data c) = Some p ->
    (quantity l == 1)%Q ->
    ~ (u == 0)%Q -> ~ (u2 == 0)%Q ->
    (0 <= remainingSpec (mkItem l (default_spec p)) u)%Q ->
    exists c1 : conn,
      run (cut (mkCutRequest (Some (id l)) (Some u))) c
      = (inl (cut_success (id l) (remainingSpec (mkItem l (default_spec p)) u)), c1)
      /\ run (cut (mkCutRequest (Some (id l)) (Some u2))) c1
         = (inl insufficient_quantity, c1).
Proof.
  intros cut c l p u u2 Hcut Hf Ht Hi Hl Hp Hq Hu Hu2 Hrem.
  eexists. split; [apply cut_run_success; auto; lra|].
  set (rem := remainingSpec (mkItem l (default_spec p)) u).
  pose proof (@find_lot_after_cut l rem (clock c) (data c) Hl) as Hl1.
  assert (Hp1 : find_part (part_sku (decrement_row (id l) (clock c) l))
                          (after_cut l rem (clock c) (data c)) = Some p).
  { rewrite find_part_after_cut. unfold decrement_row.
    rewrite Z.eqb_refl. exact Hp. }
  assert (Hid : id (decrement_row (id l) (clock c) l) = id l).
  { unfold decrement_row. now rewrite Z.eqb_refl. }
  rewrite <- Hid in Hl1 at 1.
  assert (Hi1 : id (decrement_row (id l) (clock c) l) <> 0) by now rewrite Hid.
  assert (Hq1 : Qltb (quantity (decrement_row (id l) (clock c) l)) 1 = true).
  { apply Qltb_lt. unfold decrement_row. rewrite Z.eqb_refl. simpl. lra. }
  rewrite <- Hid.
  destruct Hcut as [<- | [<- | []]];
    cbn -[Qltb remainingSpec select_inventory_item truthy_id truthy_num after_cut
          decrement_row];
    rewrite (truthy_id_nonzero Hi1), (truthy_num_pos Hu2);
    cbn -[Qltb remainingSpec select_inventory_item after_cut decrement_row];
    rewrite (select_inventory_item_found _ _ Hl1 Hp1);
    cbn -[Qltb remainingSpec after_cut decrement_row]; rewrite Hq1; reflexivity.
Qed.

Lemma second_cut_insufficient_witness :
  exists c1 : conn,
    run (cutInventory (mkCutRequest (Some 1) (Some 3%Q))) store1
    = (inl (cut_success 1 (remainingSpec (mkItem lot1 (default_spec R100)) 3)), c1)
    /\ run (cutInventory (mkCutRequest (Some 1) (Some 4%Q))) c1
       = (inl insufficient_quantity, c1).
Proof.
  apply (@second_cut_insufficient cutInventory store1 lot1 R100 3%Q 4%Q).
  - simpl. auto.
  - reflexivity.
  - reflexivity.
  - simpl. lia.
  - reflexivity.
  - reflexivity.
  - reflexivity.
  - intros H. discriminate H.
  - intros H. discriminate H.
  - unfold Qle. simpl. lia.
Defined.

Lemma find_app_missing {A} (f : A -> bool) (xs ys : list A) :
  find f xs = None -> find f (xs ++ ys) = find f ys.
Proof.
  induction xs as [|a xs IH]; simpl; [reflexivity|].
  destruct (f a); [discriminate|exact IH].
Qed.

Lemma find_lot_fresh (i now : Z) (d : db) :
  Forall (fun r => id r <= inventory_seq d) (inventory d) ->
  find (fun r => id r =? inventory_seq d + 1)
       (map (decrement_row i now) (inventory d)) = None.
Proof.
  intros Hle. induction (inventory d) as [|r rows IH]; simpl; [reflexivity|].
  inversion Hle as [|? ? Hr Hrows]; subst.
  replace (id (decrement_row i now r) =? inventory_seq d + 1) with false.
  - now apply IH.
  - symmetry. apply Z.eqb_neq. unfold decrement_row.
    destruct (id r =? i); simpl; lia.
Qed.



(** ** [createPart], [getPartBySku], [deletePart]: errors and atomicity *)

Lemma exec_cases {X} (s : stmt X) (c : conn) :
  exec s c = (inr StoreFailure, pop_fault c)
  \/ exec s c = perform s (pop_fault c).
Proof.
  destruct c as [d t [|[] f] now]; unfold exec, pop_fault; simpl; auto.
Qed.

(** X7. A creation request whose SKU, category or name is absent or empty is
    answered 400 before any statement is sent: the connection is left
    exactly as it was. *)
Theorem createPart_requires_fields :
  forall (req : create_request) (c : conn),
    required_present req = false ->
    run (createPart req) c = (inl missing_part_fields, c).
Proof.
  intros req c H. unfold required_present in H. unfold createPart.
  destruct (req_sku req) as [[|a s]|], (req_category req) as [[|b ct]|],
    (req_name req) as [[|e n]|]; try discriminate H; reflexivity.
Qed.

Lemma createPart_requires_fields_witness :
  run (createPart (mkCreateRequest (Some (lit "BC547")) (Some []) (Some (lit "NPN"))
                                   None None None None None None None))
      empty_store
  = (inl missing_part_fields, empty_store).
Proof.
  apply createPart_requires_fields. reflexivity.
Defined.

(** X8. A creation request for a SKU that the catalog holds, once the SELECT
    is carried out, is answered 409 and changes neither the tables nor the
    state of the transaction. *)
Theorem createPart_duplicate_rejected :
  forall (req : create_request) (c : conn) (s : jsstring) (p : part),
    required_present req = true ->
    req_sku req = Some s ->
    hd false (faults c) = false ->
    find_part s (data c) = Some p ->
    exists c' : conn,
      run (createPart req) c = (inl sku_exists, c')
      /\ data c' = data c /\ txn c' = txn c.
Proof.
  intros req [d t f now] s p Hreq Hs Hf Hp. simpl in Hf, Hp.
  unfold required_present in Hreq. unfold createPart. rewrite Hs in *.
  destruct (req_category req) as [ct|]; [|now rewrite andb_false_r in Hreq].
  destruct (req_name req) as [n|]; [|now rewrite andb_false_r in Hreq].
  apply andb_true_iff in Hreq as [Hreq Hn]. apply andb_true_iff in Hreq as [Hs' Hc].
  rewrite Hs', Hc, Hn.
  destruct f as [|[] f]; try discriminate Hf;
    unfold exec; cbn -[find_part new_part]; rewrite Hp;
    eexists; repeat split.
Qed.

Lemma createPart_duplicate_rejected_witness :
  exists c' : conn,
    run (createPart (mkCreateRequest (Some (lit "R-100")) (Some (lit "Wire"))
                                     (Some (lit "Other")) None None None None None
                                     None None)) store1
    = (inl sku_exists, c')
    /\ data c' = data store1 /\ txn c' = txn store1.
Proof.
  apply (@createPart_duplicate_rejected _ store1 (lit "R-100") R100);
    reflexivity.
Defined.

(** Whatever the store does, the loop over the suppliers touches neither the
    catalog, nor the inventory, nor the state of the transaction. *)
Lemma run_insert_suppliers_frame (s : jsstring) (l : list supplier_input) :
  forall c : conn,
    txn (snd (run (insert_suppliers s l) c)) = txn c
    /\ parts_catalog (data (snd (run (insert_suppliers s l) c)))
       = parts_catalog (data c)
    /\ inventory (data (snd (run (insert_suppliers s l) c))) = inventory (data c).
Proof.
  induction l as [|x l IH]; intros c; [simpl; auto|].
  destruct c as [d t [|[] f] now]; cbn -[insert_suppliers];
    unfold exec; cbn -[insert_suppliers]; fold (insert_suppliers s l).
  - destruct (IH (mkConn (insert_supplier s (in_supplier_name x) (in_supplier_code x)
                                          (in_product_url x) d) t [] now))
      as (H1 & H2 & H3).
    change (task_bind (Ret tt) (fun _ : unit => insert_suppliers s l))
      with (insert_suppliers s l).
    auto.
  - auto.
  - destruct (IH (mkConn (insert_supplier s (in_supplier_name x) (in_supplier_code x)
                                          (in_product_url x) d) t f now))
      as (H1 & H2 & H3).
    change (task_bind (Ret tt) (fun _ : unit => insert_suppliers s l))
      with (insert_suppliers s l).
    auto.
Qed.

Lemma createPart_outcomes (req : create_request) (c : conn) :
  txn c = None ->
  data (snd (run (createPart req) c)) = data c
  \/ exists s cat n : jsstring,
      req_sku req = Some s /\ req_category req = Some cat /\ req_name req = Some n
      /\ find_part s (data c) = None
      /\ parts_catalog (data (snd (run (createPart req) c)))
         = parts_catalog (data c) ++ [new_part s cat n req]
      /\ inventory (data (snd (run (createPart req) c))) = inventory (data c)
      /\ ((fst (run (createPart req) c) = inl created_response
           /\ txn (snd (run (createPart req) c)) = None)
          \/ txn (snd (run (createPart req) c)) = Some (data c)).
Proof.
  intros Ht. destruct (required_present req) eqn:Hreq.
  2:{ left. now rewrite createPart_requires_fields. }
  unfold required_present in Hreq. unfold createPart.
  destruct (req_sku req) as [s|] eqn:Hs; [|discriminate Hreq].
  destruct (req_category req) as [ct|] eqn:Hc; [|now rewrite andb_false_r in Hreq].
  destruct (req_name req) as [n|] eqn:Hn; [|now rewrite andb_false_r in Hreq].
  apply andb_true_iff in Hreq as [Hreq Tn]. apply andb_true_iff in Hreq as [Ts Tc].
  rewrite Ts, Tc, Tn. cbn [negb orb].
  destruct c as [d t f now]. cbn [txn] in Ht. subst t. cbn [data].
  change (@catch exn task MonadExc_task) with (@try_catch).
  change (@bind task Monad_task) with (@task_bind).
  change (@ret task Monad_task) with (@Ret).
  change (@raise exn task MonadExc_task) with (@Throw).
  rewrite run_try_catch, run_bind, run_await.
  destruct (exec_cases (SelectSku s) (mkConn d None f now)) as [E|E]; rewrite E.
  { left. reflexivity. }
  unfold pop_fault; cbn [perform data txn faults clock].
  destruct (find_part s d) as [p0|] eqn:Hnew; cbn [option_map].
  { left. reflexivity. }
  rewrite run_bind, run_await.
  destruct (exec_cases BeginTransaction (mkConn d None (tl f) now)) as [E1|E1];
    rewrite E1.
  { left. reflexivity. }
  unfold pop_fault; cbn [perform data txn faults clock].
  rewrite run_try_catch, run_bind, run_await.
  destruct (exec_cases (InsertPart (new_part s ct n req))
                       (mkConn d (Some d) (tl (tl f)) now)) as [E2|E2]; rewrite E2.
  { unfold pop_fault; cbn [data txn faults clock]. rewrite run_bind, run_await.
    destruct (exec_cases Rollback (mkConn d (Some d) (tl (tl (tl f))) now))
      as [E3|E3]; rewrite E3; left; reflexivity. }
  unfold pop_fault; cbn [perform data txn faults clock].
  change (sku (new_part s ct n req)) with s. rewrite Hnew.
  unfold with_data. cbn [data txn faults clock].
  set (c1 := mkConn (insert_part (new_part s ct n req) d) (Some d)
                    (tl (tl (tl f))) now).
  rewrite run_bind.
  set (loop := match req_suppliers req with
               | Some (x :: l) => insert_suppliers s (x :: l)
               | _ => Ret tt
               end).
  assert (Hloop : txn (snd (run loop c1)) = Some d
                  /\ parts_catalog (data (snd (run loop c1)))
                     = parts_catalog d ++ [new_part s ct n req]
                  /\ inventory (data (snd (run loop c1))) = inventory d).
  { unfold loop. destruct (req_suppliers req) as [[|x l]|].
    - simpl. auto.
    - destruct (run_insert_suppliers_frame s (x :: l) c1) as (H1 & H2 & H3).
      rewrite H1, H2, H3. auto.
    - simpl. auto. }
  destruct (run loop c1) as [[[]|e] [d2 t2 f2 now2]]; cbn [snd data txn] in Hloop;
    destruct Hloop as (Ht2 & Hcat2 & Hinv2); subst t2.
  - rewrite run_bind, run_await.
    destruct (exec_cases Commit (mkConn d2 (Some d) f2 now2)) as [E3|E3]; rewrite E3.
    + unfold pop_fault; cbn [data txn faults clock]. rewrite run_bind, run_await.
      destruct (exec_cases Rollback (mkConn d2 (Some d) (tl f2) now2)) as [E4|E4];
        rewrite E4.
      * right. exists s, ct, n. unfold pop_fault; cbn [snd fst data txn run].
        repeat split; auto.
      * unfold pop_fault; cbn [perform data txn faults clock].
        left. reflexivity.
    + unfold pop_fault; cbn [perform data txn faults clock].
      right. exists s, ct, n. cbn. repeat split; auto.
  - rewrite run_bind, run_await.
    destruct (exec_cases Rollback (mkConn d2 (Some d) f2 now2)) as [E4|E4];
      rewrite E4.
    + right. exists s, ct, n. unfold pop_fault; cbn [snd fst data txn run].
      repeat split; auto.
    + unfold pop_fault; cbn [perform data txn faults clock].
      left. reflexivity.
Qed.

Ltac unfold_handler :=
  change (@catch exn task MonadExc_task) with (@try_catch);
  change (@bind task Monad_task) with (@task_bind);
  change (@ret task Monad_task) with (@Ret);
  change (@raise exn task MonadExc_task) with (@Throw).

Ltac step_on c0 :=
  rewrite ?run_try_catch, ?run_bind, ?run_await;
  match goal with
  | |- context [exec ?s c0] =>
      let E := fresh "E" in
      destruct (exec_cases s c0) as [E|E]; rewrite E; clear E;
      unfold pop_fault; cbn [perform data txn faults clock option_map]
  end.

(** A handler that opens with BEGIN does nothing to the tables when a
    transaction is already open on the connection. *)
Lemma createPart_in_open_transaction (req : create_request) (c : conn) (snap : db) :
  txn c = Some snap ->
  data (snd (run (createPart req) c)) = data c.
Proof.
  intros Ht. destruct (required_present req) eqn:Hreq.
  2:{ now rewrite createPart_requires_fields. }
  unfold required_present in Hreq. unfold createPart.
  destruct (req_sku req) as [s|] eqn:Hs; [|discriminate Hreq].
  destruct (req_category req) as [ct|] eqn:Hc; [|now rewrite andb_false_r in Hreq].
  destruct (req_name req) as [n|] eqn:Hn; [|now rewrite andb_false_r in Hreq].
  apply andb_true_iff in Hreq as [Hreq Tn]. apply andb_true_iff in Hreq as [Ts Tc].
  rewrite Ts, Tc, Tn. cbn [negb orb].
  destruct c as [d t f now]. cbn [txn] in Ht. subst t. cbn [data].
  unfold_handler.
  step_on (mkConn d (Some snap) f now); [reflexivity|].
  destruct (find_part s d) as [p0|]; [reflexivity|]. cbn [option_map].
  step_on (mkConn d (Some snap) (tl f) now); reflexivity.
Qed.

Lemma deletePart_outcomes (s : jsstring) (c : conn) :
  txn c = None ->
  data (snd (run (deletePart s) c)) = data c
  \/ (data (snd (run (deletePart s) c)) = delete_suppliers s (data c)
      /\ txn (snd (run (deletePart s) c)) = Some (data c))
  \/ (data (snd (run (deletePart s) c)) = after_delete s (data c)
      /\ ((fst (run (deletePart s) c) = inl deleted_response
           /\ txn (snd (run (deletePart s) c)) = None)
          \/ txn (snd (run (deletePart s) c)) = Some (data c))).
Proof.
  intros Ht. destruct c as [d t f now]. cbn [txn] in Ht. subst t. cbn [data].
  unfold deletePart, after_delete. unfold_handler.
  step_on (mkConn d None f now); [left; reflexivity|].
  destruct (find_part s d) as [p0|]; [|left; reflexivity]. cbn [option_map].
  step_on (mkConn d None (tl f) now); [left; reflexivity|].
  step_on (mkConn d (Some d) (tl (tl f)) now).
  { step_on (mkConn d (Some d) (tl (tl (tl f))) now);
      left; reflexivity. }
  unfold with_data; cbn [data txn faults clock].
  step_on (mkConn (delete_suppliers s d) (Some d) (tl (tl (tl f))) now).
  { step_on (mkConn (delete_suppliers s d) (Some d) (tl (tl (tl (tl f)))) now).
    - right. left. split; reflexivity.
    - left. reflexivity. }
  unfold with_data; cbn [data txn faults clock].
  step_on (mkConn (delete_part s (delete_suppliers s d)) (Some d)
                  (tl (tl (tl (tl f)))) now).
  { step_on (mkConn (delete_part s (delete_suppliers s d)) (Some d)
                    (tl (tl (tl (tl (tl f))))) now).
    - right. right. split; [reflexivity|]. right. reflexivity.
    - left. reflexivity. }
  right. right. split; [reflexivity|]. left. split; reflexivity.
Qed.

Lemma deletePart_in_open_transaction (s : jsstring) (c : conn) (snap : db) :
  txn c = Some snap ->
  data (snd (run (deletePart s) c)) = data c.
Proof.
  intros Ht. destruct c as [d t f now]. cbn [txn] in Ht. subst t. cbn [data].
  unfold deletePart. unfold_handler.
  step_on (mkConn d (Some snap) f now); [reflexivity|].
  destruct (find_part s d) as [p0|]; [|reflexivity]. cbn [option_map].
  step_on (mkConn d (Some snap) (tl f) now); reflexivity.
Qed.

(** X9. [createPart] and [deletePart] are all or nothing, for every plan of
    store failures: started outside a transaction and ended with none open
    (the ROLLBACK, when it was needed, was carried out), either the tables
    are exactly what they were, or the request was answered with its success
    response (201, respectively 204). *)
Theorem catalog_writes_all_or_nothing :
  (forall (req : create_request) (c : conn),
      txn c = None ->
      txn (snd (run (createPart req) c)) = None ->
      data (snd (run (createPart req) c)) = data c
      \/ fst (run (createPart req) c) = inl created_response)
  /\
  (forall (s : jsstring) (c : conn),
      txn c = None ->
      txn (snd (run (deletePart s) c)) = None ->
      data (snd (run (deletePart s) c)) = data c
      \/ (fst (run (deletePart s) c) = inl deleted_response
          /\ data (snd (run (deletePart s) c)) = after_delete s (data c))).
Proof.
  split.
  - intros req c Ht Hend.
    destruct (createPart_outcomes req c Ht)
      as [E | (s & ct & n & _ & _ & _ & _ & _ & _ & [[E _] | E])]; auto.
    rewrite E in Hend. discriminate Hend.
  - intros s c Ht Hend.
    destruct (deletePart_outcomes s c Ht) as [E | [[_ E] | [Ed [[E _] | E]]]]; auto;
      rewrite E in Hend; discriminate Hend.
Qed.

Lemma catalog_writes_all_or_nothing_witness :
  data (snd (run (createPart create_BC547)
                 (mkConn (data store1) None [false; false; false; true] 100)))
  = data store1
  /\ data (snd (run (deletePart (lit "R-100"))
                    (mkConn (data store1) None [false; false; false; true] 100)))
     = data store1.
Proof.
  destruct catalog_writes_all_or_nothing as [Hc Hd]. split.
  - destruct (Hc create_BC547
                 (mkConn (data store1) None [false; false; false; true] 100)
                 eq_refl eq_refl) as [H|H]; [exact H|discriminate H].
  - destruct (Hd (lit "R-100")
                 (mkConn (data store1) None [false; false; false; true] 100)
                 eq_refl eq_refl) as [H|[H _]]; [exact H|discriminate H].
Defined.

Lemma find_part_none_not_in (s : jsstring) (d : db) :
  find_part s d = None -> ~ In s (map sku (parts_catalog d)).
Proof.
  unfold find_part. intros Hnone Hin.
  apply in_map_iff in Hin as (p & Hp & Hin).
  apply (find_none _ _ Hnone) in Hin. rewrite Hp, jsstring_eqb_refl in Hin.
  discriminate Hin.
Qed.

Lemma NoDup_map_filter {A B} (f : A -> B) (keep : A -> bool) (l : list A) :
  NoDup (map f l) -> NoDup (map f (filter keep l)).
Proof.
  induction l as [|a l IH]; simpl; intros Hnd; [constructor|].
  inversion Hnd as [|? ? Ha Hl]; subst.
  destruct (keep a); simpl; [|now apply IH].
  constructor; [|now apply IH].
  intros Hin. apply Ha. apply in_map_iff in Hin as (x & Hx & Hin).
  apply filter_In in Hin as [Hin _]. apply in_map_iff. now exists x.
Qed.

(** X10. The SKUs of the catalog stay distinct through every request of
    creation, deletion and cut, whatever the store does, failed rollbacks
    included: no handler ever leaves two catalog rows with one SKU. *)
Theorem catalog_keys_kept :
  (forall (req : create_request) (c : conn),
      catalog_keys_ok (data c) ->
      catalog_keys_ok (data (snd (run (createPart req) c))))
  /\ (forall (s : jsstring) (c : conn),
         catalog_keys_ok (data c) ->
         catalog_keys_ok (data (snd (run (deletePart s) c))))
  /\ (forall (cut : cut_request -> task response) (req : cut_request) (c : conn),
         In cut [cutInventory; PartsControllerTs.cutInventory] ->
         catalog_keys_ok (data c) ->
         catalog_keys_ok (data (snd (run (cut req) c)))).
Proof.
  unfold catalog_keys_ok. split; [|split].
  - intros req c Hok. destruct (txn c) as [snap|] eqn:Ht.
    + now rewrite (createPart_in_open_transaction req c Ht).
    + destruct (createPart_outcomes req c Ht)
        as [E | (s & ct & n & _ & _ & _ & Hnew & Hcat & _)].
      * now rewrite E.
      * rewrite Hcat, map_app. simpl. apply NoDup_snoc; [exact Hok|].
        now apply find_part_none_not_in.
  - intros s c Hok. destruct (txn c) as [snap|] eqn:Ht.
    + now rewrite (deletePart_in_open_transaction s c Ht).
    + destruct (deletePart_outcomes s c Ht) as [E | [[E _] | [E _]]]; rewrite E.
      * exact Hok.
      * exact Hok.
      * unfold after_delete. simpl. now apply NoDup_map_filter.
  - intros cut req c Hcut Hok.
    destruct (cut_outcomes req c Hcut) as [E | (i & u & it & _ & _ & _ & [E | [_ E]])];
      rewrite E; exact Hok.
Qed.

Lemma catalog_keys_kept_witness :
  catalog_keys_ok (data (snd (run (createPart create_BC547) store1))).
Proof.
  destruct catalog_keys_kept as [Hc _]. apply Hc.
  unfold catalog_keys_ok. simpl. repeat constructor. simpl. tauto.
Defined.

(** X11. A deletion request for a SKU that the catalog does not hold, once
    the SELECT is carried out, is answered 404 and changes nothing. *)
Theorem deletePart_unknown_not_found :
  forall (s : jsstring) (c : conn),
    hd false (faults c) = false ->
    find_part s (data c) = None ->
    exists c' : conn,
      run (deletePart s) c = (inl part_not_found, c')
      /\ data c' = data c /\ txn c' = txn c.
Proof.
  intros s [d t f now] Hf Hnone. simpl in Hf, Hnone.
  unfold deletePart.
  destruct f as [|[] f]; try discriminate Hf;
    unfold exec; cbn -[find_part]; rewrite Hnone; eexists; repeat split.
Qed.

Lemma deletePart_unknown_not_found_witness :
  exists c' : conn,
    run (deletePart (lit "BC547")) store1 = (inl part_not_found, c')
    /\ data c' = data store1 /\ txn c' = txn store1.
Proof.
  apply deletePart_unknown_not_found; reflexivity.
Defined.

(** ** Reading a part back *)

(** X12. [getPartBySku] only reads: whatever the SKU, the tables and the
    plan of the store, it changes neither the tables nor the state of the
    transaction. *)
Theorem getPartBySku_reads_only :
  forall (s : jsstring) (c : conn),
    data (snd (run (getPartBySku s) c)) = data c
    /\ txn (snd (run (getPartBySku s) c)) = txn c.
Proof.
  intros s [d t f now]. unfold getPartBySku. unfold_handler. cbn [data txn].
  step_on (mkConn d t f now); [split; reflexivity|].
  destruct (find_part s d) as [p|]; [|split; reflexivity].
  step_on (mkConn d t (tl f) now); [split; reflexivity|].
  rewrite run_bind.
  destruct (truthy_str (spec_definition p)); [|split; reflexivity].
  destruct (spec_definition p) as [text|]; [|split; reflexivity].
  destruct (JSON_parse text); split; reflexivity.
Qed.



Lemma run_insert_suppliers_rows (s : jsstring) (l : list supplier_input) :
  forall (d : db) (t : option db) (now : Z),
    run (insert_suppliers s l) (mkConn d t [] now)
    = (inl tt,
       mkConn (mkDb (parts_catalog d)
                    (part_suppliers d ++ supplier_rows (part_suppliers_seq d) s l)
                    (inventory d) (inventory_seq d)
                    (part_suppliers_seq d + Z.of_nat (List.length l)))
              t [] now).
Proof.
  induction l as [|x l IH]; intros d t now.
  - cbn [insert_suppliers run supplier_rows List.length Z.of_nat].
    rewrite app_nil_r, Z.add_0_r. destruct d; reflexivity.
  - cbn -[Z.of_nat Z.add insert_suppliers supplier_rows]. unfold with_data.
    cbn -[Z.of_nat Z.add insert_suppliers supplier_rows].
    change (run (task_bind (Ret tt) (fun _ : unit => insert_suppliers s l))
                ?c) with (run (insert_suppliers s l) c).
    cbn [insert_suppliers]. unfold_handler.
    cbn -[Z.of_nat Z.add insert_suppliers supplier_rows].
    unfold with_data. cbn -[Z.of_nat Z.add insert_suppliers supplier_rows].
    rewrite IH. cbn -[Z.of_nat Z.add]. rewrite <- app_assoc. cbn [app].
    replace (part_suppliers_seq d + 1 + Z.of_nat (List.length l))
      with (part_suppliers_seq d + Z.of_nat (S (List.length l))) by lia.
    reflexivity.
Qed.

Lemma createPart_run (req : create_request) (s ct n : jsstring)
      (d : db) (now : Z) :
  req_sku req = Some s -> req_category req = Some ct -> req_name req = Some n ->
  required_present req = true ->
  find_part s d = None ->
  run (createPart req) (mkConn d None [] now)
  = (inl created_response,
     mkConn (after_create (new_part s ct n req) (requested_suppliers req) d)
            None [] now).
Proof.
  intros Hs Hc Hn Hreq Hnew. unfold required_present in Hreq.
  rewrite Hs, Hc, Hn in Hreq.
  apply andb_true_iff in Hreq as [Hreq Tn]. apply andb_true_iff in Hreq as [Ts Tc].
  unfold createPart. rewrite Hs, Hc, Hn, Ts, Tc, Tn. cbn [negb orb].
  unfold_handler.
  rewrite run_try_catch, run_bind, run_await.
  unfold exec; cbn [perform data txn faults clock]. rewrite Hnew. cbn [option_map].
  rewrite run_bind, run_await.
  unfold exec; cbn [perform data txn faults clock].
  rewrite run_try_catch, run_bind, run_await.
  unfold exec; cbn [perform data txn faults clock].
  change (sku (new_part s ct n req)) with s. rewrite Hnew.
  unfold with_data; cbn [data txn faults clock].
  rewrite run_bind.
  assert (Hloop : run (match req_suppliers req with
                       | Some (x :: l) => insert_suppliers s (x :: l)
                       | _ => Ret tt
                       end)
                      (mkConn (insert_part (new_part s ct n req) d) (Some d) [] now)
                  = (inl tt,
                     mkConn (after_create (new_part s ct n req)
                                          (requested_suppliers req) d)
                            (Some d) [] now)).
  { unfold requested_suppliers, after_create.
    change (sku (new_part s ct n req)) with s.
    destruct (req_suppliers req) as [[|x l]|].
    - cbn [run supplier_rows List.length Z.of_nat]. unfold insert_part.
      now rewrite app_nil_r, Z.add_0_r.
    - rewrite run_insert_suppliers_rows. reflexivity.
    - cbn [run supplier_rows List.length Z.of_nat]. unfold insert_part.
      now rewrite app_nil_r, Z.add_0_r. }
  rewrite Hloop. reflexivity.
Qed.

Lemma filter_all_kept {A} (keep : A -> bool) (l : list A) :
  Forall (fun x => keep x = true) l -> filter keep l = l.
Proof.
  induction 1 as [|x l Hx Hl IH]; simpl; [reflexivity|].
  now rewrite Hx, IH.
Qed.

Lemma supplier_rows_of_sku (seq : Z) (s : jsstring) (l : list supplier_input) :
  Forall (fun r => jsstring_eqb (supplier_part_sku r) s = true)
         (supplier_rows seq s l).
Proof.
  revert seq. induction l as [|x l IH]; intros seq; simpl; constructor.
  - simpl. apply jsstring_eqb_refl.
  - apply IH.
Qed.



Lemma jsstring_eqb_neq (a b : jsstring) : a <> b -> jsstring_eqb a b = false.
Proof.
  intros H. destruct (jsstring_eqb a b) eqn:E; [|reflexivity].
  apply jsstring_eqb_eq in E. contradiction.
Qed.

Lemma find_part_other_kept (s s' : jsstring) (rows : list part) :
  s' <> s ->
  find (fun p => jsstring_eqb (sku p) s')
       (filter (fun p => negb (jsstring_eqb (sku p) s)) rows)
  = find (fun p => jsstring_eqb (sku p) s') rows.
Proof.
  intros Hne. induction rows as [|r rows IH]; simpl; [reflexivity|].
  destruct (jsstring_eqb (sku r) s) eqn:Es; simpl.
  - apply jsstring_eqb_eq in Es. rewrite Es, (jsstring_eqb_neq (not_eq_sym Hne)).
    exact IH.
  - now rewrite IH.
Qed.

Lemma suppliers_other_kept (s s' : jsstring) (rows : list supplier) :
  s' <> s ->
  filter (fun r => jsstring_eqb (supplier_part_sku r) s')
         (filter (fun r => negb (jsstring_eqb (supplier_part_sku r) s)) rows)
  = filter (fun r => jsstring_eqb (supplier_part_sku r) s') rows.
Proof.
  intros Hne. induction rows as [|r rows IH]; simpl; [reflexivity|].
  destruct (jsstring_eqb (supplier_part_sku r) s) eqn:Es; simpl.
  - apply jsstring_eqb_eq in Es. rewrite Es, (jsstring_eqb_neq (not_eq_sym Hne)).
    exact IH.
  - now rewrite IH.
Qed.

Lemma suppliers_own_removed (s : jsstring) (rows : list supplier) :
  filter (fun r => jsstring_eqb (supplier_part_sku r) s)
         (filter (fun r => negb (jsstring_eqb (supplier_part_sku r) s)) rows)
  = [].
Proof.
  induction rows as [|r rows IH]; simpl; [reflexivity|].
  destruct (jsstring_eqb (supplier_part_sku r) s) eqn:Es; simpl; [exact IH|].
  now rewrite Es.
Qed.

(** X15. A part that the catalog holds, deleted on a store that carries out
    every statement: the answer is 204; a fetch of the SKU is then answered
    404; no supplier row of the SKU is left; and every other catalog entry
    and the supplier rows of every other SKU are what they were. *)
Theorem deletePart_removes_its_rows_only :
  forall (c : conn) (s : jsstring) (p : part),
    faults c = [] -> txn c = None ->
    find_part s (data c) = Some p ->
    exists c' : conn,
      run (deletePart s) c = (inl deleted_response, c')
      /\ run (getPartBySku s) c' = (inl part_not_found, c')
      /\ suppliers_of s (data c') = []
      /\ (forall s' : jsstring,
             s' <> s ->
             find_part s' (data c') = find_part s' (data c)
             /\ suppliers_of s' (data c') = suppliers_of s' (data c)).
Proof.
  intros [d t f now] s p Hf Ht Hp. simpl in Hf, Ht, Hp. subst f t.
  exists (mkConn (after_delete s d) None [] now).
  split; [|split; [|split]].
  - unfold deletePart. cbn -[find_part]. rewrite Hp. reflexivity.
  - unfold getPartBySku. cbn -[find_part after_delete].
    unfold find_part, after_delete. cbn [parts_catalog delete_part].
    now rewrite find_filter_out.
  - unfold suppliers_of, after_delete. cbn. apply suppliers_own_removed.
  - intros s' Hne. cbn [data]. split.
    + unfold find_part, after_delete. cbn. now apply find_part_other_kept.
    + unfold suppliers_of, after_delete. cbn. now apply suppliers_other_kept.
Qed.

Lemma deletePart_removes_its_rows_only_witness :
  exists c' : conn,
    run (deletePart (lit "R-100")) store1 = (inl deleted_response, c')
    /\ run (getPartBySku (lit "R-100")) c' = (inl part_not_found, c').
Proof.
  destruct (@deletePart_removes_its_rows_only store1 (lit "R-100") R100)
    as (c' & H1 & H2 & _); try reflexivity.
  exists c'. split; [exact H1|exact H2].
Defined.

(** ** [updatePart] *)

Lemma serve_bind {A B} (m : prog catalog_stmt A) (k : A -> prog catalog_stmt B)
      (c : conn) :
  serve (prog_bind m k) c
  = match serve m c with
    | (inl a, c') => serve (k a) c'
    | (inr e, c') => (inr e, c')
    end.
Proof.
  unfold serve. revert c.
  induction m as [a|e|X s k' IH]; intros c; simpl; try reflexivity.
  destruct (exec_catalog s c) as [r c']. apply IH.
Qed.

Lemma serve_catch {A} (m : prog catalog_stmt A) (h : exn -> prog catalog_stmt A)
      (c : conn) :
  serve (prog_catch m h) c
  = match serve m c with
    | (inl a, c') => (inl a, c')
    | (inr e, c') => serve (h e) c'
    end.
Proof.
  unfold serve. revert c.
  induction m as [a|e|X s k' IH]; intros c; simpl; try reflexivity.
  destruct (exec_catalog s c) as [r c']. apply IH.
Qed.

Lemma serve_call {X} (s : catalog_stmt X) (c : conn) :
  serve (call s) c
  = match exec_catalog s c with
    | (inl x, c') => (inl x, c')
    | (inr e, c') => (inr e, c')
    end.
Proof.
  unfold serve, call. simpl. destruct (exec_catalog s c) as [[x|e] c']; reflexivity.
Qed.

(** The handlers above run the same among the larger set of statements. *)
Lemma serve_of_task {A} (t : task A) (c : conn) :
  serve (of_task t) c = run t c.
Proof.
  unfold serve. revert c.
  induction t as [a|e|X s k IH]; intros c; simpl; try reflexivity.
  change (exec_catalog (Shared s) c) with (exec s c).
  destruct (exec s c) as [r c']. apply IH.
Qed.

Lemma exec_catalog_cases {X} (s : catalog_stmt X) (c : conn) :
  exec_catalog s c = (inr StoreFailure, pop_fault c)
  \/ exec_catalog s c = perform_catalog s (pop_fault c).
Proof.
  destruct c as [d t [|[] f] now]; unfold exec_catalog, pop_fault; simpl; auto.
Qed.

Ltac unfold_prog :=
  change (@catch exn (prog catalog_stmt) (MonadExc_prog catalog_stmt))
    with (@prog_catch catalog_stmt);
  change (@bind (prog catalog_stmt) (Monad_prog catalog_stmt))
    with (@prog_bind catalog_stmt);
  change (@ret (prog catalog_stmt) (Monad_prog catalog_stmt))
    with (@Done catalog_stmt);
  change (@raise exn (prog catalog_stmt) (MonadExc_prog catalog_stmt))
    with (@Raise catalog_stmt).

Ltac serve_on c0 :=
  rewrite ?serve_catch, ?serve_bind, ?serve_call;
  match goal with
  | |- context [exec_catalog ?s c0] =>
      let E := fresh "E" in
      destruct (exec_catalog_cases s c0) as [E|E]; rewrite E; clear E;
      unfold pop_fault;
      cbn [perform_catalog perform data txn faults clock option_map]
  end.

Lemma find_part_updated (s : jsstring) (patch : part_patch) (d : db) (p : part) :
  find_part s d = Some p ->
  find_part s (update_part s patch d) = Some (patch_row patch p).
Proof.
  unfold find_part, update_part. cbn [parts_catalog].
  induction (parts_catalog d) as [|r rows IH]; simpl; [discriminate|].
  destruct (jsstring_eqb (sku r) s) eqn:E; simpl.
  - rewrite E. now intros [= ->].
  - rewrite E. exact IH.
Qed.

Lemma find_part_update_other (s s' : jsstring) (patch : part_patch) (d : db) :
  s' <> s ->
  find_part s' (update_part s patch d) = find_part s' d.
Proof.
  intros Hne. unfold find_part, update_part. cbn [parts_catalog].
  induction (parts_catalog d) as [|r rows IH]; simpl; [reflexivity|].
  destruct (jsstring_eqb (sku r) s) eqn:E; simpl.
  - apply jsstring_eqb_eq in E.
    rewrite E, (jsstring_eqb_neq (not_eq_sym Hne)). exact IH.
  - now rewrite IH.
Qed.

Lemma update_part_keeps_skus (s : jsstring) (patch : part_patch) (d : db) :
  map sku (parts_catalog (update_part s patch d)) = map sku (parts_catalog d).
Proof.
  unfold update_part. cbn [parts_catalog]. rewrite map_map. apply map_ext.
  intros p. destruct (jsstring_eqb (sku p) s); reflexivity.
Qed.

Lemma updatePart_run (s : jsstring) (req : update_request) (d : db) (now : Z)
      (p : part) :
  find_part s d = Some p ->
  serve (updatePart s req) (mkConn d None [] now)
  = (inl updated_response, mkConn (after_update s req d) None [] now).
Proof.
  intros Hp. unfold updatePart, after_update. unfold_prog.
  rewrite serve_catch, serve_bind, serve_call.
  unfold exec_catalog; cbn [perform_catalog perform data txn faults clock].
  rewrite Hp. cbn [option_map].
  rewrite serve_bind, serve_call.
  unfold exec_catalog; cbn [perform_catalog perform data txn faults clock].
  rewrite serve_catch, serve_bind, serve_call.
  unfold exec_catalog; cbn [perform_catalog perform data txn faults clock].
  unfold with_data; cbn [data txn faults clock].
  rewrite serve_bind.
  destruct (up_suppliers req) as [l|].
  - rewrite serve_bind, serve_call.
    unfold exec_catalog; cbn [perform_catalog perform data txn faults clock].
    unfold with_data; cbn [data txn faults clock].
    rewrite serve_of_task, run_insert_suppliers_rows.
    rewrite serve_bind, serve_call. reflexivity.
  - change (serve (Done tt) ?c) with (@inl unit exn tt, c). cbv iota beta.
    rewrite serve_bind, serve_call. reflexivity.
Qed.

(** X16. An update request for a SKU that the catalog does not hold, once
    the SELECT is carried out, is answered 404 and changes nothing. *)
Theorem updatePart_unknown_not_found :
  forall (s : jsstring) (req : update_request) (c : conn),
    hd false (faults c) = false ->
    find_part s (data c) = None ->
    exists c' : conn,
      serve (updatePart s req) c = (inl part_not_found, c')
      /\ data c' = data c /\ txn c' = txn c.
Proof.
  intros s req [d t f now] Hf Hnone. simpl in Hf, Hnone.
  unfold updatePart. unfold_prog.
  rewrite serve_catch, serve_bind, serve_call.
  destruct f as [|[] f]; try discriminate Hf;
    unfold exec_catalog; cbn [perform_catalog perform data txn faults clock];
    rewrite Hnone; eexists; repeat split.
Qed.

Lemma updatePart_unknown_not_found_witness :
  exists c' : conn,
    serve (updatePart (lit "BC547") no_change) store1 = (inl part_not_found, c')
    /\ data c' = data store1 /\ txn c' = txn store1.
Proof.
  apply updatePart_unknown_not_found; reflexivity.
Defined.

Lemma patch_row_nothing (p : part) :
  patch_row (mkPatch None None None None None None None None) p = p.
Proof. destruct p; reflexivity. Qed.

Lemma update_part_nothing (s : jsstring) (d : db) :
  update_part s (mkPatch None None None None None None None None) d = d.
Proof.
  unfold update_part. destruct d as [cat sup inv iseq sseq]. cbn. f_equal.
  induction cat as [|p cat IH]; simpl; [reflexivity|].
  rewrite IH, patch_row_nothing. now destruct (jsstring_eqb (sku p) s).
Qed.

(** X17. An update of a part that the catalog holds, on a store that
    carries out every statement: the answer is 200; the row of the SKU has
    each supplied field replaced and every other field as it was, its SKU
    included (a document is replaced only by one that is not falsy); every
    other catalog entry, the list of SKUs and the inventory are what they
    were; the supplier rows too when the request has no supplier list; and a
    request that supplies nothing leaves the tables exactly as they were. *)
Theorem updatePart_changes_supplied_fields :
  forall (s : jsstring) (req : update_request) (d : db) (now : Z) (p : part),
    find_part s d = Some p ->
    exists c' : conn,
      serve (updatePart s req) (mkConn d None [] now) = (inl updated_response, c')
      /\ find_part s (data c') = Some (patch_row (patch_of req) p)
      /\ sku (patch_row (patch_of req) p) = sku p
      /\ (forall s' : jsstring, s' <> s -> find_part s' (data c') = find_part s' d)
      /\ map sku (parts_catalog (data c')) = map sku (parts_catalog d)
      /\ inventory (data c') = inventory d
      /\ (up_suppliers req = None -> part_suppliers (data c') = part_suppliers d)
      /\ (patch_of req = mkPatch None None None None None None None None ->
          up_suppliers req = None -> data c' = d).
Proof.
  intros s req d now p Hp.
  eexists. split; [now apply (@updatePart_run s req d now p)|]. cbn [data].
  unfold after_update.
  destruct (up_suppliers req) as [l|]; cbn [parts_catalog inventory part_suppliers
                                             delete_suppliers].
  - repeat split.
    + change (find_part s (update_part s (patch_of req) d)
              = Some (patch_row (patch_of req) p)).
      now apply find_part_updated.
    + intros s' Hne.
      change (find_part s' (update_part s (patch_of req) d) = find_part s' d).
      now apply find_part_update_other.
    + apply update_part_keeps_skus.
    + discriminate.
    + discriminate.
  - repeat split.
    + now apply find_part_updated.
    + intros s' Hne. now apply find_part_update_other.
    + apply update_part_keeps_skus.
    + intros Hnothing _. rewrite Hnothing. apply update_part_nothing.
Qed.

Lemma updatePart_changes_supplied_fields_witness :
  exists c' : conn,
    serve (updatePart (lit "R-100")
             (mkUpdateRequest (Some (lit "Updated wire")) None None
                              (Some (lit "SOP8")) None None None None None))
          store1
    = (inl updated_response, c')
    /\ find_part (lit "R-100") (data c')
       = Some (mkPart (lit "R-100") (lit "Wire") (lit "Updated wire") None
                      (Some (lit "SOP8")) (Some (lit "{}")) None (Some 10%Q)
                      (Some (lit "m"))).
Proof.
  destruct (@updatePart_changes_supplied_fields (lit "R-100")
              (mkUpdateRequest (Some (lit "Updated wire")) None None
                               (Some (lit "SOP8")) None None None None None)
              (data store1) 100 R100 eq_refl)
    as (c' & H1 & H2 & _).
  exists c'. split; [exact H1|exact H2].
Defined.

Lemma supplier_rows_other_sku (s s' : jsstring) (l : list supplier_input) :
  s' <> s ->
  forall seq : Z,
    filter (fun r => jsstring_eqb (supplier_part_sku r) s') (supplier_rows seq s l)
    = [].
Proof.
  intros Hne. induction l as [|x l IH]; intros seq; simpl; [reflexivity|].
  rewrite (jsstring_eqb_neq (not_eq_sym Hne)). apply IH.
Qed.

(** X18. An update that carries a supplier list, on a store that carries
    out every statement: afterwards the supplier rows of the SKU are exactly
    the rows of the list, in its order and numbered after the supplier
    sequence (none for the empty list), and the supplier rows of every other
    SKU are what they were. *)
Theorem updatePart_replaces_suppliers :
  forall (s : jsstring) (req : update_request) (d : db) (now : Z) (p : part)
         (l : list supplier_input),
    find_part s d = Some p ->
    up_suppliers req = Some l ->
    exists c' : conn,
      serve (updatePart s req) (mkConn d None [] now) = (inl updated_response, c')
      /\ suppliers_of s (data c') = supplier_rows (part_suppliers_seq d) s l
      /\ (forall s' : jsstring,
             s' <> s -> suppliers_of s' (data c') = suppliers_of s' d).
Proof.
  intros s req d now p l Hp Hl.
  eexists. split; [now apply (@updatePart_run s req d now p)|]. cbn [data].
  unfold after_update, suppliers_of. rewrite Hl.
  cbn [part_suppliers delete_suppliers update_part part_suppliers_seq].
  split.
  - rewrite filter_app, suppliers_own_removed. cbn [app].
    apply filter_all_kept, supplier_rows_of_sku.
  - intros s' Hne. rewrite filter_app, suppliers_other_kept by exact Hne.
    rewrite supplier_rows_other_sku by exact Hne. apply app_nil_r.
Qed.

Lemma updatePart_replaces_suppliers_witness :
  exists c' : conn,
    serve (updatePart (lit "R-100")
             (mkUpdateRequest None None None None None None None None (Some [])))
          (mkConn (mkDb [R100] [mkSupplier 1 (lit "R-100") None None None] [] 0 1)
                  None [] 0)
    = (inl updated_response, c')
    /\ suppliers_of (lit "R-100") (data c') = [].
Proof.
  destruct (@updatePart_replaces_suppliers (lit "R-100")
              (mkUpdateRequest None None None None None None None None (Some []))
              (mkDb [R100] [mkSupplier 1 (lit "R-100") None None None] [] 0 1) 0
              R100 [] eq_refl eq_refl)
    as (c' & H1 & H2 & _).
  exists c'. split; [exact H1|exact H2].
Defined.



Lemma updatePart_outcomes (s : jsstring) (req : update_request) (c : conn) :
  txn c = None ->
  data (snd (serve (updatePart s req) c)) = data c
  \/ (map sku (parts_catalog (data (snd (serve (updatePart s req) c))))
      = map sku (parts_catalog (data c))
      /\ inventory (data (snd (serve (updatePart s req) c))) = inventory (data c)
      /\ ((fst (serve (updatePart s req) c) = inl updated_response
           /\ txn (snd (serve (updatePart s req) c)) = None)
          \/ txn (snd (serve (updatePart s req) c)) = Some (data c))).
Proof.
  intros Ht. destruct c as [d t f now]. cbn [txn] in Ht. subst t. cbn [data].
  unfold updatePart. unfold_prog.
  serve_on (mkConn d None f now); [left; reflexivity|].
  destruct (find_part s d) as [p0|]; [|left; reflexivity]. cbn [option_map].
  serve_on (mkConn d None (tl f) now); [left; reflexivity|].
  serve_on (mkConn d (Some d) (tl (tl f)) now).
  { serve_on (mkConn d (Some d) (tl (tl (tl f))) now); left; reflexivity. }
  unfold with_data; cbn [data txn faults clock].
  set (c1 := mkConn (update_part s (patch_of req) d) (Some d) (tl (tl (tl f))) now).
  rewrite serve_bind.
  set (block := match up_suppliers req with
                | Some l =>
                    prog_bind (call (Shared (DeleteSuppliers s)))
                              (fun _ : unit => of_task (insert_suppliers s l))
                | None => Done tt
                end).
  assert (Hblock : txn (snd (serve block c1)) = Some d
                   /\ map sku (parts_catalog (data (snd (serve block c1))))
                      = map sku (parts_catalog d)
                   /\ inventory (data (snd (serve block c1))) = inventory d).
  { unfold block. destruct (up_suppliers req) as [l|].
    - unfold c1. serve_on (mkConn (update_part s (patch_of req) d) (Some d)
                                  (tl (tl (tl f))) now).
      + cbn. repeat split. apply update_part_keeps_skus.
      + unfold with_data; cbn [data txn faults clock]. rewrite serve_of_task.
        destruct (run_insert_suppliers_frame s l
                    (mkConn (delete_suppliers s (update_part s (patch_of req) d))
                            (Some d) (tl (tl (tl (tl f)))) now)) as (H1 & H2 & H3).
        rewrite H1, H2, H3. cbn. repeat split. apply update_part_keeps_skus.
    - cbn. repeat split. apply update_part_keeps_skus. }
  destruct (serve block c1) as [[[]|e] [d2 t2 f2 now2]]; cbn [snd data txn] in Hblock;
    destruct Hblock as (Ht2 & Hcat2 & Hinv2); subst t2.
  - serve_on (mkConn d2 (Some d) f2 now2).
    + serve_on (mkConn d2 (Some d) (tl f2) now2).
      * right. cbn [snd fst data txn serve prog_run]. auto.
      * left. reflexivity.
    + right. cbn. auto.
  - serve_on (mkConn d2 (Some d) f2 now2).
    + right. cbn [snd fst data txn serve prog_run]. auto.
    + left. reflexivity.
Qed.

Lemma updatePart_in_open_transaction (s : jsstring) (req : update_request)
      (c : conn) (snap : db) :
  txn c = Some snap ->
  data (snd (serve (updatePart s req) c)) = data c.
Proof.
  intros Ht. destruct c as [d t f now]. cbn [txn] in Ht. subst t. cbn [data].
  unfold updatePart. unfold_prog.
  serve_on (mkConn d (Some snap) f now); [reflexivity|].
  destruct (find_part s d) as [p0|]; [|reflexivity]. cbn [option_map].
  serve_on (mkConn d (Some snap) (tl f) now); reflexivity.
Qed.

(** X20. For every update request and every plan of store failures:
    (1) started outside a transaction and ended with none open, the update
    either left the tables exactly as they were or was answered 200;
    (2) in every case, failed rollbacks and open transactions included, the
    list of SKUs of the catalog and the inventory are what they were: an
    update never adds, removes or renames a catalog entry. *)
Theorem updatePart_all_or_nothing :
  (forall (s : jsstring) (req : update_request) (c : conn),
      txn c = None ->
      txn (snd (serve (updatePart s req) c)) = None ->
      data (snd (serve (updatePart s req) c)) = data c
      \/ fst (serve (updatePart s req) c) = inl updated_response)
  /\
  (forall (s : jsstring) (req : update_request) (c : conn),
      map sku (parts_catalog (data (snd (serve (updatePart s req) c))))
      = map sku (parts_catalog (data c))
      /\ inventory (data (snd (serve (updatePart s req) c))) = inventory (data c)).
Proof.
  split.
  - intros s req c Ht Hend.
    destruct (updatePart_outcomes s req c Ht) as [E | (_ & _ & [[E _] | E])]; auto.
    rewrite E in Hend. discriminate Hend.
  - intros s req c. destruct (txn c) as [snap|] eqn:Ht.
    + rewrite (updatePart_in_open_transaction s req c Ht). auto.
    + destruct (updatePart_outcomes s req c Ht) as [E | (H1 & H2 & _)].
      * rewrite E. auto.
      * auto.
Qed.

Lemma updatePart_all_or_nothing_witness :
  data (snd (serve (updatePart (lit "R-100")
                      (mkUpdateRequest (Some (lit "n")) None None None None None
                                       None None (Some [])))
                   (mkConn (data store1) None [false; false; false; true] 100)))
  = data store1.
Proof.
  destruct updatePart_all_or_nothing as [Ha _].
  destruct (Ha (lit "R-100")
               (mkUpdateRequest (Some (lit "n")) None None None None None None None
                                (Some []))
               (mkConn (data store1) None [false; false; false; true] 100)
               eq_refl eq_refl) as [H|H]; [exact H|discriminate H].
Defined.

(* ===================================================================== *)
(** ** Filters that add nothing, and the older listing *)
(* ===================================================================== *)

Lemma trim_start_blank (s : jsstring) :
  Forall (fun c => is_js_space c = true) s -> trim_start s = [].
Proof.
  induction 1 as [|c s Hc _ IH]; [reflexivity|].
  cbn [trim_start]. now rewrite Hc.
Qed.

Lemma trim_blank (s : jsstring) :
  Forall (fun c => is_js_space c = true) s -> trim s = [].
Proof.
  intros H. unfold trim. now rewrite (trim_start_blank H).
Qed.

Lemma split_comma_blank (s : jsstring) :
  Forall (fun c => c = 44%N \/ is_js_space c = true) s ->
  Forall (Forall (fun c => is_js_space c = true)) (split_comma s).
Proof.
  induction 1 as [|c s Hc _ IH]; cbn [split_comma].
  - repeat constructor.
  - destruct (N.eqb_spec c 44) as [->|Hne].
    + constructor; [constructor|exact IH].
    + destruct Hc as [Hc|Hc]; [contradiction|].
      destruct (split_comma s) as [|h t]; [repeat constructor; exact Hc|].
      inversion IH as [|? ? Hh Ht]; subst.
      constructor; [constructor; assumption|assumption].
Qed.

Lemma filter_trim_blank (l : list jsstring) :
  Forall (Forall (fun c => is_js_space c = true)) l ->
  filter nonempty (map trim l) = [].
Proof.
  induction 1 as [|x l Hx _ IH]; [reflexivity|].
  cbn [map filter]. rewrite (trim_blank Hx). exact IH.
Qed.

Lemma toArray_blank (v : qvalue) :
  blank_facet (Some v) -> toArray v = [].
Proof.
  destruct v as [s|l]; cbn [blank_facet toArray String_].
  - intros H. apply filter_trim_blank, split_comma_blank, H.
  - trivial.
Qed.

Lemma split_runs_blank (sep : code_unit -> bool) (s : jsstring) :
  Forall (fun c => sep c = true) s ->
  forall b : bool, filter nonempty (split_runs sep b s) = [].
Proof.
  induction 1 as [|c s Hc _ IH]; intros b; cbn [split_runs].
  - reflexivity.
  - rewrite Hc. destruct b; [apply IH|]. cbn [filter nonempty]. apply IH.
Qed.

(** X21. Filters that carry no value add nothing to the search: when the
    name, SKU, supplier code and keyword are absent or empty, the package
    and category filters hold only commas and white space, and the
    description holds only separators, [getParts] sends the base query with
    no bound value. *)
Theorem getParts_blank_filters_add_nothing :
  forall q : query,
    truthy_q (q_name q) = false ->
    truthy_q (q_sku q) = false ->
    truthy_q (q_supplier_code q) = false ->
    truthy_q (q_q q) = false ->
    blank_facet (q_package_code q) ->
    blank_facet (q_category q) ->
    blank_description (q_description q) ->
    getParts_query q = (base_sql, []).
Proof.
  intros [n s sc pc cat de kw]; cbn [q_name q_sku q_supplier_code q_q
    q_package_code q_category q_description].
  intros Hn Hs Hsc Hkw Hpc Hcat Hde. unfold getParts_query.
  cbn [q_name q_sku q_supplier_code q_q q_package_code q_category q_description].
  assert (E1 : add_name n (base_sql, []) = (base_sql, [])).
  { unfold add_name. destruct n; [now rewrite Hn|reflexivity]. }
  rewrite E1.
  assert (E2 : add_sku s (base_sql, []) = (base_sql, [])).
  { unfold add_sku. destruct s; [now rewrite Hs|reflexivity]. }
  rewrite E2.
  assert (E3 : add_supplier_code sc (base_sql, []) = (base_sql, [])).
  { unfold add_supplier_code. destruct sc; [now rewrite Hsc|reflexivity]. }
  rewrite E3.
  assert (E4 : add_package_code pc (base_sql, []) = (base_sql, [])).
  { unfold add_package_code. destruct pc as [v|]; [|reflexivity].
    rewrite (toArray_blank v Hpc). destruct (truthy_q (Some v)); reflexivity. }
  rewrite E4.
  assert (E5 : add_category cat (base_sql, []) = (base_sql, [])).
  { unfold add_category. destruct cat as [v|]; [|reflexivity].
    rewrite (toArray_blank v Hcat). destruct (truthy_q (Some v)); reflexivity. }
  rewrite E5.
  assert (E6 : add_description de (base_sql, []) = (base_sql, [])).
  { unfold add_description. destruct de as [v|]; [|reflexivity].
    assert (Hw : filter nonempty (split_runs is_word_separator false (String_ v)) = []).
    { apply split_runs_blank. destruct v; exact Hde. }
    rewrite Hw. destruct (truthy_q (Some v)); reflexivity. }
  rewrite E6.
  unfold add_q. destruct kw; [now rewrite Hkw|reflexivity].
Qed.

Lemma getParts_blank_filters_add_nothing_witness :
  getParts_query
    (mkQuery (Some (QString [])) None None
             (Some (QString (lit " , ,")))
             (Some (QArray []))
             (Some (QString [32%N; 12288%N; 9%N])) None)
  = (base_sql, []).
Proof.
  apply getParts_blank_filters_add_nothing; try reflexivity.
  - cbn [blank_facet].
    repeat (apply Forall_cons; [first [left; reflexivity | right; reflexivity]|]).
    apply Forall_nil.
  - cbn [blank_description].
    repeat (apply Forall_cons; [reflexivity|]). apply Forall_nil.
Defined.

(** X22. The older listing: for every query its text has as many [?] as it
    binds values; when a supplier code is given, the category and package
    filters are ignored; when none is given, the text starts with the query
    that keeps only the lots whose quantity is above zero, and a category
    given as a repeated key is bound as one value. *)
Theorem listing_supplier_code_shadows_facets :
  forall q : PartsControllerTsListing.query,
    placeholders (fst (PartsControllerTsListing.getParts_query q))
    = List.length (snd (PartsControllerTsListing.getParts_query q))
    /\ (truthy_q (PartsControllerTsListing.q_supplier_code q) = true ->
        forall c p : option qvalue,
          PartsControllerTsListing.getParts_query
            (PartsControllerTsListing.mkQuery
               c p (PartsControllerTsListing.q_supplier_code q))
          = PartsControllerTsListing.getParts_query q)
    /\ (truthy_q (PartsControllerTsListing.q_supplier_code q) = false ->
        exists tail : jsstring,
          fst (PartsControllerTsListing.getParts_query q)
          = PartsControllerTsListing.stock_sql ++ tail
          /\ (List.length (snd (PartsControllerTsListing.getParts_query q)) <= 2)%nat).
Proof.
  intros [c p sc]. unfold PartsControllerTsListing.getParts_query.
  cbn [PartsControllerTsListing.q_supplier_code
       PartsControllerTsListing.q_category
       PartsControllerTsListing.q_package_code].
  assert (Hstock :
    forall c p,
      let b := PartsControllerTsListing.add_package_code p
                 (PartsControllerTsListing.add_category c
                    (PartsControllerTsListing.stock_sql, [])) in
      placeholders (fst b) = List.length (snd b)
      /\ exists tail, fst b = PartsControllerTsListing.stock_sql ++ tail
                      /\ (List.length (snd b) <= 2)%nat).
  { intros c0 p0.
    unfold PartsControllerTsListing.add_package_code,
      PartsControllerTsListing.add_category.
    destruct c0 as [vc|], p0 as [vp|];
      repeat match goal with
             | |- context [truthy_q ?v] => destruct (truthy_q v)
             end;
      cbn [fst snd]; rewrite ?placeholders_app; (split; [reflexivity|]).
    all: try (eexists; split; [rewrite <- ?app_assoc; reflexivity|cbn; lia]).
    all: exists []; split; [now rewrite List.app_nil_r|cbn; lia]. }
  destruct sc as [x|].
  - destruct (truthy_q (Some x)) eqn:Ht.
    + split; [reflexivity|]. split; [reflexivity|discriminate].
    + destruct (Hstock c p) as [H1 H2].
      split; [exact H1|]. split; [discriminate|intros _; exact H2].
  - destruct (Hstock c p) as [H1 H2].
    split; [exact H1|]. split; [discriminate|intros _; exact H2].
Qed.

Lemma listing_supplier_code_shadows_facets_witness :
  PartsControllerTsListing.getParts_query
    (PartsControllerTsListing.mkQuery
       (Some (QString (lit "IC"))) None (Some (QString (lit "DK-1"))))
  = (PartsControllerTsListing.supplier_sql, [QString (lit "DK-1")]).
Proof.
  destruct (listing_supplier_code_shadows_facets
              (PartsControllerTsListing.mkQuery
                 None None (Some (QString (lit "DK-1"))))) as (_ & H & _).
  exact (eq_trans (H eq_refl (Some (QString (lit "IC"))) None) eq_refl).
Defined.

(* ===================================================================== *)
(** ** The token check and the guards of the routes *)
(* ===================================================================== *)

Lemma split_on_not_nil (sep : code_unit) (s : jsstring) : split_on sep s <> [].
Proof.
  destruct s as [|c s]; cbn [split_on]; [discriminate|].
  destruct (N.eqb c sep); [discriminate|].
  destruct (split_on sep s); discriminate.
Qed.

Lemma split_on_no_sep (sep : code_unit) (s : jsstring) :
  ~ In sep s -> split_on sep s = [s].
Proof.
  induction s as [|c s IH]; intros Hs; cbn [split_on]; [reflexivity|].
  destruct (N.eqb_spec c sep) as [->|Hne]; [exfalso; apply Hs; now left|].
  rewrite IH; [reflexivity|]. intros Hin. apply Hs. now right.
Qed.

Lemma split_on_first (sep : code_unit) (a b : jsstring) :
  ~ In sep a -> split_on sep (a ++ sep :: b) = a :: split_on sep b.
Proof.
  induction a as [|c a IH]; intros Ha; cbn [app split_on].
  - now rewrite N.eqb_refl.
  - destruct (N.eqb_spec c sep) as [->|Hne]; [exfalso; apply Ha; now left|].
    rewrite IH; [reflexivity|]. intros Hin. apply Ha. now right.
Qed.

Lemma token_of_second_piece (scheme tok tail : jsstring) :
  ~ In 32%N scheme -> ~ In 32%N tok ->
  tail = [] \/ (exists rest, tail = 32%N :: rest) ->
  token_of (Some (scheme ++ 32%N :: tok ++ tail)) = Some tok.
Proof.
  intros Hs Ht Htail. unfold token_of.
  assert (Hne : nonempty (scheme ++ 32%N :: tok ++ tail) = true)
    by (destruct scheme; reflexivity).
  rewrite Hne, (@split_on_first 32%N scheme (tok ++ tail) Hs). cbn [nth_error].
  destruct Htail as [->|[rest ->]].
  - now rewrite List.app_nil_r, (@split_on_no_sep 32%N tok Ht).
  - now rewrite (@split_on_first 32%N tok rest Ht).
Qed.

(** X23. The token is the second piece of the header, cut at single spaces:
    the word before the first space is never looked at, and what follows a
    second space is dropped.  For every header of this shape the outcome
    depends on the token alone: 401 when it is empty, 403 when the library
    rejects it, and otherwise the request goes on with the payload of the
    token as its user, whatever user it carried before. *)
Theorem authenticateToken_reads_second_piece :
  forall (verify : jsstring -> option user_payload)
         (scheme tok tail : jsstring) (before : option user_payload),
    ~ In 32%N scheme ->
    ~ In 32%N tok ->
    tail = [] \/ (exists rest, tail = 32%N :: rest) ->
    authenticateToken verify
      (mkAuthRequest (Some (scheme ++ 32%N :: tok ++ tail)) before)
    = match tok with
      | [] => Sent token_required
      | _ :: _ =>
          match verify tok with
          | None => Sent invalid_token
          | Some u =>
              Next (mkAuthRequest (Some (scheme ++ 32%N :: tok ++ tail)) (Some u))
          end
      end.
Proof.
  intros verify scheme tok tail before Hs Ht Htail.
  unfold authenticateToken. cbn [authorization].
  rewrite (@token_of_second_piece scheme tok tail Hs Ht Htail).
  destruct tok; reflexivity.
Qed.

Lemma authenticateToken_reads_second_piece_witness :
  authenticateToken verify_alice
    (mkAuthRequest (Some (lit "Basic tok-alice and more"))
                   (Some (mkUserPayload 1 (lit "admin") (Some (lit "admin")))))
  = Next (mkAuthRequest (Some (lit "Basic tok-alice and more"))
                        (Some (mkUserPayload 2 (lit "alice") (Some (lit "user"))))).
Proof.
  apply (@authenticateToken_reads_second_piece verify_alice
           (lit "Basic") (lit "tok-alice") (lit " and more")).
  - cbn. intuition discriminate.
  - cbn. intuition discriminate.
  - right. eexists. reflexivity.
Defined.

(** X24. A request without an [authorization] header, or whose header holds
    no space, is answered 401 and the library is never asked: the answer is
    the same for every token checker. *)
Theorem authenticateToken_without_token :
  forall (verify : jsstring -> option user_payload) (req : auth_request),
    (authorization req = None
     \/ exists s, authorization req = Some s /\ ~ In 32%N s) ->
    authenticateToken verify req = Sent token_required.
Proof.
  intros verify [h u] [H | (s & H & Hs)]; cbn [authorization] in H; subst h;
    unfold authenticateToken; cbn [authorization token_of]; [reflexivity|].
  destruct s as [|c s]; [reflexivity|].
  cbn [nonempty]. now rewrite (@split_on_no_sep 32%N (c :: s) Hs).
Qed.

Lemma authenticateToken_without_token_witness :
  authenticateToken (fun _ => Some (mkUserPayload 1 (lit "admin") (Some (lit "admin"))))
    (mkAuthRequest (Some (lit "tok-alice")) None)
  = Sent token_required.
Proof.
  apply authenticateToken_without_token. right.
  eexists. split; [reflexivity|]. cbn. intuition discriminate.
Defined.

Lemma getPartBySku_keeps_data (s : jsstring) (c : conn) :
  data (snd (run (getPartBySku s) c)) = data c.
Proof.
  destruct c as [d t f now]. unfold getPartBySku. unfold_handler. cbn [data].
  step_on (mkConn d t f now); [reflexivity|].
  destruct (find_part s d) as [p|]; [|reflexivity].
  step_on (mkConn d t (tl f) now); [reflexivity|].
  rewrite run_bind.
  destruct (truthy_str (spec_definition p)); [|reflexivity].
  destruct (spec_definition p) as [text|]; [|reflexivity].
  destruct (JSON_parse text); reflexivity.
Qed.

Lemma cutInventory_keeps_catalog (req : cut_request) (c : conn) :
  parts_catalog (data (snd (run (cutInventory req) c))) = parts_catalog (data c)
  /\ part_suppliers (data (snd (run (cutInventory req) c)))
     = part_suppliers (data c).
Proof.
  destruct (@cut_outcomes cutInventory req c (or_introl eq_refl))
    as [E | (i & u & it & _ & _ & _ & [E | [_ E]])];
    rewrite E; split; reflexivity.
Qed.

Lemma no_admin_rejected (verify : jsstring -> option user_payload)
      (req : auth_request) :
  no_admin_token verify req ->
  exists resp : response,
    through [authenticateToken verify; requireAdmin] req = Sent resp
    /\ (status resp = 401 \/ status resp = 403).
Proof.
  intros Hno. cbn [through]. unfold authenticateToken.
  destruct (token_of (authorization req)) as [tok|] eqn:Htok.
  2:{ exists token_required. split; [reflexivity|now left]. }
  destruct (truthy_str (Some tok)); cbn [negb].
  2:{ exists token_required. split; [reflexivity|now left]. }
  destruct (verify tok) as [u|] eqn:Hv.
  2:{ exists invalid_token. split; [reflexivity|now right]. }
  exists admin_required. split; [|now right].
  unfold requireAdmin. cbn [user is_admin].
  specialize (Hno tok u Htok Hv).
  destruct (user_role u) as [r|]; [|reflexivity].
  destruct (jsstring_eqb r (lit "admin")) eqn:Hr; [|reflexivity].
  apply jsstring_eqb_eq in Hr. subst r. now contradiction Hno.
Qed.

(** X25. Only an administrator changes the catalog.  For a request whose
    token, if any, is not accepted as one of a user of role admin: the
    three routes that write the catalog (POST /, PATCH /:sku, DELETE /:sku)
    answer 401 or 403 and leave the connection as it was; and whichever
    route is taken, cuts included, and whatever the store does, the catalog
    and the supplier rows are what they were. *)
Theorem catalog_routes_need_admin :
  forall (verify : jsstring -> option user_payload) (r : route)
         (req : auth_request) (c : conn),
    no_admin_token verify req ->
    (match r with
     | POST_root _ | PATCH_sku _ _ | DELETE_sku _ =>
         exists resp : response,
           partsRoutes verify r req c = (inl resp, c)
           /\ (status resp = 401 \/ status resp = 403)
     | GET_sku _ | POST_cut _ => True
     end)
    /\ parts_catalog (data (snd (partsRoutes verify r req c)))
       = parts_catalog (data c)
    /\ part_suppliers (data (snd (partsRoutes verify r req c)))
       = part_suppliers (data c).
Proof.
  intros verify r req c Hno.
  destruct (@no_admin_rejected verify req Hno) as (resp & Hresp & Hst).
  destruct r as [s|b|s b|s|b]; unfold partsRoutes, middleware_of.
  - split; [exact I|].
    cbn [through]. destruct (authenticateToken verify req); [split; reflexivity|].
    cbn [handler_of]. rewrite getPartBySku_keeps_data. split; reflexivity.
  - rewrite Hresp. split; [|split; reflexivity]. exists resp. now split.
  - rewrite Hresp. split; [|split; reflexivity]. exists resp. now split.
  - rewrite Hresp. split; [|split; reflexivity]. exists resp. now split.
  - split; [exact I|].
    cbn [through]. destruct (authenticateToken verify req); [split; reflexivity|].
    cbn [handler_of]. apply cutInventory_keeps_catalog.
Qed.

Lemma catalog_routes_need_admin_witness :
  exists resp : response,
    partsRoutes verify_alice (DELETE_sku (lit "R-100"))
                (mkAuthRequest (Some (lit "Bearer tok-alice")) None) store1
    = (inl resp, store1)
    /\ (status resp = 401 \/ status resp = 403).
Proof.
  refine (proj1 (@catalog_routes_need_admin verify_alice (DELETE_sku (lit "R-100"))
                   (mkAuthRequest (Some (lit "Bearer tok-alice")) None) store1 _)).
  intros tok u Htok Hv. cbn in Htok. injection Htok as <-.
  cbn in Hv. injection Hv as <-. cbn. discriminate.
Defined.

(* ===================================================================== *)
(** ** The configuration *)
(* ===================================================================== *)

Lemma nonempty_true (s : jsstring) : nonempty s = true <-> s <> [].
Proof. destruct s; cbn; split; intros; congruence. Qed.

Lemma getEnvOrThrow_inl (env : environment) (key value : jsstring) :
  getEnvOrThrow env key = inl value <-> (env key = Some value /\ value <> []).
Proof.
  unfold getEnvOrThrow. destruct (env key) as [v|].
  - destruct (nonempty v) eqn:Hv.
    + split.
      * intros [= <-]. split; [reflexivity|now apply nonempty_true].
      * now intros [[= <-] _].
    + split; [discriminate|]. intros [[= <-] Hne].
      apply nonempty_true in Hne. congruence.
  - split; [discriminate|]. now intros [? _].
Qed.

Lemma getEnvOrThrow_is_set (env : environment) (key : jsstring) :
  (exists value, getEnvOrThrow env key = inl value) <-> is_set env key.
Proof.
  unfold is_set. split; intros [v H]; exists v; now apply getEnvOrThrow_inl.
Qed.

Lemma getEnvOrThrow_drop_empty (env : environment) (key : jsstring) :
  getEnvOrThrow (drop_empty env) key = getEnvOrThrow env key.
Proof.
  unfold getEnvOrThrow, drop_empty. destruct (env key) as [v|]; [|reflexivity].
  destruct (nonempty v) eqn:Hv; [now rewrite Hv|reflexivity].
Qed.

Lemma getEnv_drop_empty (env : environment) (key defaultValue : jsstring) :
  getEnv (drop_empty env) key defaultValue = getEnv env key defaultValue.
Proof.
  unfold getEnv, drop_empty. destruct (env key) as [v|]; [|reflexivity].
  destruct (nonempty v) eqn:Hv; [now rewrite Hv|reflexivity].
Qed.

(** X26. The configuration is built exactly when JWT_SECRET, ADMIN_USER and
    ADMIN_PASS are all set to a string that is not empty; the secret of a
    configuration that was built is the value of JWT_SECRET and is never
    empty, and neither are the initial user and password; and a variable
    set to the empty string counts as one that is not set, for every
    entry. *)
Theorem config_needs_the_three_secrets :
  forall (number : Type) (parseInt10 : jsstring -> number)
         (resolved_db_path : jsstring) (env : environment),
    ((exists cfg, config parseInt10 resolved_db_path env = inl cfg)
     <-> (is_set env (lit "JWT_SECRET") /\ is_set env (lit "ADMIN_USER")
          /\ is_set env (lit "ADMIN_PASS")))
    /\ (forall cfg,
           config parseInt10 resolved_db_path env = inl cfg ->
           env (lit "JWT_SECRET") = Some (jwtSecret cfg)
           /\ jwtSecret cfg <> [] /\ adminInitUser cfg <> []
           /\ adminInitPass cfg <> [])
    /\ config parseInt10 resolved_db_path (drop_empty env)
       = config parseInt10 resolved_db_path env.
Proof.
  intros number parseInt10 path env. split; [|split].
  - rewrite <- !getEnvOrThrow_is_set. unfold config. split.
    + intros [cfg H].
      destruct (getEnvOrThrow env (lit "JWT_SECRET")) as [a|]; [|discriminate].
      destruct (getEnvOrThrow env (lit "ADMIN_USER")) as [b|]; [|discriminate].
      destruct (getEnvOrThrow env (lit "ADMIN_PASS")) as [c|]; [|discriminate].
      repeat split; eexists; reflexivity.
    + intros ([a Ha] & [b Hb] & [c Hc]). rewrite Ha, Hb, Hc.
      eexists. reflexivity.
  - intros cfg H. unfold config in H.
    destruct (getEnvOrThrow env (lit "JWT_SECRET")) as [a|] eqn:Ha; [|discriminate].
    destruct (getEnvOrThrow env (lit "ADMIN_USER")) as [b|] eqn:Hb; [|discriminate].
    destruct (getEnvOrThrow env (lit "ADMIN_PASS")) as [c|] eqn:Hc; [|discriminate].
    injection H as <-. cbn [jwtSecret adminInitUser adminInitPass].
    apply getEnvOrThrow_inl in Ha, Hb, Hc. tauto.
  - unfold config. now rewrite !getEnvOrThrow_drop_empty, !getEnv_drop_empty.
Qed.

Lemma config_needs_the_three_secrets_witness :
  exists cfg : config_t (option Z),
    config (fun _ => None) (lit "/srv/inventory.db") env_secrets = inl cfg.
Proof.
  apply (proj1 (config_needs_the_three_secrets
                  (fun _ : jsstring => @None Z) (lit "/srv/inventory.db")
                  env_secrets)).
  repeat split; eexists; (split; [reflexivity|discriminate]).
Defined.

(* ===================================================================== *)
(** ** Signing in, and the default administrator *)
(* ===================================================================== *)

Lemma find_user_name (n : jsstring) (a : accounts) (r : user_row) :
  find_user n a = Some r -> In r (users a) /\ u_username r = n.
Proof.
  unfold find_user. intros H. apply find_some in H as [Hin Heq].
  apply jsstring_eqb_eq in Heq. now split.
Qed.

Lemma exec_select_user (n : jsstring) (a : accounts) :
  exists a1 : accounts,
    users a1 = users a /\ users_seq a1 = users_seq a
    /\ account_clock a1 = account_clock a
    /\ (account_faults a = [] -> a1 = a)
    /\ (exec_account (SelectUser n) a = (inr StoreFailure, a1)
        \/ (exec_account (SelectUser n) a = (inl (find_user n a), a1)
            /\ (account_faults a = [] \/ exists fs, account_faults a = false :: fs))).
Proof.
  destruct a as [us seq [|[] fs] now]; unfold exec_account;
    cbn [account_faults users users_seq account_clock perform_account].
  - exists (mkAccounts us seq [] now).
    split; [reflexivity|]. split; [reflexivity|]. split; [reflexivity|].
    split; [reflexivity|]. right. split; [reflexivity|now left].
  - exists (mkAccounts us seq fs now).
    split; [reflexivity|]. split; [reflexivity|]. split; [reflexivity|].
    split; [discriminate|]. now left.
  - exists (mkAccounts us seq fs now).
    split; [reflexivity|]. split; [reflexivity|]. split; [reflexivity|].
    split; [discriminate|]. right. split; [reflexivity|]. right. now eexists.
Qed.

Lemma sign_in_with_credentials
      (bcrypt_compare : jsstring -> jsstring -> bool)
      (jwt_sign : user_payload -> jsstring) (n p : jsstring) (a : accounts) :
  n <> [] -> p <> [] ->
  sign_in bcrypt_compare jwt_sign (mkLoginRequest (Some n) (Some p)) a
  = match exec_account (SelectUser n) a with
    | (inr _, a1) => (inl login_failed, a1)
    | (inl None, a1) => (inl invalid_credentials, a1)
    | (inl (Some r), a1) =>
        if negb (bcrypt_compare p (u_password_hash r))
        then (inl invalid_credentials, a1)
        else (inl (mkLoginResponse 200
                     (LoginSuccess true (jwt_sign (payload_of r)) (payload_of r))),
              a1)
    end.
Proof.
  intros Hn Hp. destruct n as [|x n]; [congruence|].
  destruct p as [|y p]; [congruence|].
  unfold sign_in, login. cbn [username password truthy_str negb orb].
  cbn [catch MonadExc_prog bind Monad_prog ret call prog_bind prog_catch prog_run].
  destruct (exec_account (SelectUser (x :: n)) a) as [[[r|]|e] a1];
    cbn [prog_run prog_catch prog_bind]; [|reflexivity|reflexivity].
  destruct (negb (bcrypt_compare (y :: p) (u_password_hash r))); reflexivity.
Qed.

Lemma sign_in_without_credentials
      (bcrypt_compare : jsstring -> jsstring -> bool)
      (jwt_sign : user_payload -> jsstring) (req : login_request) (a : accounts) :
  negb (truthy_str (username req)) || negb (truthy_str (password req)) = true ->
  sign_in bcrypt_compare jwt_sign req a = (inl credentials_required, a).
Proof.
  intros H. unfold sign_in, login. rewrite H. reflexivity.
Qed.

(** X27. Signing in, for every request, table and plan of the store: the
    handler always answers and never changes the users; a 200 is sent only
    for a user name that the table holds with a password that the library
    matches against the stored hash, and the token and the payload it
    carries are made of the id, name and role of that row; and, when the
    store carries the SELECT out, an unknown user name and a wrong password
    get the same answer. *)
Theorem login_token_only_for_valid_credentials :
  forall (bcrypt_compare : jsstring -> jsstring -> bool)
         (jwt_sign : user_payload -> jsstring)
         (req : login_request) (a : accounts),
    exists (resp : login_response) (a' : accounts),
      sign_in bcrypt_compare jwt_sign req a = (inl resp, a')
      /\ users a' = users a
      /\ (login_status resp = 200 ->
          exists (n p : jsstring) (r : user_row),
            username req = Some n /\ password req = Some p
            /\ In r (users a) /\ u_username r = n
            /\ bcrypt_compare p (u_password_hash r) = true
            /\ login_body_of resp
               = LoginSuccess true (jwt_sign (payload_of r)) (payload_of r))
      /\ (forall n p : jsstring,
             username req = Some n -> password req = Some p ->
             n <> [] -> p <> [] -> account_faults a = [] ->
             (find_user n a = None
              \/ exists r, find_user n a = Some r
                           /\ bcrypt_compare p (u_password_hash r) = false) ->
             resp = invalid_credentials).
Proof.
  intros cmp sgn req a.
  destruct (negb (truthy_str (username req)) || negb (truthy_str (password req)))
    eqn:Hchk.
  { exists credentials_required, a.
    rewrite (sign_in_without_credentials cmp sgn req a Hchk).
    split; [reflexivity|]. split; [reflexivity|]. split; [discriminate|].
    intros n p Hn Hp Hne Hpe _ _. rewrite Hn, Hp in Hchk.
    destruct n; [congruence|]. destruct p; [congruence|]. discriminate Hchk. }
  destruct req as [[n|] [p|]]; cbn [username password] in *;
    try (destruct n; discriminate Hchk); try discriminate Hchk.
  assert (Hn : n <> []) by (intros ->; discriminate Hchk).
  assert (Hp : p <> []).
  { intros ->. destruct n; discriminate Hchk. }
  rewrite (sign_in_with_credentials cmp sgn a Hn Hp).
  destruct (exec_select_user n a) as (a1 & Hus & _ & _ & Hsame & [E | [E Hplan]]);
    rewrite E.
  - (* the SELECT failed *)
    exists login_failed, a1.
    split; [reflexivity|]. split; [exact Hus|]. split; [discriminate|].
    intros n0 p0 _ _ _ _ Hf _. exfalso.
    destruct a as [us seq f now]. cbn [account_faults] in Hf. subst f.
    unfold exec_account in E. cbn in E. discriminate E.
  - destruct (find_user n a) as [r|] eqn:Hfind.
    + destruct (cmp p (u_password_hash r)) eqn:Hcmp; cbn [negb].
      * eexists _, a1. split; [reflexivity|]. split; [exact Hus|]. split.
        -- intros _. exists n, p, r.
           destruct (find_user_name n a Hfind) as [Hin Hname].
           repeat split; auto.
        -- intros n0 p0 [= <-] [= <-] _ _ _ [Hnone | (r0 & Hr0 & Hc0)].
           ++ rewrite Hfind in Hnone. discriminate Hnone.
           ++ rewrite Hfind in Hr0. injection Hr0 as <-. congruence.
      * exists invalid_credentials, a1.
        split; [reflexivity|]. split; [exact Hus|]. split; [discriminate|].
        reflexivity.
    + exists invalid_credentials, a1.
      split; [reflexivity|]. split; [exact Hus|]. split; [discriminate|].
      reflexivity.
Qed.

Lemma login_token_only_for_valid_credentials_witness :
  exists (resp : login_response) (a' : accounts),
    sign_in toy_compare toy_sign
            (mkLoginRequest (Some (lit "admin")) (Some (lit "guess")))
            (mkAccounts [mkUserRow 1 (lit "admin") (lit "$2b$admin123")
                                   (Some (lit "admin")) 0] 1 [] 100)
    = (inl resp, a')
    /\ resp = invalid_credentials.
Proof.
  destruct (login_token_only_for_valid_credentials toy_compare toy_sign
              (mkLoginRequest (Some (lit "admin")) (Some (lit "guess")))
              (mkAccounts [mkUserRow 1 (lit "admin") (lit "$2b$admin123")
                                     (Some (lit "admin")) 0] 1 [] 100))
    as (resp & a' & Hrun & _ & _ & Hsame).
  exists resp, a'. split; [exact Hrun|].
  apply (Hsame (lit "admin") (lit "guess")); try reflexivity; try discriminate.
  right. eexists. split; reflexivity.
Defined.

(** X28. From signing in to the guarded routes.  A user whose row the table
    holds signs in with the matching password on a store that carries the
    SELECT out; the token, sent back as the second word of the
    [authorization] header, is accepted by the library with the payload
    that was signed.  Then the routes that only read or cut run their
    handler, whatever the role; the three routes that write the catalog run
    theirs when the role of the row is admin, and answer 403 without
    touching the connection otherwise. *)
Theorem login_token_opens_routes_by_role :
  forall (bcrypt_compare : jsstring -> jsstring -> bool)
         (jwt_sign : user_payload -> jsstring)
         (verify : jsstring -> option user_payload)
         (n p scheme : jsstring) (row : user_row) (a : accounts),
    n <> [] -> p <> [] ->
    account_faults a = [] ->
    find_user n a = Some row ->
    bcrypt_compare p (u_password_hash row) = true ->
    verify (jwt_sign (payload_of row)) = Some (payload_of row) ->
    jwt_sign (payload_of row) <> [] ->
    ~ In 32%N (jwt_sign (payload_of row)) ->
    ~ In 32%N scheme ->
    sign_in bcrypt_compare jwt_sign (mkLoginRequest (Some n) (Some p)) a
    = (inl (mkLoginResponse 200
              (LoginSuccess true (jwt_sign (payload_of row)) (payload_of row))), a)
    /\ forall (r : route) (before : option user_payload) (c : conn),
        partsRoutes verify r
          (mkAuthRequest (Some (scheme ++ 32%N :: jwt_sign (payload_of row))) before) c
        = match r with
          | POST_root _ | PATCH_sku _ _ | DELETE_sku _ =>
              if is_admin (Some (payload_of row)) then handler_of r c
              else (inl admin_required, c)
          | GET_sku _ | POST_cut _ => handler_of r c
          end.
Proof.
  intros cmp sgn verify n p scheme row a Hn Hp Hf Hfind Hcmp Hv Hne Hsp Hscheme.
  split.
  - rewrite (sign_in_with_credentials cmp sgn a Hn Hp).
    destruct a as [us seq f now]. cbn [account_faults] in Hf. subst f.
    unfold exec_account. cbn [account_faults perform_account].
    rewrite Hfind, Hcmp. reflexivity.
  - intros r before c.
    assert (Hauth :
      authenticateToken verify
        (mkAuthRequest (Some (scheme ++ 32%N :: sgn (payload_of row))) before)
      = Next (mkAuthRequest (Some (scheme ++ 32%N :: sgn (payload_of row)))
                            (Some (payload_of row)))).
    { unfold authenticateToken. cbn [authorization].
      pose proof (@token_of_second_piece scheme (sgn (payload_of row)) []
                    Hscheme Hsp (or_introl eq_refl)) as Htok.
      rewrite List.app_nil_r in Htok. rewrite Htok.
      destruct (sgn (payload_of row)) as [|x t] eqn:Ht; [congruence|].
      cbn [truthy_str negb]. now rewrite Hv. }
    unfold partsRoutes, middleware_of.
    destruct r; cbn [through]; rewrite Hauth; try reflexivity;
      unfold requireAdmin; cbn [user];
      destruct (is_admin (Some (payload_of row))); reflexivity.
Qed.

Lemma login_token_opens_routes_by_role_witness :
  partsRoutes toy_verify (DELETE_sku (lit "R-100"))
    (mkAuthRequest (Some (lit "Bearer jwt.admin")) None) store1
  = run (deletePart (lit "R-100")) store1.
Proof.
  refine (proj2 (@login_token_opens_routes_by_role toy_compare toy_sign toy_verify
                   (lit "admin") (lit "admin123") (lit "Bearer")
                   (mkUserRow 1 (lit "admin") (lit "$2b$admin123")
                              (Some (lit "admin")) 0)
                   (mkAccounts [mkUserRow 1 (lit "admin") (lit "$2b$admin123")
                                          (Some (lit "admin")) 0] 1 [] 100)
                   _ _ eq_refl eq_refl eq_refl eq_refl _ _ _)
                (DELETE_sku (lit "R-100")) None store1);
    try discriminate; cbn; intuition discriminate.
Defined.

Lemma find_user_none_not_in (n : jsstring) (a : accounts) :
  find_user n a = None -> ~ In n (map u_username (users a)).
Proof.
  unfold find_user. intros Hnone Hin.
  apply in_map_iff in Hin as (r & Hr & Hin).
  apply (find_none _ _ Hnone) in Hin. rewrite Hr, jsstring_eqb_refl in Hin.
  discriminate Hin.
Qed.

Lemma createDefaultAdmin_cases (bcrypt_hash : jsstring -> Z -> option jsstring)
      (a : accounts) :
  users (createDefaultAdmin bcrypt_hash a) = users a
  \/ (find_user (lit "admin") a = None
      /\ exists h : jsstring,
          bcrypt_hash (lit "admin123") 10 = Some h /\ h <> []
          /\ users (createDefaultAdmin bcrypt_hash a)
             = users a ++ [mkUserRow (users_seq a + 1) (lit "admin") h
                                     (Some (lit "admin")) (account_clock a)]).
Proof.
  destruct a as [us seq f now]. unfold createDefaultAdmin.
  set (a1 := mkAccounts us seq (tl f) now).
  assert (Hsel : exec_account (SelectUserId (lit "admin")) (mkAccounts us seq f now)
                 = (inr StoreFailure, a1)
                 \/ exec_account (SelectUserId (lit "admin")) (mkAccounts us seq f now)
                    = (inl (option_map u_id
                              (find_user (lit "admin") (mkAccounts us seq f now))), a1)).
  { unfold exec_account, a1. destruct f as [|[] f]; cbn; auto. }
  destruct Hsel as [E|E]; rewrite E; [left; reflexivity|].
  assert (Hf : find_user (lit "admin") (mkAccounts us seq f now)
               = find_user (lit "admin") a1) by reflexivity.
  destruct (find_user (lit "admin") (mkAccounts us seq f now)) as [r|] eqn:Hfind;
    cbn [option_map]; [left; reflexivity|].
  destruct (bcrypt_hash (lit "admin123") 10) as [h|] eqn:Hh; [|left; reflexivity].
  destruct (nonempty h) eqn:Hne; [|left; reflexivity].
  unfold exec_account, a1. cbn [account_faults users users_seq account_clock].
  destruct (tl f) as [|[] f'] eqn:Htl;
    cbn [perform_account snd users users_seq account_clock account_faults].
  - change (find_user (lit "admin") (mkAccounts us seq [] now))
      with (find_user (lit "admin") (mkAccounts us seq f now)).
    rewrite Hfind. cbn [snd users users_seq account_clock].
    right. split; [reflexivity|]. exists h. repeat split.
    now apply nonempty_true.
  - left. reflexivity.
  - change (find_user (lit "admin") (mkAccounts us seq f' now))
      with (find_user (lit "admin") (mkAccounts us seq f now)).
    rewrite Hfind. cbn [snd users users_seq account_clock].
    right. split; [reflexivity|]. exists h. repeat split.
    now apply nonempty_true.
Qed.

(** X29. The default administrator is created once: whatever the table and
    the plan of the store, [createDefaultAdmin] keeps every row that was
    there, adds at most one, named admin, of role admin, holding the hash
    of the password that the source spells out; it adds none when a user
    named admin exists, so that a changed password is never put back; and
    user names that were distinct stay distinct. *)
Theorem createDefaultAdmin_adds_at_most_one :
  forall (bcrypt_hash : jsstring -> Z -> option jsstring) (a : accounts),
    (exists added : list user_row,
        users (createDefaultAdmin bcrypt_hash a) = users a ++ added
        /\ (List.length added <= 1)%nat
        /\ Forall (fun r => u_username r = lit "admin"
                            /\ u_role r = Some (lit "admin")
                            /\ bcrypt_hash (lit "admin123") 10
                               = Some (u_password_hash r)) added)
    /\ (forall r : user_row,
           find_user (lit "admin") a = Some r ->
           users (createDefaultAdmin bcrypt_hash a) = users a)
    /\ (NoDup (map u_username (users a)) ->
        NoDup (map u_username (users (createDefaultAdmin bcrypt_hash a)))).
Proof.
  intros hash a.
  destruct (createDefaultAdmin_cases hash a) as [E | (Hnone & h & Hh & Hne & E)];
    rewrite E.
  - split; [|split; auto].
    exists []. rewrite List.app_nil_r. repeat split; auto.
  - split; [|split].
    + eexists [_]. split; [reflexivity|]. split; [cbn; lia|].
      constructor; [|constructor]. cbn. auto.
    + intros r Hr. rewrite Hr in Hnone. discriminate Hnone.
    + intros Hnd. rewrite map_app. cbn [map u_username].
      apply NoDup_snoc; [exact Hnd|]. now apply find_user_none_not_in.
Qed.

Lemma createDefaultAdmin_adds_at_most_one_witness :
  users (createDefaultAdmin toy_hash
           (mkAccounts [mkUserRow 1 (lit "admin") (lit "changed")
                                  (Some (lit "admin")) 0] 1 [] 100))
  = [mkUserRow 1 (lit "admin") (lit "changed") (Some (lit "admin")) 0].
Proof.
  destruct (createDefaultAdmin_adds_at_most_one toy_hash
              (mkAccounts [mkUserRow 1 (lit "admin") (lit "changed")
                                     (Some (lit "admin")) 0] 1 [] 100))
    as (_ & H & _).
  exact (H _ eq_refl).
Defined.

(** X30. The default administrator signs in with the password of the
    source: on a table without a user named admin and a store that carries
    its statements out, after [createDefaultAdmin] the request with user
    name admin and password admin123 is answered 200, with a token for the
    role admin, as soon as the library matches a password against its own
    hash. *)
Theorem default_admin_signs_in :
  forall (bcrypt_hash : jsstring -> Z -> option jsstring)
         (bcrypt_compare : jsstring -> jsstring -> bool)
         (jwt_sign : user_payload -> jsstring)
         (a : accounts) (h : jsstring),
    account_faults a = [] ->
    find_user (lit "admin") a = None ->
    bcrypt_hash (lit "admin123") 10 = Some h ->
    h <> [] ->
    bcrypt_compare (lit "admin123") h = true ->
    fst (sign_in bcrypt_compare jwt_sign
           (mkLoginRequest (Some (lit "admin")) (Some (lit "admin123")))
           (createDefaultAdmin bcrypt_hash a))
    = inl (mkLoginResponse 200
             (LoginSuccess true
                (jwt_sign (mkUserPayload (users_seq a + 1) (lit "admin")
                                         (Some (lit "admin"))))
                (mkUserPayload (users_seq a + 1) (lit "admin")
                               (Some (lit "admin"))))).
Proof.
  intros hash cmp sgn [us seq f now] h Hf Hnone Hh Hne Hcmp.
  cbn [account_faults] in Hf. subst f.
  assert (Hrun : createDefaultAdmin hash (mkAccounts us seq [] now)
                 = mkAccounts (us ++ [mkUserRow (seq + 1) (lit "admin") h
                                                (Some (lit "admin")) now])
                              (seq + 1) [] now).
  { unfold createDefaultAdmin, exec_account.
    cbn [account_faults perform_account]. rewrite Hnone. cbn [option_map].
    rewrite Hh. apply nonempty_true in Hne. rewrite Hne.
    cbn [account_faults perform_account]. rewrite ?Hnone. reflexivity. }
  rewrite Hrun, sign_in_with_credentials by discriminate.
  unfold exec_account. cbn [account_faults perform_account].
  unfold find_user in *. cbn [users] in *.
  rewrite (find_app_missing _ _ _ Hnone). cbn [find u_username].
  rewrite jsstring_eqb_refl. cbn [u_password_hash]. rewrite Hcmp. reflexivity.
Qed.

Lemma default_admin_signs_in_witness :
  fst (sign_in toy_compare toy_sign
         (mkLoginRequest (Some (lit "admin")) (Some (lit "admin123")))
         (createDefaultAdmin toy_hash no_accounts))
  = inl (mkLoginResponse 200
           (LoginSuccess true (lit "jwt.admin")
              (mkUserPayload 1 (lit "admin") (Some (lit "admin"))))).
Proof.
  apply (@default_admin_signs_in toy_hash toy_compare toy_sign no_accounts
           (lit "$2b$admin123")); try reflexivity.
  discriminate.
Defined.
